(** * pydiverse.pipedag: the run coordination core

    A shallow embedding of [RunContextServer] (context/run_context.py) and of
    [MaterialisationWrapper.__call__] (core/materialise.py).

    The server keeps its state in Python lists indexed by the dense stage and
    task ids and in a [defaultdict]; they are modelled by lists with stdpp's
    lookup and insert (an index out of range raises [IndexError], as Python
    does for the non-negative ids a flow assigns) and by a [gmap].  Every RPC
    is a small program over that shared state: the blocks it runs under one
    of the server's mutexes are atomic steps, and the two operations that
    poll ([_enter_stage_state_transition] and [enter_task_memo]) are split at
    their program points so that other requests can interleave. *)

From stdpp Require Import gmap strings list fin_maps sorting.
From Stdlib Require Import ZArith Lia Permutation.

Open Scope Z_scope.

(** ** Python exceptions and results *)

Inductive exn :=
| IndexError
| KeyError
| ValueError
| TypeError
| AssertionError
| AttributeError
| RuntimeError
| StageError
| CacheError
| Exception_ (msg : string).

Inductive result (A : Type) :=
| Ok (a : A)
| Raise (e : exn).
Arguments Ok {A} a.
Arguments Raise {A} e.

#[global] Instance result_ret : MRet result := λ A a, Ok a.
#[global] Instance result_bind : MBind result := λ A B f m,
  match m with
  | Ok a => f a
  | Raise e => Raise e
  end.

(** Values that travel over the RPC channel. *)
#[warnings="-register-all"]
Inductive pyval :=
| PyNone
| PyBool (b : bool)
| PyInt (z : Z)
| PyStr (s : string)
| PyList (l : list pyval)
| PyTuple (l : list pyval)
| PyDict (items : list (string * pyval)).

(** [l[i]] and [l[i] = x] on a Python list. *)
Definition getitem {A} (l : list A) (i : nat) : result A :=
  match l !! i with
  | Some x => Ok x
  | None => Raise IndexError
  end.

Definition setitem {A} (l : list A) (i : nat) (x : A) : result (list A) :=
  if decide (i < length l)%nat then Ok (<[i:=x]> l) else Raise IndexError.

(** A [for] loop whose body updates the state [St] and may raise: the loop
    stops at the first exception and keeps the state reached so far. *)
Fixpoint for_each {A St} (body : A → St → St * result ()) (l : list A) (s : St)
  : St * result () :=
  match l with
  | [] => (s, Ok ())
  | x :: l' =>
      match body x s with
      | (s', Ok _) => for_each body l' s'
      | (s', Raise e) => (s', Raise e)
      end
  end.

(** ** State enumerations *)

Module StageState.
Inductive t :=
| UNINITIALIZED
| INITIALIZING
| READY
| COMMITTING
| COMMITTED
| FAILED.

Definition value (s : t) : Z :=
  match s with
  | UNINITIALIZED => 0
  | INITIALIZING => 1
  | READY => 2
  | COMMITTING => 3
  | COMMITTED => 4
  | FAILED => 127
  end.

#[global] Instance eq_dec : EqDecision t.
Proof. solve_decision. Defined.
End StageState.

Module FinalTaskState.
Inductive t :=
| UNKNOWN
| COMPLETED
| FAILED
| SKIPPED.

Definition value (s : t) : Z :=
  match s with
  | UNKNOWN => 0
  | COMPLETED => 1
  | FAILED => 2
  | SKIPPED => 3
  end.

(** [FinalTaskState(v)]: the enum lookup by value raises [ValueError]. *)
Definition of_value (v : Z) : result t :=
  if decide (v = 0) then Ok UNKNOWN
  else if decide (v = 1) then Ok COMPLETED
  else if decide (v = 2) then Ok FAILED
  else if decide (v = 3) then Ok SKIPPED
  else Raise ValueError.
End FinalTaskState.

Module MemoState.
Inductive t :=
| NONE
| WAITING
| FAILED.

Definition value (s : t) : Z :=
  match s with
  | NONE => 0
  | WAITING => 1
  | FAILED => 127
  end.

#[global] Instance eq_dec : EqDecision t.
Proof. solve_decision. Defined.
End MemoState.

(** An entry of [task_memo]: one of the [MemoState] sentinels or a stored
    value.  Stored values are materialised task outputs, never a
    [MemoState]. *)
Inductive memo :=
| Sentinel (m : MemoState.t)
| Stored (v : pyval).

(** [isinstance(memo, MemoState)] *)
Definition is_MemoState (m : memo) : bool :=
  match m with Sentinel _ => true | Stored _ => false end.

(** ** The flow and the server state *)

Record Task := {
  task_id : nat;
  task_stage : nat;               (* task.stage.id *)
  upstream_stages : list nat;     (* the ids of task.upstream_stages *)
}.

Record Stage := {
  stage_id : nat;
  stage_name : string;
  all_tasks : list Task;          (* what stage.all_tasks() yields *)
}.

(** The lock manager is an external collaborator: the server only calls it.
    The model records the [release] calls it receives, in order. *)
Record LockManager := {
  released : list nat;
}.

Inductive log_entry :=
| NegativeRefCount (reference_count : Z) (stage : nat).

Record RunContextServer := {
  stages : list Stage;
  tasks : list Task;
  ref_count : list Z;
  stage_state : list StageState.t;
  table_names : list (gset string);
  blob_names : list (gset string);
  task_memo : gmap (nat * string) memo;
  lock_manager : option LockManager;
  logger : list log_entry;
}.

Definition with_stage_state (σ : RunContextServer) (l : list StageState.t) :=
  {| stages := stages σ; tasks := tasks σ; ref_count := ref_count σ;
     stage_state := l;
     table_names := table_names σ; blob_names := blob_names σ;
     task_memo := task_memo σ; lock_manager := lock_manager σ;
     logger := logger σ |}.

Definition with_ref_count (σ : RunContextServer) (l : list Z) :=
  {| stages := stages σ; tasks := tasks σ; ref_count := l;
     stage_state := stage_state σ;
     table_names := table_names σ; blob_names := blob_names σ;
     task_memo := task_memo σ; lock_manager := lock_manager σ;
     logger := logger σ |}.

Definition with_names (σ : RunContextServer) (t b : list (gset string)) :=
  {| stages := stages σ; tasks := tasks σ; ref_count := ref_count σ;
     stage_state := stage_state σ;
     table_names := t; blob_names := b;
     task_memo := task_memo σ; lock_manager := lock_manager σ;
     logger := logger σ |}.

Definition with_task_memo (σ : RunContextServer) (m : gmap (nat * string) memo) :=
  {| stages := stages σ; tasks := tasks σ; ref_count := ref_count σ;
     stage_state := stage_state σ;
     table_names := table_names σ; blob_names := blob_names σ;
     task_memo := m; lock_manager := lock_manager σ;
     logger := logger σ |}.

Definition with_lock_manager (σ : RunContextServer) (lm : option LockManager) :=
  {| stages := stages σ; tasks := tasks σ; ref_count := ref_count σ;
     stage_state := stage_state σ;
     table_names := table_names σ; blob_names := blob_names σ;
     task_memo := task_memo σ; lock_manager := lm;
     logger := logger σ |}.

Definition with_logger (σ : RunContextServer) (l : list log_entry) :=
  {| stages := stages σ; tasks := tasks σ; ref_count := ref_count σ;
     stage_state := stage_state σ;
     table_names := table_names σ; blob_names := blob_names σ;
     task_memo := task_memo σ; lock_manager := lock_manager σ;
     logger := l |}.

(** ** STAGE: State *)

(** Program points of [_enter_stage_state_transition]: the first block under
    [stage_state_lock], the unlocked polling loop, the second locked block. *)
Inductive enter_pc :=
| FirstCheck
| WaitLoop
| SecondCheck.

(** One atomic step of [_enter_stage_state_transition] from program point
    [pc]: the new server state and either the next program point or the
    outcome of the call. *)
Definition _enter_stage_state_transition
    (stage_id : nat) (from_ transition to : StageState.t)
    (pc : enter_pc) (σ : RunContextServer)
  : RunContextServer * (enter_pc + result pyval) :=
  match pc with
  | FirstCheck =>
      match getitem (stage_state σ) stage_id with
      | Raise e => (σ, inr (Raise e))
      | Ok s =>
          if decide (s = to) then (σ, inr (Ok (PyBool false)))
          else if decide (s = from_) then
            (with_stage_state σ (<[stage_id:=transition]> (stage_state σ)),
             inr (Ok (PyBool true)))
          else (σ, inl WaitLoop)
      end
  | WaitLoop =>
      match getitem (stage_state σ) stage_id with
      | Raise e => (σ, inr (Raise e))
      | Ok s =>
          if decide (s = transition) then (σ, inl WaitLoop)
          else (σ, inl SecondCheck)
      end
  | SecondCheck =>
      match getitem (stage_state σ) stage_id with
      | Raise e => (σ, inr (Raise e))
      | Ok state =>
          if decide (state = to) then (σ, inr (Ok (PyBool false)))
          else if decide (state = StageState.FAILED) then
            (* the message of the StageError names the stage *)
            match getitem (stages σ) stage_id with
            | Raise e => (σ, inr (Raise e))
            | Ok _ => (σ, inr (Raise StageError))
            end
          else (σ, inr (Ok PyNone))
      end
  end.

Definition enter_init_stage (stage_id : nat) :=
  _enter_stage_state_transition stage_id
    StageState.UNINITIALIZED StageState.INITIALIZING StageState.READY.

Definition enter_commit_stage (stage_id : nat) :=
  _enter_stage_state_transition stage_id
    StageState.READY StageState.COMMITTING StageState.COMMITTED.

(** [_exit_stage_state_transition] is one block under [stage_state_lock]. *)
Definition _exit_stage_state_transition
    (stage_id : nat) (success : bool) (transition to : StageState.t)
    (σ : RunContextServer) : RunContextServer * result pyval :=
  if negb success then
    match setitem (stage_state σ) stage_id StageState.FAILED with
    | Raise e => (σ, Raise e)
    | Ok l => (with_stage_state σ l, Ok PyNone)
    end
  else
    match getitem (stage_state σ) stage_id with
    | Raise e => (σ, Raise e)
    | Ok s =>
        if decide (s = transition) then
          (with_stage_state σ (<[stage_id:=to]> (stage_state σ)), Ok PyNone)
        else (σ, Raise RuntimeError)
    end.

Definition exit_init_stage (stage_id : nat) (success : bool) :=
  _exit_stage_state_transition stage_id success
    StageState.INITIALIZING StageState.READY.

Definition exit_commit_stage (stage_id : nat) (success : bool) :=
  _exit_stage_state_transition stage_id success
    StageState.COMMITTING StageState.COMMITTED.

Definition get_stage_state (stage_id : nat) (σ : RunContextServer)
  : RunContextServer * result pyval :=
  match getitem (stage_state σ) stage_id with
  | Raise e => (σ, Raise e)
  | Ok s => (σ, Ok (PyInt (StageState.value s)))
  end.

(** ** TASK: memo *)

(** [get_memo_key]: the cache keys are a [dict[str, str]], kept here as the
    list of its items in insertion order. *)
Definition get_memo_key (task : Task) (cache_keys : list (string * string))
  : nat * string :=
  let sub_key := String.concat "-" (cache_keys.*2) in
  (task_stage task, sub_key).

(** [self.task_memo[memo_key]] on the [defaultdict]: a missing key is
    inserted with the default [MemoState.NONE] by the read itself. *)
Definition task_memo_getitem (m : gmap (nat * string) memo) (k : nat * string)
  : memo * gmap (nat * string) memo :=
  match m !! k with
  | Some v => (v, m)
  | None => (Sentinel MemoState.NONE, <[k:=Sentinel MemoState.NONE]> m)
  end.

(** Program points of [enter_task_memo]: the block under [task_memo_lock],
    then the polling loop, which carries the locals [memo_key] and [memo]. *)
Inductive memo_pc :=
| MemoLocked
| MemoPoll (memo_key : nat * string) (memo_ : memo).

Definition enter_task_memo
    (task_id : nat) (cache_keys : list (string * string))
    (pc : memo_pc) (σ : RunContextServer)
  : RunContextServer * (memo_pc + result pyval) :=
  match pc with
  | MemoLocked =>
      match getitem (tasks σ) task_id with
      | Raise e => (σ, inr (Raise e))
      | Ok task =>
          let memo_key := get_memo_key task cache_keys in
          let '(memo_, m) := task_memo_getitem (task_memo σ) memo_key in
          match memo_ with
          | Sentinel MemoState.NONE =>
              (with_task_memo σ (<[memo_key:=Sentinel MemoState.WAITING]> m),
               inr (Ok (PyTuple [PyBool false; PyNone])))
          | _ => (with_task_memo σ m, inl (MemoPoll memo_key memo_))
          end
      end
  | MemoPoll memo_key memo_ =>
      match memo_ with
      | Sentinel MemoState.WAITING =>
          (* time.sleep(0.01); memo = self.task_memo[memo_key] *)
          let '(memo', m) := task_memo_getitem (task_memo σ) memo_key in
          (with_task_memo σ m, inl (MemoPoll memo_key memo'))
      | Sentinel MemoState.FAILED =>
          (σ, inr (Raise
             (Exception_ "The same task already failed earlier (memo).")))
      | Sentinel MemoState.NONE =>
          (σ, inr (Raise (Exception_ EmptyString)))
      | Stored v => (σ, inr (Ok (PyTuple [PyBool true; v])))
      end
  end.

Definition exit_task_memo
    (task_id : nat) (cache_keys : list (string * string)) (success : bool)
    (σ : RunContextServer) : RunContextServer * result pyval :=
  match getitem (tasks σ) task_id with
  | Raise e => (σ, Raise e)
  | Ok task =>
      let memo_key := get_memo_key task cache_keys in
      if negb success then
        (with_task_memo σ (<[memo_key:=Sentinel MemoState.FAILED]> (task_memo σ)),
         Ok PyNone)
      else
        let '(memo_, m) := task_memo_getitem (task_memo σ) memo_key in
        if is_MemoState memo_ then
          (with_task_memo σ m, Raise (Exception_ "set_task_memo not called"))
        else (with_task_memo σ m, Ok PyNone)
  end.

Definition store_task_memo
    (task_id : nat) (cache_keys : list (string * string)) (value : pyval)
    (σ : RunContextServer) : RunContextServer * result pyval :=
  match getitem (tasks σ) task_id with
  | Raise e => (σ, Raise e)
  | Ok task =>
      let memo_key := get_memo_key task cache_keys in
      let '(memo_, m) := task_memo_getitem (task_memo σ) memo_key in
      match memo_ with
      | Sentinel MemoState.WAITING =>
          (with_task_memo σ (<[memo_key:=Stored value]> m), Ok PyNone)
      | _ =>
          (with_task_memo σ m,
           Raise (Exception_ "Expected memo state to be waiting"))
      end
  end.

(** ** TABLE / BLOB: names *)

(** The two scanning loops of [add_names]: the names of [l] that are already
    in [names[stage_id]], in order.  The list is indexed once per iteration. *)
Fixpoint collect_duplicates
    (names : list (gset string)) (stage_id : nat) (l : list string)
  : result (list string) :=
  match l with
  | [] => Ok []
  | x :: l' =>
      present ← getitem names stage_id;
      ds ← collect_duplicates names stage_id l';
      Ok (if decide (x ∈ present) then x :: ds else ds)
  end.

(** [for x in l: names[stage_id].add(x)] *)
Fixpoint add_each
    (names : list (gset string)) (stage_id : nat) (l : list string)
  : result (list (gset string)) :=
  match l with
  | [] => Ok names
  | x :: l' =>
      present ← getitem names stage_id;
      add_each (<[stage_id:=present ∪ {[x]}]> names) stage_id l'
  end.

(** [for x in l: names[stage_id].remove(x)]; [set.remove] raises [KeyError]
    on a missing element, and what was removed before stays removed. *)
Fixpoint remove_each
    (names : list (gset string)) (stage_id : nat) (l : list string)
  : list (gset string) * result () :=
  match l with
  | [] => (names, Ok ())
  | x :: l' =>
      match getitem names stage_id with
      | Raise e => (names, Raise e)
      | Ok present =>
          if decide (x ∈ present) then
            remove_each (<[stage_id:=present ∖ {[x]}]> names) stage_id l'
          else (names, Raise KeyError)
      end
  end.

Definition add_names
    (stage_id : nat) (tables blobs : list string) (σ : RunContextServer)
  : RunContextServer * result pyval :=
  match collect_duplicates (table_names σ) stage_id tables with
  | Raise e => (σ, Raise e)
  | Ok table_duplicates =>
  match collect_duplicates (blob_names σ) stage_id blobs with
  | Raise e => (σ, Raise e)
  | Ok blob_duplicates =>
      if bool_decide (table_duplicates ≠ [] ∨ blob_duplicates ≠ []) then
        (σ, Ok (PyDict
           [("success"%string, PyBool false);
            ("table_duplicates"%string, PyList (PyStr <$> table_duplicates));
            ("blob_duplicates"%string, PyList (PyStr <$> blob_duplicates))]))
      else
        match add_each (table_names σ) stage_id tables with
        | Raise e => (σ, Raise e)
        | Ok tn =>
        match add_each (blob_names σ) stage_id blobs with
        | Raise e => (with_names σ tn (blob_names σ), Raise e)
        | Ok bn =>
            (with_names σ tn bn, Ok (PyDict [("success"%string, PyBool true)]))
        end end
  end end.

Definition remove_names
    (stage_id : nat) (tables blobs : list string) (σ : RunContextServer)
  : RunContextServer * result pyval :=
  match remove_each (table_names σ) stage_id tables with
  | (tn, Raise e) => (with_names σ tn (blob_names σ), Raise e)
  | (tn, Ok _) =>
      match remove_each (blob_names σ) stage_id blobs with
      | (bn, Raise e) => (with_names σ tn bn, Raise e)
      | (bn, Ok _) => (with_names σ tn bn, Ok PyNone)
      end
  end.

(** ** STAGE: reference counting *)

Definition get_stage_ref_count (stage_id : nat) (σ : RunContextServer)
  : RunContextServer * result pyval :=
  match getitem (ref_count σ) stage_id with
  | Raise e => (σ, Raise e)
  | Ok n => (σ, Ok (PyInt n))
  end.

(** The sort keys [lambda s: s.id] and [lambda t: t.id]. *)
Definition stage_id_le (a b : Stage) : Prop := (stage_id a ≤ stage_id b)%nat.
Definition task_id_le (a b : Task) : Prop := (task_id a ≤ task_id b)%nat.

#[global] Instance stage_id_le_dec : RelDecision stage_id_le.
Proof. intros a b. unfold stage_id_le. apply _. Defined.
#[global] Instance task_id_le_dec : RelDecision task_id_le.
Proof. intros a b. unfold task_id_le. apply _. Defined.

(** [__init__]: the stages and tasks of the flow sorted by id, every counter
    0, every stage [UNINITIALIZED], empty name sets and an empty memo. *)
Definition RunContextServer_init
    (flow_stages : list Stage) (flow_tasks : list Task) (lm : LockManager)
  : RunContextServer :=
  let num_stages := length flow_stages in
  {| stages := merge_sort stage_id_le flow_stages;
     tasks := merge_sort task_id_le flow_tasks;
     ref_count := replicate num_stages 0;
     stage_state := replicate num_stages StageState.UNINITIALIZED;
     table_names := replicate num_stages ∅;
     blob_names := replicate num_stages ∅;
     task_memo := ∅;
     lock_manager := Some lm;
     logger := [] |}.

(** The body of the innermost loop of [__enter__]:
    [self.ref_count[s.id] += 1]. *)
Definition incr_ref_count (s : nat) (rc : list Z) : list Z * result () :=
  match getitem rc s with
  | Raise e => (rc, Raise e)
  | Ok n => (<[s:=n + 1]> rc, Ok ())
  end.

(** [__enter__], the part "INITIALIZE REFERENCE COUNTERS".  (What precedes it
    only talks to the lock manager and to the store.) *)
Definition initialize_reference_counters (σ : RunContextServer)
  : RunContextServer * result () :=
  let '(rc, r) :=
    for_each (λ stage,
      for_each (λ task,
        for_each incr_ref_count (upstream_stages task)) (all_tasks stage))
      (stages σ) (ref_count σ) in
  (with_ref_count σ rc, r).

(** ** TASK: did_finish_task *)

(** The locals and fields the loop under [ref_count_lock] updates. *)
Record finish_state := {
  fs_ref_count : list Z;
  fs_logger : list log_entry;
  stages_to_release : list nat;
}.

(** The body of the loop of [did_finish_task], for one upstream stage. *)
Definition decr_ref_count (stage : nat) (s : finish_state)
  : finish_state * result () :=
  match getitem (fs_ref_count s) stage with
  | Raise e => (s, Raise e)
  | Ok n =>
      let ref_count' := <[stage:=n - 1]> (fs_ref_count s) in
      let rc := n - 1 in
      if decide (rc = 0) then
        ({| fs_ref_count := ref_count'; fs_logger := fs_logger s;
            stages_to_release := stages_to_release s ++ [stage] |}, Ok ())
      else if decide (rc < 0) then
        ({| fs_ref_count := ref_count';
            fs_logger := fs_logger s ++ [NegativeRefCount rc stage];
            stages_to_release := stages_to_release s |}, Ok ())
      else
        ({| fs_ref_count := ref_count'; fs_logger := fs_logger s;
            stages_to_release := stages_to_release s |}, Ok ())
  end.

(** Program points of [did_finish_task]: up to the end of the block under
    [ref_count_lock], then the loop over [stages_to_release], one call to
    the lock manager per step. *)
Inductive finish_pc :=
| FinishLocked
| FinishRelease (to_release : list nat).

Definition did_finish_task
    (task_id : nat) (final_state_value : Z)
    (pc : finish_pc) (σ : RunContextServer)
  : RunContextServer * (finish_pc + result pyval) :=
  match pc with
  | FinishLocked =>
      match lock_manager σ with
      | None => (σ, inr (Raise AssertionError))
      | Some _ =>
      match FinalTaskState.of_value final_state_value with
      | Raise e => (σ, inr (Raise e))
      | Ok final_state =>
      match getitem (tasks σ) task_id with
      | Raise e => (σ, inr (Raise e))
      | Ok task =>
          let '(s, r) :=
            for_each decr_ref_count (upstream_stages task)
              {| fs_ref_count := ref_count σ; fs_logger := logger σ;
                 stages_to_release := [] |} in
          let σ' := with_logger (with_ref_count σ (fs_ref_count s)) (fs_logger s) in
          match r with
          | Raise e => (σ', inr (Raise e))
          | Ok _ => (σ', inl (FinishRelease (stages_to_release s)))
          end
      end end end
  | FinishRelease [] => (σ, inr (Ok PyNone))
  | FinishRelease (stage :: rest) =>
      match lock_manager σ with
      | None => (σ, inr (Raise AttributeError))
      | Some lm =>
          (with_lock_manager σ (Some {| released := released lm ++ [stage] |}),
           inl (FinishRelease rest))
      end
  end.

(** ** Requests in flight *)

(** A request being served: the operation with its arguments and, for the
    operations with more than one atomic block, the program point. *)
Inductive thread :=
| T_get_stage_ref_count (stage_id : nat)
| T_get_stage_state (stage_id : nat)
| T_enter_init_stage (stage_id : nat) (pc : enter_pc)
| T_exit_init_stage (stage_id : nat) (success : bool)
| T_enter_commit_stage (stage_id : nat) (pc : enter_pc)
| T_exit_commit_stage (stage_id : nat) (success : bool)
| T_did_finish_task (task_id : nat) (final_state_value : Z) (pc : finish_pc)
| T_enter_task_memo (task_id : nat) (cache_keys : list (string * string))
    (pc : memo_pc)
| T_exit_task_memo (task_id : nat) (cache_keys : list (string * string))
    (success : bool)
| T_store_task_memo (task_id : nat) (cache_keys : list (string * string))
    (value : pyval)
| T_add_names (stage_id : nat) (tables blobs : list string)
| T_remove_names (stage_id : nat) (tables blobs : list string)
| T_returned (r : result pyval).

(** A request as it arrives: at the first program point. *)
Definition arriving (t : thread) : bool :=
  match t with
  | T_enter_init_stage _ pc | T_enter_commit_stage _ pc =>
      match pc with FirstCheck => true | _ => false end
  | T_did_finish_task _ _ pc =>
      match pc with FinishLocked => true | _ => false end
  | T_enter_task_memo _ _ pc =>
      match pc with MemoLocked => true | _ => false end
  | T_returned _ => false
  | _ => true
  end.

Definition resume {PC} (k : PC → thread) (x : RunContextServer * (PC + result pyval))
  : RunContextServer * thread :=
  match x with
  | (σ, inl pc) => (σ, k pc)
  | (σ, inr r) => (σ, T_returned r)
  end.

Definition finish (x : RunContextServer * result pyval)
  : RunContextServer * thread :=
  (x.1, T_returned x.2).

(** One atomic step of a request; a request that has returned has none. *)
Definition thread_step (t : thread) (σ : RunContextServer)
  : option (RunContextServer * thread) :=
  match t with
  | T_get_stage_ref_count i => Some (finish (get_stage_ref_count i σ))
  | T_get_stage_state i => Some (finish (get_stage_state i σ))
  | T_enter_init_stage i pc =>
      Some (resume (T_enter_init_stage i) (enter_init_stage i pc σ))
  | T_exit_init_stage i b => Some (finish (exit_init_stage i b σ))
  | T_enter_commit_stage i pc =>
      Some (resume (T_enter_commit_stage i) (enter_commit_stage i pc σ))
  | T_exit_commit_stage i b => Some (finish (exit_commit_stage i b σ))
  | T_did_finish_task i v pc =>
      Some (resume (T_did_finish_task i v) (did_finish_task i v pc σ))
  | T_enter_task_memo i ks pc =>
      Some (resume (T_enter_task_memo i ks) (enter_task_memo i ks pc σ))
  | T_exit_task_memo i ks b => Some (finish (exit_task_memo i ks b σ))
  | T_store_task_memo i ks v => Some (finish (store_task_memo i ks v σ))
  | T_add_names i ts bs => Some (finish (add_names i ts bs σ))
  | T_remove_names i ts bs => Some (finish (remove_names i ts bs σ))
  | T_returned _ => None
  end.

(** The server with the requests it is serving.  A step either accepts a new
    request or runs one atomic step of a request in flight, in any order. *)
Record system := {
  server : RunContextServer;
  threads : list thread;
}.

Inductive step : system → system → Prop :=
| step_accept σ ts t :
    arriving t = true →
    step {| server := σ; threads := ts |}
         {| server := σ; threads := ts ++ [t] |}
| step_thread σ ts i t σ' t' :
    ts !! i = Some t →
    thread_step t σ = Some (σ', t') →
    step {| server := σ; threads := ts |}
         {| server := σ'; threads := <[i:=t']> ts |}.

(** [run s tr]: the states [tr] are visited, in order, after [s]. *)
Inductive run : system → list system → Prop :=
| run_nil s : run s []
| run_cons s s' tr : step s s' → run s' tr → run s (s' :: tr).

(** A request served with no other request in between: at most [fuel]
    atomic steps. *)
Fixpoint run_alone (fuel : nat) (t : thread) (σ : RunContextServer)
  : RunContextServer * thread :=
  match fuel with
  | O => (σ, t)
  | S n =>
      match thread_step t σ with
      | None => (σ, t)
      | Some (σ', t') => run_alone n t' σ'
      end
  end.

(** ** The materialisation wrapper (core/materialise.py) *)

Record MaterialisingTask := {
  name : string;
  version : option string;
  lazy : bool;
  schema : option nat;
  cache_key : option string;
}.

Definition set_cache_key (task : MaterialisingTask) (k : string) :=
  {| name := name task; version := version task; lazy := lazy task;
     schema := schema task; cache_key := Some k |}.

(** [inspect.Signature.bind]: the bound arguments. *)
Record BoundArguments := {
  arguments : pyval;
  args : pyval;
  kwargs : pyval;
}.

(** The store is an external collaborator; the wrapper sees it through these
    operations, each of which may raise. *)
Record PipeDAGStore := {
  ensure_schema_is_ready : nat → result ();
  json_encode : pyval → result string;
  compute_task_cache_key : MaterialisingTask → string → result string;
  retrieve_cached_output : MaterialisingTask → result pyval;
  copy_cached_output_to_working_schema : pyval → MaterialisingTask → result ();
  dematerialise_task_inputs :
    MaterialisingTask → pyval → pyval → result (pyval * pyval);
  materialise_task : MaterialisingTask → pyval → result pyval;
}.

(** The calls the wrapper makes, in order. [Call_fn] is the user function. *)
Inductive event :=
| Call_ensure_schema_is_ready (schema : nat)
| Call_retrieve_cached_output
| Call_copy_cached_output_to_working_schema (cached_output : pyval)
| Call_dematerialise_task_inputs
| Call_fn (args kwargs : pyval)
| Call_materialise_task (result_ : pyval)
| Call_notify_all.


Module MaterialisationWrapper.

(** What [self.memo[schema]] holds for a cache key: the [threading.Condition]
    of the running call, its result, or [_nil] (written back by
    [task_state_handler] after a failure). *)
Inductive entry :=
| _nil
| Condition
| Result (v : pyval).

Definition is_Condition (m : entry) : bool :=
  match m with Condition => true | _ => false end.

Record t := {
  fn : pyval → pyval → result pyval;
  fn_signature_bind : pyval → pyval → result BoundArguments;
}.

(** [memo : defaultdict(dict)], from schema to cache key to entry. *)
Abbreviation memo_table := (gmap nat (gmap string entry)).

Inductive outcome :=
| Memoized (memo_result : entry)   (* return deepmutate(memo_result, copy.copy) *)
| Returned (v : pyval)
| Raised (e : exn)
| Blocked.                         (* still in the wait loop *)

(** [self.memo[schema]] on the [defaultdict(dict)]. *)
Definition memo_getitem (memo : memo_table) (schema : nat)
  : gmap string entry * memo_table :=
  match memo !! schema with
  | Some d => (d, memo)
  | None => (∅, <[schema:=∅]> memo)
  end.

Definition store_in_memo
    (result_ : pyval) (schema : nat) (cache_key : string) (memo : memo_table)
  : memo_table * list event * result () :=
  let '(d, memo) := memo_getitem memo schema in
  match d !! cache_key with
  | None => (memo, [], Raise KeyError)
  | Some condition =>
      let memo' := <[schema:=<[cache_key:=Result result_]> d]> memo in
      match condition with
      | Condition => (memo', [Call_notify_all], Ok ())
      | _ => (memo', [], Raise AttributeError)
      end
  end.

(** The loop [while isinstance(memo_result, threading.Condition)]: each
    wake-up reads the entry again; [polls] are the values the other calls
    have left there at the successive wake-ups. *)
Fixpoint wait_for_result (memo_result : entry) (polls : list entry) : outcome :=
  match memo_result with
  | Condition =>
      match polls with
      | [] => Blocked
      | m :: polls' => wait_for_result m polls'
      end
  | _ => Memoized memo_result
  end.

(** The body of the [try]: cache lookup, copy, memo. *)
Definition use_cache
    (store : PipeDAGStore) (task : MaterialisingTask)
    (schema : nat) (cache_key : string) (memo : memo_table)
  : memo_table * list event * result pyval :=
  match retrieve_cached_output store task with
  | Raise e => (memo, [Call_retrieve_cached_output], Raise e)
  | Ok cached_output =>
      let evs := [Call_retrieve_cached_output;
                  Call_copy_cached_output_to_working_schema cached_output] in
      match copy_cached_output_to_working_schema store cached_output task with
      | Raise e => (memo, evs, Raise e)
      | Ok _ =>
          match store_in_memo cached_output schema cache_key memo with
          | (memo', evs', Ok _) => (memo', evs ++ evs', Ok cached_output)
          | (memo', evs', Raise e) => (memo', evs ++ evs', Raise e)
          end
      end
  end.

(** "Not found in cache / lazy -> Evaluate Function" and "Materialise". *)
Definition evaluate
    (self : t) (store : PipeDAGStore) (task : MaterialisingTask)
    (bound : BoundArguments)
    (schema : nat) (cache_key : string) (memo : memo_table)
  : memo_table * list event * outcome :=
  match dematerialise_task_inputs store task (args bound) (kwargs bound) with
  | Raise e => (memo, [Call_dematerialise_task_inputs], Raised e)
  | Ok (args, kwargs) =>
      let evs := [Call_dematerialise_task_inputs; Call_fn args kwargs] in
      match fn self args kwargs with
      | Raise e => (memo, evs, Raised e)
      | Ok result_ =>
          let evs := evs ++ [Call_materialise_task result_] in
          match materialise_task store task result_ with
          | Raise e => (memo, evs, Raised e)
          | Ok materialised_result =>
              match store_in_memo materialised_result schema cache_key memo with
              | (memo', evs', Ok _) =>
                  (memo', evs ++ evs', Returned materialised_result)
              | (memo', evs', Raise e) => (memo', evs ++ evs', Raised e)
              end
          end
      end
  end.

Definition is_CacheError (e : exn) : bool :=
  match e with CacheError => true | _ => false end.

(** [__call__]: the memo afterwards, the calls made, and the outcome. *)
Definition __call__
    (self : t) (store : PipeDAGStore) (polls : list entry)
    (args kwargs : pyval) (_pipedag_task_ : option MaterialisingTask)
    (memo : memo_table)
  : memo_table * list event * outcome :=
  match fn_signature_bind self args kwargs with
  | Raise e => (memo, [], Raised e)
  | Ok bound =>
  match _pipedag_task_ with
  | None => (memo, [], Raised TypeError)
  | Some task =>
  match schema task with
  | None => (memo, [], Raised TypeError)
  | Some task_schema =>
  let evs := [Call_ensure_schema_is_ready task_schema] in
  match ensure_schema_is_ready store task_schema with
  | Raise e => (memo, evs, Raised e)
  | Ok _ =>
  match json_encode store (arguments bound) with
  | Raise e => (memo, evs, Raised e)
  | Ok input_json =>
  match compute_task_cache_key store task input_json with
  | Raise e => (memo, evs, Raised e)
  | Ok cache_key =>
  let task := set_cache_key task cache_key in
  let '(d, memo) := memo_getitem memo task_schema in
  let memo_result := default _nil (d !! cache_key) in
  match memo_result with
  | Condition | Result _ => (memo, evs, wait_for_result memo_result polls)
  | _nil =>
      let memo := <[task_schema:=<[cache_key:=Condition]> d]> memo in
      if negb (lazy task) then
        match use_cache store task task_schema cache_key memo with
        | (memo', evs', Ok cached_output) =>
            (memo', evs ++ evs', Returned cached_output)
        | (memo', evs', Raise e) =>
            if is_CacheError e then
              let '(memo'', evs'', o) :=
                evaluate self store task bound task_schema cache_key memo' in
              (memo'', evs ++ evs' ++ evs'', o)
            else (memo', evs ++ evs', Raised e)
        end
      else
        let '(memo', evs', o) :=
          evaluate self store task bound task_schema cache_key memo in
        (memo', evs ++ evs', o)
  end end end end end end end.

End MaterialisationWrapper.

(** ** Vocabulary of the specification *)

(** The lifecycle of a stage. *)
Definition lifecycle : list StageState.t :=
  [StageState.UNINITIALIZED; StageState.INITIALIZING; StageState.READY;
   StageState.COMMITTING; StageState.COMMITTED].

(** The successive values of a variable, repetitions dropped. *)
Fixpoint changes (l : list StageState.t) : list StageState.t :=
  match l with
  | [] => []
  | a :: l' =>
      match l' with
      | [] => [a]
      | b :: _ => if decide (a = b) then changes l' else a :: changes l'
      end
  end.

(** The state of stage [i] at each point of a run. *)
Definition states_of (i : nat) (tr : list system) : list StageState.t :=
  omap (λ s, stage_state (server s) !! i) tr.

(** The moves of the lifecycle. *)
Inductive edge : StageState.t → StageState.t → Prop :=
| edge_init : edge StageState.UNINITIALIZED StageState.INITIALIZING
| edge_ready : edge StageState.INITIALIZING StageState.READY
| edge_committing : edge StageState.READY StageState.COMMITTING
| edge_committed : edge StageState.COMMITTING StageState.COMMITTED
| edge_failed a : edge a StageState.FAILED.

(** [follows a l]: from [a], the list [l] moves along edges or stays. *)
Inductive follows : StageState.t → list StageState.t → Prop :=
| follows_nil a : follows a []
| follows_stay a l : follows a l → follows a (a :: l)
| follows_edge a b l : edge a b → follows b l → follows a (b :: l).

Definition rank (s : StageState.t) : nat :=
  match s with
  | StageState.UNINITIALIZED => 0
  | StageState.INITIALIZING => 1
  | StageState.READY => 2
  | StageState.COMMITTING => 3
  | StageState.COMMITTED => 4
  | StageState.FAILED => 5
  end.

(** [moves l l']: every stage stays or follows an edge. *)
Definition moves (l l' : list StageState.t) : Prop :=
  ∀ i a, l !! i = Some a → ∃ b, l' !! i = Some b ∧ (a = b ∨ edge a b).

(** ** A small flow used in the examples

    Stage A (id 0) holds one task; stage B (id 1) holds two tasks that read
    from stage A. *)
Definition task_0 : Task :=
  {| task_id := 0; task_stage := 0; upstream_stages := [] |}.
Definition task_1 : Task :=
  {| task_id := 1; task_stage := 1; upstream_stages := [0%nat] |}.
Definition task_2 : Task :=
  {| task_id := 2; task_stage := 1; upstream_stages := [0%nat] |}.
Definition stage_A : Stage :=
  {| stage_id := 0; stage_name := "A"; all_tasks := [task_0] |}.
Definition stage_B : Stage :=
  {| stage_id := 1; stage_name := "B"; all_tasks := [task_1; task_2] |}.

Definition fresh_server : RunContextServer :=
  RunContextServer_init [stage_B; stage_A] [task_2; task_0; task_1]
    {| released := [] |}.

Definition entered_server : RunContextServer :=
  (initialize_reference_counters fresh_server).1.

(** A short run of [entered_server]: a request [enter_init_stage(0)] arrives
    and runs its first block. *)
Definition run_0 : system :=
  {| server := entered_server; threads := [] |}.
Definition run_1 : system :=
  {| server := entered_server; threads := [T_enter_init_stage 0 FirstCheck] |}.
Definition run_2 : system :=
  {| server := with_stage_state entered_server
       [StageState.INITIALIZING; StageState.UNINITIALIZED];
     threads := [T_returned (Ok (PyBool true))] |}.

(** The entry of the memo table for a key, as a read of the [defaultdict]
    sees it: an absent key reads as [MemoState.NONE]. *)
Definition entry (m : gmap (nat * string) memo) (k : nat * string) : memo :=
  default (Sentinel MemoState.NONE) (m !! k).

Definition mrank (e : memo) : nat :=
  match e with
  | Sentinel MemoState.NONE => 0
  | Sentinel MemoState.WAITING => 1
  | Stored _ => 2
  | Sentinel MemoState.FAILED => 3
  end.

(** The order in which a memo entry evolves: it stays as it is or moves up
    from NONE to WAITING to a stored value to FAILED. *)
Definition memo_le (a b : memo) : Prop := a = b ∨ (mrank a < mrank b)%nat.

(** The entry for key [k] at point [n] of a run. *)
Definition entry_at (k : nat * string) (tr : list system) (n : nat)
  : option memo :=
  (λ s, entry (task_memo (server s)) k) <$> tr !! n.

(** Schedules: a run is played by accepting requests and stepping the
    requests in flight, in the order the schedule gives. *)
Inductive action :=
| Accept (t : thread)
| Step (i : nat).

Definition act (a : action) (s : system) : option system :=
  match a with
  | Accept t =>
      if arriving t
      then Some {| server := server s; threads := threads s ++ [t] |}
      else None
  | Step i =>
      match threads s !! i with
      | None => None
      | Some t =>
          match thread_step t (server s) with
          | None => None
          | Some (σ', t') =>
              Some {| server := σ'; threads := <[i:=t']> (threads s) |}
          end
      end
  end.

Fixpoint play (sched : list action) (s : system) : list system :=
  match sched with
  | [] => []
  | a :: rest =>
      match act a s with
      | Some s' => s' :: play rest s'
      | None => []
      end
  end.

(** A run in which task 1 claims its memo entry and stores its result while
    task 2, called with the same cache keys, waits for it. *)
Definition memo_schedule : list action :=
  [Accept (T_enter_task_memo 1 [("k", "a")]%string MemoLocked); Step 0;
   Accept (T_enter_task_memo 2 [("k", "a")]%string MemoLocked); Step 1;
   Accept (T_store_task_memo 1 [("k", "a")]%string (PyInt 7)); Step 2;
   Step 1; Step 1].

(** How often stage [j] occurs in a list of stage ids. *)
Definition occurrences (j : nat) (l : list nat) : Z :=
  Z.of_nat (length (filter (λ x, x = j) l)).

(** How often the tasks [ts] declare stage [j] upstream: with the upstream
    stages of a task a set, the number of tasks of [ts] that read from [j]. *)
Definition declared (j : nat) (ts : list Task) : Z :=
  occurrences j (ts ≫= upstream_stages).

(** The error-log entries the loop of [did_finish_task] writes for the
    upstream stages [l], from the counters [rc] it starts with. *)
Definition negative_logs (rc : list Z) (l : list nat) : list log_entry :=
  omap (λ stage,
    match rc !! stage with
    | Some n =>
        if decide (n - 1 < 0) then Some (NegativeRefCount (n - 1) stage)
        else None
    | None => None
    end) l.

(** The task whose block under [ref_count_lock] an action runs, if any. *)
Definition locked_finish (a : action) (s : system) : option nat :=
  match a with
  | Step i =>
      match threads s !! i with
      | Some (T_did_finish_task task_id final_state_value FinishLocked) =>
          match FinalTaskState.of_value final_state_value with
          | Ok _ => Some task_id
          | Raise _ => None
          end
      | _ => None
      end
  | Accept _ => None
  end.

(** [play], with the ids of the tasks that have finished so far (those whose
    [did_finish_task] has run its locked block) at each point. *)
Fixpoint play_log (sched : list action) (s : system) (done_ : list nat)
  : list (system * list nat) :=
  match sched with
  | [] => []
  | a :: rest =>
      match act a s with
      | Some s' =>
          let done' := done_ ++ option_list (locked_finish a s) in
          (s', done') :: play_log rest s' done'
      | None => []
      end
  end.

(** The tasks that the ids [ids] name: [self.tasks[i]] for each of them that
    is an index of [self.tasks]. *)
Definition tasks_of (ts : list Task) (ids : list nat) : list Task :=
  ids ≫= (λ i, option_list (ts !! i)).

(** What holds of the counters at a point of a run at which the tasks [done_]
    have finished, [ts] being the tasks of the flow and [rc] the counters as
    [__enter__] left them. *)
Definition counted (ts : list Task) (rc : list Z) (s : system)
    (done_ : list nat) : Prop :=
  tasks (server s) = ts ∧
  is_Some (lock_manager (server s)) ∧
  length (ref_count (server s)) = length rc ∧
  ∀ j, ref_count (server s) !! j =
       (λ n, n - declared j (tasks_of ts done_)) <$> rc !! j.

(** A run in which the two tasks of stage B report that they finished. *)
Definition finish_schedule : list action :=
  [Accept (T_did_finish_task 1 1 FinishLocked);
   Accept (T_did_finish_task 2 1 FinishLocked);
   Step 0; Step 1; Step 1; Step 0; Step 1;
   Accept (T_did_finish_task 0 1 FinishLocked); Step 2; Step 2].

(** A store without cached outputs, a wrapped function returning 0, a lazy
    and an eager task, for the examples. *)
Definition empty_store : PipeDAGStore :=
  {| ensure_schema_is_ready := λ _, Ok ();
     json_encode := λ _, Ok "[]"%string;
     compute_task_cache_key := λ task _, Ok (name task);
     retrieve_cached_output := λ _, Raise CacheError;
     copy_cached_output_to_working_schema := λ _ _, Ok ();
     dematerialise_task_inputs := λ _ args kwargs, Ok (args, kwargs);
     materialise_task := λ _ result_, Ok result_ |}.


Definition return_0 : MaterialisationWrapper.t :=
  {| MaterialisationWrapper.fn := λ _ _, Ok (PyInt 0);
     MaterialisationWrapper.fn_signature_bind := λ args kwargs,
       Ok {| arguments := PyDict []; args := args; kwargs := kwargs |} |}.


Definition eager_task : MaterialisingTask :=
  {| name := "out"; version := Some "1.0"%string; lazy := false;
     schema := Some 0%nat; cache_key := None |}.

(** The entry the wrapper finds for a cache key: [_nil] when there is none. *)
Definition memo_result
    (memo : gmap nat (gmap string MaterialisationWrapper.entry))
    (schema : nat) (cache_key : string) : MaterialisationWrapper.entry :=
  default MaterialisationWrapper._nil
    (default ∅ (memo !! schema) !! cache_key).

(** The memo once a call has put its [Condition] under its cache key. *)
Definition claimed
    (memo : gmap nat (gmap string MaterialisationWrapper.entry))
    (schema : nat) (cache_key : string)
  : gmap nat (gmap string MaterialisationWrapper.entry) :=
  <[schema:=<[cache_key:=MaterialisationWrapper.Condition]>
              (default ∅ (memo !! schema))]> memo.



(** A run in which two workers enter the initialisation of stage 0, the one
    that owns the transition fails, and a third worker arrives later. *)
Definition poisoning_schedule : list action :=
  [Accept (T_enter_init_stage 0 FirstCheck);
   Accept (T_enter_init_stage 0 FirstCheck);
   Step 0; Step 1; Step 1;
   Accept (T_exit_init_stage 0 false); Step 2;
   Step 1; Step 1;
   Accept (T_enter_init_stage 0 FirstCheck); Step 3; Step 3; Step 3].

(** ** LOCKING *)

Module LockState.
Inductive t :=
| LOCKED
| UNLOCKED
| INVALID
| UNCERTAIN.
End LockState.

(** How a call of [validate_stage_lock] ends, or that it is still polling. *)
Inductive validate_outcome :=
| Validated
| LockError (msg : string)
| StillUncertain
| ValidateRaise (e : exn).

(** The loop of [validate_stage_lock].  [polls] are the states the lock
    manager reports at the successive polls; the result comes with the info
    messages logged. *)
Fixpoint validate_loop
    (name : string) (did_log : bool) (polls : list LockState.t)
  : validate_outcome * list string :=
  match polls with
  | [] => (StillUncertain, [])
  | state :: polls' =>
      match state with
      | LockState.LOCKED => (Validated, [])
      | LockState.UNLOCKED =>
          (LockError ("Lock for stage '" ++ name ++ "' is unlocked."), [])
      | LockState.INVALID =>
          (LockError ("Lock for stage '" ++ name ++ "' is invalid."), [])
      | LockState.UNCERTAIN =>
          let '(o, infos) := validate_loop name true polls' in
          if did_log then (o, infos)
          else
            (o, ("Waiting for stage '" ++ name
                 ++ "' lock state to become known again...")%string :: infos)
      end
  end.

Definition validate_stage_lock
    (stage_id : nat) (polls : list LockState.t) (σ : RunContextServer)
  : validate_outcome * list string :=
  match lock_manager σ with
  | None => (ValidateRaise AssertionError, [])
  | Some _ =>
      match getitem (stages σ) stage_id with
      | Raise e => (ValidateRaise e, [])
      | Ok stage => validate_loop (stage_name stage) false polls
      end
  end.

(** The outcome for a state that is known. *)
Definition known_outcome (name : string) (state : LockState.t)
  : validate_outcome :=
  match state with
  | LockState.LOCKED => Validated
  | LockState.UNLOCKED =>
      LockError ("Lock for stage '" ++ name ++ "' is unlocked.")
  | LockState.INVALID =>
      LockError ("Lock for stage '" ++ name ++ "' is invalid.")
  | LockState.UNCERTAIN => StillUncertain
  end.

Definition waiting_message (name : string) : string :=
  "Waiting for stage '" ++ name ++ "' lock state to become known again...".

(** ** Contexts (context/context.py) *)

Module BaseContext.

(** A context object [self] and what its [__enter__] and [__exit__] touch:
    its enter counter, its token (a token remembers the value the context
    variable had before it was set), the context variable of its class, and
    the calls of [open] and [close] made so far. *)
Record t := {
  id : nat;
  _enter_counter : Z;
  _token : option (option nat);
  _context_var : option nat;
  opened : nat;
  closed : nat;
}.

Definition __enter__ (self : t) : t :=
  let counter := _enter_counter self + 1 in
  let opened' := if decide (counter = 1) then S (opened self) else opened self in
  match _token self with
  | Some _ =>
      {| id := id self; _enter_counter := counter; _token := _token self;
         _context_var := _context_var self;
         opened := opened'; closed := closed self |}
  | None =>
      (* token = self._context_var.set(self) *)
      {| id := id self; _enter_counter := counter;
         _token := Some (_context_var self);
         _context_var := Some (id self);
         opened := opened'; closed := closed self |}
  end.

Definition __exit__ (self : t) : t * result () :=
  let counter := _enter_counter self - 1 in
  if decide (counter = 0) then
    match _token self with
    | None =>
        ({| id := id self; _enter_counter := counter; _token := None;
            _context_var := _context_var self;
            opened := opened self; closed := closed self |},
         Raise RuntimeError)
    | Some old =>
        (* self._context_var.reset(self._token) *)
        ({| id := id self; _enter_counter := counter; _token := None;
            _context_var := old;
            opened := opened self; closed := S (closed self) |},
         Ok ())
    end
  else
    ({| id := id self; _enter_counter := counter; _token := _token self;
        _context_var := _context_var self;
        opened := opened self; closed := closed self |},
     Ok ()).

(** [cls.get()] *)
Definition get (self : t) : option nat := _context_var self.

Inductive call := Enter | Exit.

(** A sequence of [__enter__] and [__exit__] calls on one context, up to
    the first that raises. *)
Fixpoint calls (l : list call) (self : t) : t * result () :=
  match l with
  | [] => (self, Ok ())
  | Enter :: l' => calls l' (__enter__ self)
  | Exit :: l' =>
      match __exit__ self with
      | (self', Ok _) => calls l' self'
      | (self', Raise e) => (self', Raise e)
      end
  end.

(** A context that has not been entered. *)
Definition fresh (me : nat) (var : option nat) : t :=
  {| id := me; _enter_counter := 0; _token := None; _context_var := var;
     opened := 0; closed := 0 |}.

(** A context that counts at least one entry holds a token. *)
Definition entered_has_token (self : t) : Prop :=
  1 ≤ _enter_counter self → is_Some (_token self).

End BaseContext.

(** [MaterialisationWrapper.task_state_handler]: when the task has failed
    and its memo entry is still the [Condition] of the failed call, the
    waiting calls are notified and the entry is reset to [_nil]. *)
Definition task_state_handler
    (task : MaterialisingTask) (is_failed : bool)
    (memo : gmap nat (gmap string MaterialisationWrapper.entry))
  : gmap nat (gmap string MaterialisationWrapper.entry) * list event :=
  match cache_key task, schema task with
  | Some key, Some task_schema =>
      if is_failed then
        let '(d, memo) := MaterialisationWrapper.memo_getitem memo task_schema in
        match default MaterialisationWrapper._nil (d !! key) with
        | MaterialisationWrapper.Condition =>
            (<[task_schema:=<[key:=MaterialisationWrapper._nil]> d]> memo,
             [Call_notify_all])
        | _ => (memo, [])
        end
      else (memo, [])
  | _, _ => (memo, [])
  end.

(** ** The client proxy ([RunContext]) *)

(** What code on the client side can raise: the error of a failed request,
    which wraps the exception raised in the server; the StageError that
    [init_stage] and [commit_stage] raise from the exception of their
    block; any other exception raised on the client side. *)
Inductive client_exn :=
| RemoteProcessError (cause : exn)
| StageError_from (cause : client_exn)
| Plain (e : exn).

Inductive client_result (A : Type) :=
| Return (a : A)
| Throw (e : client_exn).
Arguments Return {A} a.
Arguments Throw {A} e.

(** Python's truth value of a response. *)
Definition truthy (v : pyval) : bool :=
  match v with
  | PyNone => false
  | PyBool b => b
  | PyInt z => negb (z =? 0)
  | PyStr s => negb (String.eqb s EmptyString)
  | PyList l | PyTuple l => negb (Nat.eqb (length l) 0)
  | PyDict l => negb (Nat.eqb (length l) 0)
  end.

(** [a, b = v]: unpacking a value into two names.  A list or a tuple
    gives its items, a dict its keys, a string its characters; anything but
    two of them is a ValueError, and a value that cannot be iterated a
    TypeError. *)
Definition unpack2 (v : pyval) : result (pyval * pyval) :=
  match v with
  | PyList l | PyTuple l =>
      match l with
      | [a; b] => Ok (a, b)
      | _ => Raise ValueError
      end
  | PyDict items =>
      match items with
      | [(a, _); (b, _)] => Ok (PyStr a, PyStr b)
      | _ => Raise ValueError
      end
  | PyStr s =>
      match s with
      | String a (String b EmptyString) =>
          Ok (PyStr (String a EmptyString), PyStr (String b EmptyString))
      | _ => Raise ValueError
      end
  | PyNone | PyBool _ | PyInt _ => Raise TypeError
  end.

Module RunContext.

(** [_request]: the request is served (here with no other request in
    between, in at most [fuel] atomic steps); an error of the server comes
    back wrapped in [RemoteProcessError].  [None]: the request has not
    returned, the server is still polling. *)
Definition _request (fuel : nat) (t : thread) (σ : RunContextServer)
  : RunContextServer * option (client_result pyval) :=
  match run_alone fuel t σ with
  | (σ', T_returned (Ok v)) => (σ', Some (Return v))
  | (σ', T_returned (Raise e)) => (σ', Some (Throw (RemoteProcessError e)))
  | (σ', _) => (σ', None)
  end.

(** The common shape of the context managers [init_stage] and
    [commit_stage].  [block] is the code inside the [with] statement: it is
    given the value yielded and the server, and its result is what the
    [with] statement leaves behind. *)
Definition stage_scope {A}
    (fuel : nat) (enter : thread) (exit : bool → thread)
    (block : bool → RunContextServer → RunContextServer * client_result A)
    (σ : RunContextServer)
  : RunContextServer * option (client_result A) :=
  match _request fuel enter σ with
  | (σ1, None) => (σ1, None)
  | (σ1, Some (Throw e)) => (σ1, Some (Throw e))
  | (σ1, Some (Return can_continue)) =>
      if negb (truthy can_continue) then
        (* yield False; return *)
        let '(σ2, r) := block false σ1 in (σ2, Some r)
      else
        match block true σ1 with
        | (σ2, Throw e) =>
            match _request fuel (exit false) σ2 with
            | (σ3, None) => (σ3, None)
            | (σ3, Some (Throw e')) => (σ3, Some (Throw e'))
            | (σ3, Some (Return _)) => (σ3, Some (Throw (StageError_from e)))
            end
        | (σ2, Return a) =>
            match _request fuel (exit true) σ2 with
            | (σ3, None) => (σ3, None)
            | (σ3, Some (Throw e')) => (σ3, Some (Throw e'))
            | (σ3, Some (Return _)) => (σ3, Some (Return a))
            end
        end
  end.

Definition init_stage {A} (fuel : nat) (stage : nat)
    (block : bool → RunContextServer → RunContextServer * client_result A) :=
  stage_scope fuel (T_enter_init_stage stage FirstCheck)
    (T_exit_init_stage stage) block.

Definition commit_stage {A} (fuel : nat) (stage : nat)
    (block : bool → RunContextServer → RunContextServer * client_result A) :=
  stage_scope fuel (T_enter_commit_stage stage FirstCheck)
    (T_exit_commit_stage stage) block.

(** The context manager [task_memo]: the answer of [enter_task_memo] is
    unpacked into [success, memo] and the block is given the pair. *)
Definition task_memo {A}
    (fuel : nat) (task_id : nat) (cache_keys : list (string * string))
    (block : pyval → RunContextServer → RunContextServer * client_result A)
    (σ : RunContextServer)
  : RunContextServer * option (client_result A) :=
  match _request fuel (T_enter_task_memo task_id cache_keys MemoLocked) σ with
  | (σ1, None) => (σ1, None)
  | (σ1, Some (Throw e)) => (σ1, Some (Throw e))
  | (σ1, Some (Return response)) =>
      match unpack2 response with
      | Raise e => (σ1, Some (Throw (Plain e)))
      | Ok (success, memo_) =>
          match block (PyTuple [success; memo_]) σ1 with
          | (σ2, Throw e) =>
              match _request fuel
                      (T_exit_task_memo task_id cache_keys false) σ2 with
              | (σ3, None) => (σ3, None)
              | (σ3, Some (Throw e')) => (σ3, Some (Throw e'))
              | (σ3, Some (Return _)) => (σ3, Some (Throw e))
              end
          | (σ2, Return a) =>
              match _request fuel
                      (T_exit_task_memo task_id cache_keys true) σ2 with
              | (σ3, None) => (σ3, None)
              | (σ3, Some (Throw e')) => (σ3, Some (Throw e'))
              | (σ3, Some (Return _)) => (σ3, Some (Return a))
              end
          end
      end
  end.

(** The client's [store_task_memo], as a block would call it. *)
Definition store_task_memo
    (fuel : nat) (task_id : nat) (cache_keys : list (string * string))
    (value : pyval) (σ : RunContextServer)
  : RunContextServer * option (client_result pyval) :=
  _request fuel (T_store_task_memo task_id cache_keys value) σ.

End RunContext.

(** A block that does not touch the stage states of the server. *)
Definition leaves_stages_alone {A}
    (block : bool → RunContextServer → RunContextServer * client_result A)
  : Prop :=
  ∀ c σ, stage_state (block c σ).1 = stage_state σ.

(** Blocks used in the examples: one that returns, one that raises, one
    that stores a result in the memo before it returns. *)
Definition block_returns : bool → RunContextServer → RunContextServer * client_result bool :=
  λ c σ, (σ, Return c).

Definition block_raises : bool → RunContextServer → RunContextServer * client_result bool :=
  λ c σ, (σ, Throw (Plain ValueError)).

Definition memo_block_stores (task_id : nat) (cache_keys : list (string * string))
    (value : pyval)
  : pyval → RunContextServer → RunContextServer * client_result pyval :=
  λ success_memo σ,
    match RunContext.store_task_memo 1 task_id cache_keys value σ with
    | (σ', Some (Throw e)) => (σ', Throw e)
    | (σ', _) => (σ', Return success_memo)
    end.

Definition memo_block_returns
  : pyval → RunContextServer → RunContextServer * client_result pyval :=
  λ success_memo σ, (σ, Return success_memo).

Definition memo_block_raises
  : pyval → RunContextServer → RunContextServer * client_result pyval :=
  λ success_memo σ, (σ, Throw (Plain ValueError)).

(** * Theorems *)

(** The requests that leave a part of the state alone are handled alike:
    unfold the operation, split on its tests, and close the cases. *)
Ltac unfold_request :=
  unfold get_stage_ref_count, get_stage_state,
    enter_init_stage, exit_init_stage, enter_commit_stage, exit_commit_stage,
    _enter_stage_state_transition, _exit_stage_state_transition,
    did_finish_task, enter_task_memo, exit_task_memo, store_task_memo,
    add_names, remove_names, resume, finish in *.

Ltac frame_cases tac :=
  unfold_request; repeat case_match; simplify_eq/=; tac.

(** ** Stage lifecycle *)

Section lifecycle.
Import StageState.

Lemma lifecycle_from a :
  a ≠ FAILED → drop (rank a) lifecycle = a :: drop (S (rank a)) lifecycle.
Proof. by destruct a. Qed.

Lemma edge_rank a b :
  edge a b → b = FAILED ∨ (a ≠ FAILED ∧ b ≠ FAILED ∧ rank b = S (rank a)).
Proof. destruct 1; auto. Qed.

Lemma follows_FAILED l s : follows FAILED l → s ∈ l → s = FAILED.
Proof.
  remember FAILED as a eqn:Ha. intros Hf. revert Ha.
  induction Hf as [a|a l Hf IH|a b l He Hf IH]; intros -> Hin.
  - by apply elem_of_nil in Hin.
  - apply elem_of_cons in Hin as [->|Hin]; auto.
  - inversion He; subst. apply elem_of_cons in Hin as [->|Hin]; auto.
Qed.

Lemma follows_changes a l :
  follows a l →
  ∃ k failed,
    (a ≠ FAILED → (1 ≤ k)%nat) ∧
    (a = FAILED → k = 0%nat ∧ failed = true) ∧
    changes (a :: l) =
      take k (drop (rank a) lifecycle) ++ (if failed then [FAILED] else []).
Proof.
  induction 1 as [a|a l Hf IH|a b l He Hf IH].
  - destruct (decide (a = FAILED)) as [->|Hne].
    + exists 0%nat, true. by split_and!.
    + exists 1%nat, false. split_and!; [done .. |].
      rewrite lifecycle_from by done. by rewrite app_nil_r.
  - destruct IH as (k & f & H1 & H2 & Heq). exists k, f.
    split_and!; [done .. |].
    change (changes (a :: a :: l)) with
      (if decide (a = a) then changes (a :: l) else a :: changes (a :: l)).
    by rewrite decide_True.
  - destruct IH as (k & f & H1 & H2 & Heq).
    destruct (decide (a = b)) as [->|Hab].
    { exists k, f. split_and!; [done .. |].
      change (changes (b :: b :: l)) with
        (if decide (b = b) then changes (b :: l) else b :: changes (b :: l)).
      by rewrite decide_True. }
    change (changes (a :: b :: l)) with
      (if decide (a = b) then changes (b :: l) else a :: changes (b :: l)).
    rewrite decide_False by done. rewrite Heq.
    destruct (edge_rank _ _ He) as [->|(Ha & Hb & Hr)].
    + destruct (H2 eq_refl) as [-> ->]. exists 1%nat, true.
      split_and!; [done | done |].
      rewrite (lifecycle_from a) by done. done.
    + exists (S k), f. split; [intros; lia|]. split; [done|].
      rewrite (lifecycle_from a) by done. rewrite Hr. done.
Qed.
End lifecycle.

(** ** Every step moves each stage along the lifecycle *)

Section stage_steps.
Import StageState.

Lemma moves_refl l : moves l l.
Proof. intros i a Hi. eauto. Qed.

Lemma moves_insert l j a b :
  l !! j = Some a → edge a b → moves l (<[j:=b]> l).
Proof.
  intros Hj He i c Hi. destruct (decide (i = j)) as [->|Hne].
  - exists b. rewrite list_lookup_insert_eq by eauto using lookup_lt_Some.
    split; [done|]. right. congruence.
  - exists c. rewrite list_lookup_insert_ne by done. auto.
Qed.

Lemma getitem_Ok {A} (l : list A) i x : getitem l i = Ok x ↔ l !! i = Some x.
Proof. unfold getitem. destruct (l !! i); split; congruence. Qed.

Lemma enter_moves i from_ transition to pc σ :
  edge from_ transition →
  moves (stage_state σ)
    (stage_state (_enter_stage_state_transition i from_ transition to pc σ).1).
Proof.
  intros He. unfold _enter_stage_state_transition.
  destruct pc; destruct (getitem (stage_state σ) i) as [s|e] eqn:Hg;
    simpl; try apply moves_refl;
    repeat case_decide; simpl; try apply moves_refl;
    try (destruct (getitem (stages σ) i); apply moves_refl).
  subst. apply getitem_Ok in Hg. eapply moves_insert; eauto.
Qed.

Lemma exit_moves i success transition to σ :
  edge transition to →
  moves (stage_state σ)
    (stage_state (_exit_stage_state_transition i success transition to σ).1).
Proof.
  intros He. unfold _exit_stage_state_transition, setitem.
  destruct success; simpl.
  - destruct (getitem (stage_state σ) i) as [s|e] eqn:Hg;
      simpl; try apply moves_refl.
    case_decide; simpl; try apply moves_refl.
    subst. apply getitem_Ok in Hg. eapply moves_insert; eauto.
  - case_decide as Hlt; simpl; try apply moves_refl.
    apply lookup_lt_is_Some_2 in Hlt as [a Ha].
    eapply moves_insert; eauto using edge.
Qed.

Lemma thread_step_moves t σ σ' t' :
  thread_step t σ = Some (σ', t') →
  moves (stage_state σ) (stage_state σ').
Proof.
  destruct t; simpl; intros Hs; simplify_eq.
  - frame_cases ltac:(apply moves_refl).
  - frame_cases ltac:(apply moves_refl).
  - pose proof (enter_moves stage_id0 UNINITIALIZED INITIALIZING READY pc σ edge_init) as Hm.
    unfold enter_init_stage, resume in *.
    destruct (_enter_stage_state_transition _ _ _ _ _ _) as [σ1 [pc'|r]]; by simplify_eq/=.
  - pose proof (exit_moves stage_id0 success INITIALIZING READY σ edge_ready) as Hm.
    unfold exit_init_stage, finish in *. by simplify_eq/=.
  - pose proof (enter_moves stage_id0 READY COMMITTING COMMITTED pc σ edge_committing) as Hm.
    unfold enter_commit_stage, resume in *.
    destruct (_enter_stage_state_transition _ _ _ _ _ _) as [σ1 [pc'|r]]; by simplify_eq/=.
  - pose proof (exit_moves stage_id0 success COMMITTING COMMITTED σ edge_committed) as Hm.
    unfold exit_commit_stage, finish in *. by simplify_eq/=.
  - frame_cases ltac:(apply moves_refl).
  - frame_cases ltac:(apply moves_refl).
  - frame_cases ltac:(apply moves_refl).
  - frame_cases ltac:(apply moves_refl).
  - frame_cases ltac:(apply moves_refl).
  - frame_cases ltac:(apply moves_refl).
Qed.
End stage_steps.

Section stage_runs.
Import StageState.

Lemma step_moves s s' :
  step s s' → moves (stage_state (server s)) (stage_state (server s')).
Proof.
  destruct 1 as [σ ts t Ht|σ ts i t σ' t' Hi Hs]; simpl.
  - apply moves_refl.
  - eauto using thread_step_moves.
Qed.

Lemma run_follows i s tr a :
  run s tr →
  stage_state (server s) !! i = Some a →
  follows a (states_of i tr) ∧ length (states_of i tr) = length tr.
Proof.
  intros Hr. revert a. induction Hr as [s|s s' tr Hs Hr IH]; intros a Ha.
  - split; [constructor | done].
  - destruct (step_moves _ _ Hs i a Ha) as (b & Hb & Hab).
    destruct (IH b Hb) as [Hf Hl].
    unfold states_of in *. simpl. rewrite Hb. simpl. split; [|by f_equal].
    destruct Hab as [->|He]; [by apply follows_stay | by eapply follows_edge].
Qed.

Lemma follows_drop a l n b :
  follows a l → l !! n = Some b → follows b (drop (S n) l).
Proof.
  intros Hf. revert n. induction Hf as [a|a l Hf IH|a c l He Hf IH];
    intros [|n] Hn; simplify_eq/=; eauto.
Qed.

Lemma follows_after_FAILED a l n m s :
  follows a (drop 1 l) → l !! 0%nat = Some a →
  (n ≤ m)%nat → l !! n = Some FAILED → l !! m = Some s → s = FAILED.
Proof.
  intros Hf H0 Hnm Hn Hm.
  destruct (decide (n = m)) as [->|Hne]; [congruence|].
  assert (follows FAILED (drop (S n) l)) as Hf'.
  { destruct n as [|n]; [by simplify_eq|].
    destruct l as [|x l]; [done|]. simpl in *. rewrite drop_0 in Hf.
    eapply follows_drop; eauto. }
  eapply follows_FAILED; [exact Hf'|].
  apply list_elem_of_lookup. exists (m - S n)%nat.
  rewrite lookup_drop. replace (S n + (m - S n))%nat with m by lia. done.
Qed.
End stage_runs.

(** C1: starting from UNINITIALIZED, under any interleaving of requests the
    states a stage takes, repetitions dropped, are a non-empty prefix of
    UNINITIALIZED, INITIALIZING, READY, COMMITTING, COMMITTED, followed by
    FAILED at most once and only at the end; and from a point where the stage
    is FAILED it is FAILED at every later point of the run. *)
Theorem stage_lifecycle_is_prefix (s0 : system) (i : nat) (tr : list system) :
  stage_state (server s0) !! i = Some StageState.UNINITIALIZED →
  run s0 tr →
  length (states_of i (s0 :: tr)) = S (length tr) ∧
  (∃ (k : nat) (failed : bool), (1 ≤ k ≤ 5)%nat ∧
     changes (states_of i (s0 :: tr)) =
       take k lifecycle ++ (if failed then [StageState.FAILED] else [])) ∧
  (∀ (n m : nat) s, (n ≤ m)%nat →
     states_of i (s0 :: tr) !! n = Some StageState.FAILED →
     states_of i (s0 :: tr) !! m = Some s → s = StageState.FAILED).
Proof.
  intros H0 Hr. destruct (run_follows i s0 tr _ Hr H0) as [Hf Hl].
  assert (states_of i (s0 :: tr) = StageState.UNINITIALIZED :: states_of i tr)
    as ->.
  { unfold states_of. simpl. by rewrite H0. }
  split_and!.
  - simpl. by rewrite Hl.
  - destruct (follows_changes _ _ Hf) as (k & f & H1 & _ & Heq).
    exists (k `min` 5)%nat, f. split; [specialize (H1 ltac:(done)); lia|].
    rewrite Heq. simpl rank. rewrite drop_0.
    f_equal. destruct (decide (k ≤ 5)%nat).
    + by rewrite Nat.min_l.
    + rewrite Nat.min_r by lia. rewrite !take_ge; simpl; [done | lia..].
  - intros n m s Hnm Hn Hm.
    eapply (follows_after_FAILED _ (StageState.UNINITIALIZED :: states_of i tr));
      eauto.
Qed.

Example entered_server_ref_count : ref_count entered_server = [2; 0].
Proof. reflexivity. Qed.

Example entered_server_tasks : tasks entered_server = [task_0; task_1; task_2].
Proof. reflexivity. Qed.

Lemma stage_lifecycle_is_prefix_witness :
  stage_state (server run_0) !! 0%nat = Some StageState.UNINITIALIZED ∧
  run run_0 [run_1; run_2] ∧
  length (states_of 0 [run_0; run_1; run_2]) = 3%nat ∧
  (∃ (k : nat) (failed : bool), (1 ≤ k ≤ 5)%nat ∧
     changes (states_of 0 [run_0; run_1; run_2]) =
       take k lifecycle ++ (if failed then [StageState.FAILED] else [])) ∧
  (∀ (n m : nat) s, (n ≤ m)%nat →
     states_of 0 [run_0; run_1; run_2] !! n = Some StageState.FAILED →
     states_of 0 [run_0; run_1; run_2] !! m = Some s → s = StageState.FAILED).
Proof.
  assert (run run_0 [run_1; run_2]) as Hrun.
  { apply run_cons.
    - apply (step_accept entered_server [] (T_enter_init_stage 0 FirstCheck)).
      reflexivity.
    - apply run_cons; [|apply run_nil].
      apply (step_thread entered_server [T_enter_init_stage 0 FirstCheck]
               0 (T_enter_init_stage 0 FirstCheck)); reflexivity. }
  split; [reflexivity|]. split; [exact Hrun|].
  apply (stage_lifecycle_is_prefix run_0 0 [run_1; run_2]);
    [reflexivity | exact Hrun].
Defined.

(** ** Entering and leaving a transition *)

Example failed_transition_poisons_stage :
  (λ s, (stage_state (server s), threads s)) <$>
    last (play poisoning_schedule run_0) =
  Some ([StageState.FAILED; StageState.UNINITIALIZED],
        [T_returned (Ok (PyBool true)); T_returned (Raise StageError);
         T_returned (Ok PyNone); T_returned (Raise StageError)]).
Proof. reflexivity. Qed.

(** What each atomic block of the two [enter_*] operations does, with [s]
    the state of the stage when the block runs: the call returns true
    exactly when its first block finds the from-state, and the stage is then
    set to the transitional state; it returns false exactly when its first
    or its second block finds the target state; it raises StageError exactly
    when its second block finds FAILED; it returns None exactly when its
    second block finds any other state; and it waits while the stage is in
    the transitional state.  Only the true outcome changes the server. *)
Lemma enter_stage_blocks
    (enter : nat → enter_pc → RunContextServer →
             RunContextServer * (enter_pc + result pyval))
    (from_ transition to : StageState.t)
    (i : nat) (pc : enter_pc) (σ σ' : RunContextServer) (s : StageState.t)
    (x : enter_pc + result pyval) :
  (enter = enter_init_stage ∧ from_ = StageState.UNINITIALIZED ∧
     transition = StageState.INITIALIZING ∧ to = StageState.READY) ∨
  (enter = enter_commit_stage ∧ from_ = StageState.READY ∧
     transition = StageState.COMMITTING ∧ to = StageState.COMMITTED) →
  stage_state σ !! i = Some s →
  is_Some (stages σ !! i) →
  enter i pc σ = (σ', x) →
  (x = inr (Ok (PyBool true)) ↔ pc = FirstCheck ∧ s = from_) ∧
  (x = inr (Ok (PyBool true)) →
     σ' = with_stage_state σ (<[i:=transition]> (stage_state σ)) ∧
     stage_state σ' !! i = Some transition) ∧
  (x = inr (Ok (PyBool false)) ↔ pc ≠ WaitLoop ∧ s = to) ∧
  (x = inr (Raise StageError) ↔ pc = SecondCheck ∧ s = StageState.FAILED) ∧
  (x = inr (Ok PyNone) ↔
     pc = SecondCheck ∧ s ≠ to ∧ s ≠ StageState.FAILED) ∧
  (x = inl WaitLoop ↔
     (pc = FirstCheck ∧ s ≠ from_ ∧ s ≠ to) ∨ (pc = WaitLoop ∧ s = transition)) ∧
  (x = inl SecondCheck ↔ pc = WaitLoop ∧ s ≠ transition) ∧
  (x ≠ inr (Ok (PyBool true)) → σ' = σ).
Proof.
  intros Hop Hs [st Hst] Hstep.
  assert (i < length (stage_state σ))%nat as Hlt by eauto using lookup_lt_Some.
  assert (enter i pc σ =
          _enter_stage_state_transition i from_ transition to pc σ) as Heq.
  { by destruct Hop as [(-> & -> & -> & ->)|(-> & -> & -> & ->)]. }
  rewrite Heq in Hstep. clear Heq.
  assert (from_ ≠ to ∧ to ≠ StageState.FAILED) as [Hft HtF].
  { by destruct Hop as [(_ & -> & _ & ->)|(_ & -> & _ & ->)]. }
  unfold _enter_stage_state_transition, getitem in Hstep.
  rewrite Hs, ?Hst in Hstep.
  destruct pc; repeat case_decide; simplify_eq/=;
    rewrite ?list_lookup_insert_eq by done;
    split_and!; try split; intros; destruct_and?; try done;
    try (destruct_or?; destruct_and?; done);
    try (left; done); try (right; done).
Qed.

Example enter_init_stage_owns_transition :
  enter_init_stage 0 FirstCheck entered_server =
    (with_stage_state entered_server
       [StageState.INITIALIZING; StageState.UNINITIALIZED],
     inr (Ok (PyBool true))).
Proof. reflexivity. Qed.

(** C2: the two [enter_*] operations are to return a boolean or raise
    StageError.  Evaluated on a stage that is still UNINITIALIZED,
    [enter_commit_stage] finds neither READY nor COMMITTING at its first
    block, does not wait, finds neither COMMITTED nor FAILED at its second
    block and returns None: not a boolean, and no StageError is raised. *)
Theorem enter_commit_stage_returns_None :
  stage_state entered_server !! 0%nat = Some StageState.UNINITIALIZED ∧
  run_alone 3 (T_enter_commit_stage 0 FirstCheck) entered_server =
    (entered_server, T_returned (Ok PyNone)) ∧
  ¬ (∀ (i : nat) (σ σ' : RunContextServer) (r : result pyval),
       is_Some (stage_state σ !! i) →
       run_alone 3 (T_enter_commit_stage i FirstCheck) σ = (σ', T_returned r) →
       (∃ b, r = Ok (PyBool b)) ∨ r = Raise StageError).
Proof.
  split; [reflexivity|]. split; [reflexivity|].
  intros H.
  destruct (H 0%nat entered_server entered_server (Ok PyNone))
    as [[b Hb]|Hr]; [by eexists | reflexivity | discriminate Hb | discriminate Hr].
Qed.

(** C7 (amended): for either [exit_*] operation, with [s] the state of the
    stage when the call runs: with success=true the call moves the stage to
    the target state when [s] is the matching transitional state and raises
    RuntimeError, changing nothing, when it is not; with success=false the
    call sets the stage to FAILED whatever [s] is, and does not raise. *)
Theorem exit_stage_outcome
    (exit : nat → bool → RunContextServer → RunContextServer * result pyval)
    (transition to : StageState.t)
    (i : nat) (success : bool) (σ : RunContextServer) (s : StageState.t) :
  (exit = exit_init_stage ∧
     transition = StageState.INITIALIZING ∧ to = StageState.READY) ∨
  (exit = exit_commit_stage ∧
     transition = StageState.COMMITTING ∧ to = StageState.COMMITTED) →
  stage_state σ !! i = Some s →
  (success = true → s = transition →
     exit i success σ =
       (with_stage_state σ (<[i:=to]> (stage_state σ)), Ok PyNone)) ∧
  (success = true → s ≠ transition →
     exit i success σ = (σ, Raise RuntimeError)) ∧
  (success = false →
     exit i success σ =
       (with_stage_state σ (<[i:=StageState.FAILED]> (stage_state σ)),
        Ok PyNone)) ∧
  stage_state (exit i success σ).1 !! i =
    Some (if success then (if decide (s = transition) then to else s)
          else StageState.FAILED).
Proof.
  intros Hop Hs.
  assert (i < length (stage_state σ))%nat as Hlt by eauto using lookup_lt_Some.
  assert (exit i success σ =
          _exit_stage_state_transition i success transition to σ) as ->.
  { by destruct Hop as [(-> & -> & ->)|(-> & -> & ->)]. }
  unfold _exit_stage_state_transition, setitem, getitem. rewrite Hs.
  destruct success; simpl; repeat case_decide; simpl;
    rewrite ?list_lookup_insert_eq by done; split_and!; try done; lia.
Qed.

Lemma exit_stage_outcome_witness :
  stage_state entered_server !! 0%nat = Some StageState.UNINITIALIZED ∧
  (true = true → StageState.UNINITIALIZED ≠ StageState.INITIALIZING →
     exit_init_stage 0 true entered_server =
       (entered_server, Raise RuntimeError)).
Proof.
  split; [reflexivity|].
  apply (exit_stage_outcome exit_init_stage
           StageState.INITIALIZING StageState.READY
           0 true entered_server StageState.UNINITIALIZED);
    [left; repeat split | reflexivity].
Defined.

(** C7, as stated, fails for success=false: [exit_init_stage(0, False)] on a
    stage that is UNINITIALIZED, hence not INITIALIZING, raises nothing and
    sets the stage to FAILED. *)
Lemma exit_init_stage_failure_does_not_raise :
  stage_state entered_server !! 0%nat = Some StageState.UNINITIALIZED ∧
  (exit_init_stage 0 false entered_server).2 = Ok PyNone ∧
  stage_state (exit_init_stage 0 false entered_server).1 !! 0%nat =
    Some StageState.FAILED ∧
  ¬ (∀ (i : nat) (success : bool) (σ : RunContextServer) (s : StageState.t),
       stage_state σ !! i = Some s → s ≠ StageState.INITIALIZING →
       (exit_init_stage i success σ).2 = Raise RuntimeError).
Proof.
  split_and!; [reflexivity..|].
  intros H.
  specialize (H 0%nat false entered_server StageState.UNINITIALIZED
                eq_refl ltac:(discriminate)).
  discriminate H.
Qed.

(** ** The memo table *)

Section memo.
Implicit Types (m : gmap (nat * string) memo) (k : nat * string).

Lemma task_memo_getitem_fst m k : (task_memo_getitem m k).1 = entry m k.
Proof. unfold task_memo_getitem, entry. by destruct (m !! k). Qed.

Lemma task_memo_getitem_snd m k k' :
  entry (task_memo_getitem m k).2 k' = entry m k'.
Proof.
  unfold task_memo_getitem, entry. destruct (m !! k) eqn:Hk; [done|]. simpl.
  destruct (decide (k = k')) as [->|Hne].
  - by rewrite lookup_insert_eq, Hk.
  - by rewrite lookup_insert_ne.
Qed.

Lemma entry_insert m k k' e :
  entry (<[k:=e]> m) k' = if decide (k = k') then e else entry m k'.
Proof.
  unfold entry. case_decide as Hk.
  - subst. by rewrite lookup_insert_eq.
  - by rewrite lookup_insert_ne.
Qed.

Lemma memo_le_refl e : memo_le e e.
Proof. by left. Qed.

Lemma memo_le_trans a b c : memo_le a b → memo_le b c → memo_le a c.
Proof. intros [->|H1] [->|H2]; unfold memo_le; auto. right. lia. Qed.

Lemma memo_le_FAILED e : memo_le e (Sentinel MemoState.FAILED).
Proof.
  destruct e as [[]|v]; unfold memo_le; simpl; auto; right; lia.
Qed.

(** What each memo operation does to the entries. *)
Lemma enter_task_memo_entries tid ks pc σ k' :
  memo_le (entry (task_memo σ) k')
          (entry (task_memo (enter_task_memo tid ks pc σ).1) k').
Proof.
  unfold enter_task_memo. destruct pc as [|k0 e0].
  - destruct (getitem (tasks σ) tid) as [task|e]; [|apply memo_le_refl].
    pose proof (task_memo_getitem_fst (task_memo σ) (get_memo_key task ks)) as H1.
    pose proof (task_memo_getitem_snd (task_memo σ) (get_memo_key task ks) k') as H2.
    destruct (task_memo_getitem _ _) as [e m]. simpl in *.
    destruct e as [[]|v]; simpl; rewrite ?entry_insert, ?H2;
      try apply memo_le_refl.
    case_decide; [|apply memo_le_refl]. subst. rewrite <- H1.
    right. simpl. lia.
  - destruct e0 as [[]|v]; simpl; try apply memo_le_refl.
    pose proof (task_memo_getitem_snd (task_memo σ) k0 k') as H2.
    destruct (task_memo_getitem _ _) as [e m]. simpl in *.
    rewrite H2. apply memo_le_refl.
Qed.

Lemma exit_task_memo_entries tid ks b σ k' :
  memo_le (entry (task_memo σ) k')
          (entry (task_memo (exit_task_memo tid ks b σ).1) k').
Proof.
  unfold exit_task_memo.
  destruct (getitem (tasks σ) tid) as [task|e]; [|apply memo_le_refl].
  destruct b; simpl.
  - pose proof (task_memo_getitem_snd (task_memo σ) (get_memo_key task ks) k') as H2.
    destruct (task_memo_getitem _ _) as [e m]. simpl in *.
    destruct (is_MemoState e); simpl; rewrite H2; apply memo_le_refl.
  - rewrite entry_insert. case_decide; [apply memo_le_FAILED | apply memo_le_refl].
Qed.

Lemma store_task_memo_entries tid ks v σ k' :
  memo_le (entry (task_memo σ) k')
          (entry (task_memo (store_task_memo tid ks v σ).1) k').
Proof.
  unfold store_task_memo.
  destruct (getitem (tasks σ) tid) as [task|e]; [|apply memo_le_refl].
  pose proof (task_memo_getitem_fst (task_memo σ) (get_memo_key task ks)) as H1.
  pose proof (task_memo_getitem_snd (task_memo σ) (get_memo_key task ks) k') as H2.
  destruct (task_memo_getitem _ _) as [e m]. simpl in *.
  destruct e as [[]|v']; simpl; rewrite ?entry_insert, ?H2;
    try apply memo_le_refl.
  case_decide; [|apply memo_le_refl]. subst. rewrite <- H1.
  right. simpl. lia.
Qed.

Lemma thread_step_memo_le t σ σ' t' k :
  thread_step t σ = Some (σ', t') →
  memo_le (entry (task_memo σ) k) (entry (task_memo σ') k).
Proof.
  destruct t; simpl; intros Hs; simplify_eq.
  - frame_cases ltac:(apply memo_le_refl).
  - frame_cases ltac:(apply memo_le_refl).
  - frame_cases ltac:(apply memo_le_refl).
  - frame_cases ltac:(apply memo_le_refl).
  - frame_cases ltac:(apply memo_le_refl).
  - frame_cases ltac:(apply memo_le_refl).
  - frame_cases ltac:(apply memo_le_refl).
  - pose proof (enter_task_memo_entries task_id0 cache_keys pc σ k) as H.
    unfold resume in *.
    destruct (enter_task_memo _ _ _ _) as [σ1 [pc'|r]]; by simplify_eq/=.
  - pose proof (exit_task_memo_entries task_id0 cache_keys success σ k) as H.
    unfold finish in *. by simplify_eq/=.
  - pose proof (store_task_memo_entries task_id0 cache_keys value σ k) as H.
    unfold finish in *. by simplify_eq/=.
  - frame_cases ltac:(apply memo_le_refl).
  - frame_cases ltac:(apply memo_le_refl).
Qed.

Lemma step_memo_le s s' k :
  step s s' →
  memo_le (entry (task_memo (server s)) k) (entry (task_memo (server s')) k).
Proof.
  destruct 1; simpl; eauto using thread_step_memo_le, memo_le_refl.
Qed.

Lemma run_memo_le s tr k (n m : nat) a b :
  run s tr → (n ≤ m)%nat →
  entry_at k (s :: tr) n = Some a → entry_at k (s :: tr) m = Some b →
  memo_le a b.
Proof.
  unfold entry_at. intros Hr. revert n m a.
  induction Hr as [s|s s' tr Hs Hr IH]; intros n m a Hnm Hn Hm.
  - destruct n, m; simplify_eq/=; try apply memo_le_refl; lia.
  - destruct n as [|n].
    + destruct m as [|m]; simplify_eq/=; [apply memo_le_refl|].
      eapply memo_le_trans; [by apply step_memo_le|].
      eapply (IH 0%nat m); [lia | done | done].
    + destruct m as [|m]; [lia|]. simpl in *.
      eapply (IH n m); [lia | done | done].
Qed.
End memo.

Lemma act_step a s s' : act a s = Some s' → step s s'.
Proof.
  destruct s as [σ ts]. destruct a as [t|i]; simpl.
  - destruct (arriving t) eqn:Ht; [|done]. intros [= <-]. by constructor.
  - destruct (ts !! i) as [t|] eqn:Hi; [|done].
    destruct (thread_step t σ) as [[σ' t']|] eqn:Hs; [|done].
    intros [= <-]. by econstructor.
Qed.

Lemma play_run sched s : run s (play sched s).
Proof.
  revert s. induction sched as [|a sched IH]; intros s; simpl; [constructor|].
  destruct (act a s) as [s'|] eqn:Ha; [|constructor].
  apply run_cons; [by eapply act_step | apply IH].
Qed.

Example memo_schedule_threads :
  threads <$> last (play memo_schedule run_0) =
    Some [T_returned (Ok (PyTuple [PyBool false; PyNone]));
          T_returned (Ok (PyTuple [PyBool true; PyInt 7]));
          T_returned (Ok PyNone)].
Proof. reflexivity. Qed.






(** C10: [exit_task_memo] with success=true raises whenever the entry for
    the key is still a [MemoState] sentinel (WAITING in particular, or NONE
    or FAILED), leaving every entry as it was, and returns normally, again
    changing no entry, when a value has been stored; with success=false it
    overwrites the entry with FAILED whatever it held, and does not raise. *)
Theorem exit_task_memo_outcome
    (tid : nat) (ks : list (string * string)) (σ : RunContextServer)
    (task : Task) :
  tasks σ !! tid = Some task →
  let k := get_memo_key task ks in
  (is_MemoState (entry (task_memo σ) k) = true →
     (exit_task_memo tid ks true σ).2 =
       Raise (Exception_ "set_task_memo not called") ∧
     ∀ k', entry (task_memo (exit_task_memo tid ks true σ).1) k' =
           entry (task_memo σ) k') ∧
  (is_MemoState (entry (task_memo σ) k) = false →
     (exit_task_memo tid ks true σ).2 = Ok PyNone ∧
     ∀ k', entry (task_memo (exit_task_memo tid ks true σ).1) k' =
           entry (task_memo σ) k') ∧
  exit_task_memo tid ks false σ =
    (with_task_memo σ (<[k:=Sentinel MemoState.FAILED]> (task_memo σ)),
     Ok PyNone) ∧
  entry (task_memo (exit_task_memo tid ks false σ).1) k =
    Sentinel MemoState.FAILED.
Proof.
  intros Ht k. unfold exit_task_memo, getitem. rewrite Ht. simpl.
  pose proof (task_memo_getitem_fst (task_memo σ) (get_memo_key task ks)) as H1.
  pose proof (task_memo_getitem_snd (task_memo σ) (get_memo_key task ks)) as H2.
  destruct (task_memo_getitem _ _) as [e m]. simpl in *. subst e. fold k.
  split_and!.
  - intros ->. done.
  - intros ->. done.
  - done.
  - rewrite entry_insert. by rewrite decide_True.
Qed.

Lemma exit_task_memo_outcome_witness :
  let σ := (store_task_memo 1 [("k", "a")]%string (PyInt 7)
              (enter_task_memo 1 [("k", "a")]%string MemoLocked
                 entered_server).1).1 in
  tasks σ !! 1%nat = Some task_1 ∧
  exit_task_memo 1 [("k", "a")]%string false σ =
    (with_task_memo σ
       (<[get_memo_key task_1 [("k", "a")]%string:=Sentinel MemoState.FAILED]>
          (task_memo σ)),
     Ok PyNone).
Proof.
  intros σ. split; [reflexivity|].
  apply (exit_task_memo_outcome 1 [("k", "a")]%string σ task_1). reflexivity.
Defined.

Example exit_task_memo_still_waiting :
  let σ := (enter_task_memo 1 [("k", "a")]%string MemoLocked entered_server).1 in
  entry (task_memo σ) (1%nat, "a"%string) = Sentinel MemoState.WAITING ∧
  (exit_task_memo 1 [("k", "a")]%string true σ).2 =
    Raise (Exception_ "set_task_memo not called") ∧
  entry (task_memo (exit_task_memo 1 [("k", "a")]%string true σ).1)
    (1%nat, "a"%string) = Sentinel MemoState.WAITING.
Proof. by split_and!. Qed.

(** ** Artifact names *)

Section names.
Implicit Types (names : list (gset string)) (present : gset string).

Lemma collect_duplicates_Ok names i present l :
  names !! i = Some present →
  collect_duplicates names i l = Ok (filter (λ x, x ∈ present) l).
Proof.
  intros Hi. induction l as [|x l IH]; simpl; [done|].
  unfold getitem. rewrite Hi. simpl. rewrite IH. simpl.
  rewrite filter_cons. by case_decide.
Qed.

Lemma add_each_Ok names i present l :
  names !! i = Some present →
  add_each names i l = Ok (<[i:=present ∪ list_to_set l]> names).
Proof.
  revert names present. induction l as [|x l IH]; intros names present Hi; simpl.
  - rewrite union_empty_r_L. by rewrite list_insert_id.
  - unfold getitem. rewrite Hi. simpl.
    assert (i < length names)%nat as Hlt by eauto using lookup_lt_Some.
    rewrite (IH _ (present ∪ {[x]})) by (by rewrite list_lookup_insert_eq).
    rewrite list_insert_insert_eq. simpl. by rewrite (assoc_L (∪)).
Qed.

Lemma filter_nil_iff (P : string → Prop) `{∀ x, Decision (P x)} (l : list string) :
  filter P l = [] ↔ ∀ x, x ∈ l → ¬ P x.
Proof.
  split.
  - intros Hf x Hx HP.
    assert (x ∈ filter P l) as Hin by (by apply list_elem_of_filter).
    rewrite Hf in Hin. by apply elem_of_nil in Hin.
  - intros Hall. induction l as [|x l IH]; [done|].
    rewrite filter_cons. rewrite decide_False.
    + apply IH. intros y Hy. apply Hall. by right.
    + apply Hall. by left.
Qed.
End names.

(** C4: [add_names] on a stage whose name sets are [T] (tables) and [B]
    (blobs).  If a supplied table name is already in [T] or a supplied blob
    name already in [B], the call answers success=false with exactly the
    supplied names that are already present, in order, and changes nothing;
    otherwise it answers success=true, none of the supplied names was
    present before, all of them are present afterwards, and nothing else is
    added nor any other stage touched. *)
Theorem add_names_all_or_nothing
    (i : nat) (tables blobs : list string) (σ : RunContextServer)
    (T B : gset string) :
  table_names σ !! i = Some T →
  blob_names σ !! i = Some B →
  let duplicate := ∃ x, (x ∈ tables ∧ x ∈ T) ∨ (x ∈ blobs ∧ x ∈ B) in
  (duplicate →
     add_names i tables blobs σ =
       (σ, Ok (PyDict
          [("success"%string, PyBool false);
           ("table_duplicates"%string,
              PyList (PyStr <$> filter (λ x, x ∈ T) tables));
           ("blob_duplicates"%string,
              PyList (PyStr <$> filter (λ x, x ∈ B) blobs))]))) ∧
  (¬ duplicate →
     ∃ σ', add_names i tables blobs σ =
             (σ', Ok (PyDict [("success"%string, PyBool true)])) ∧
           table_names σ' = <[i:=T ∪ list_to_set tables]> (table_names σ) ∧
           blob_names σ' = <[i:=B ∪ list_to_set blobs]> (blob_names σ) ∧
           (∀ x, x ∈ tables →
              (x ∉ T) ∧ ∃ T', table_names σ' !! i = Some T' ∧ x ∈ T') ∧
           (∀ x, x ∈ blobs →
              (x ∉ B) ∧ ∃ B', blob_names σ' !! i = Some B' ∧ x ∈ B')).
Proof.
  intros HT HB duplicate.
  assert (i < length (table_names σ))%nat as HltT by eauto using lookup_lt_Some.
  assert (i < length (blob_names σ))%nat as HltB by eauto using lookup_lt_Some.
  assert (duplicate ↔
          filter (λ x, x ∈ T) tables ≠ [] ∨ filter (λ x, x ∈ B) blobs ≠ [])
    as Hdup.
  { unfold duplicate. split.
    - intros [x [[Hx HxT]|[Hx HxB]]]; [left|right]; intros Hnil;
        eapply filter_nil_iff in Hnil; eauto.
    - intros Hne. destruct (filter (λ x, x ∈ T) tables) as [|x l] eqn:Hf.
      + destruct Hne as [|Hne]; [done|].
        destruct (filter (λ x, x ∈ B) blobs) as [|y l'] eqn:Hg; [done|].
        assert (y ∈ filter (λ x, x ∈ B) blobs) as Hy by (rewrite Hg; by left).
        apply list_elem_of_filter in Hy as [? ?]. exists y. by right.
      + assert (x ∈ filter (λ x, x ∈ T) tables) as Hx by (rewrite Hf; by left).
        apply list_elem_of_filter in Hx as [? ?]. exists x. by left. }
  unfold add_names.
  rewrite (collect_duplicates_Ok _ _ T) by done.
  rewrite (collect_duplicates_Ok _ _ B) by done.
  split.
  - intros Hd. apply Hdup in Hd. by rewrite bool_decide_eq_true_2.
  - intros Hd. rewrite bool_decide_eq_false_2 by (by rewrite <- Hdup).
    rewrite (add_each_Ok _ _ T) by done. rewrite (add_each_Ok _ _ B) by done.
    eexists. split; [done|]. simpl. split_and!; [done | done | |].
    + intros x Hx. split.
      * intros HxT. apply Hd. exists x. by left.
      * eexists. rewrite list_lookup_insert_eq by done. split; [done|].
        apply elem_of_union_r. by apply elem_of_list_to_set.
    + intros x Hx. split.
      * intros HxB. apply Hd. exists x. by right.
      * eexists. rewrite list_lookup_insert_eq by done. split; [done|].
        apply elem_of_union_r. by apply elem_of_list_to_set.
Qed.

Lemma add_names_all_or_nothing_witness :
  let σ := (add_names 0 ["t"]%string [] entered_server).1 in
  table_names σ !! 0%nat = Some {["t"%string]} ∧
  blob_names σ !! 0%nat = Some ∅ ∧
  ((∃ x, (x ∈ ["t"; "u"]%string ∧ x ∈ ({["t"%string]} : gset string)) ∨
         (x ∈ ([] : list string) ∧ x ∈ (∅ : gset string))) →
   add_names 0 ["t"; "u"]%string [] σ =
     (σ, Ok (PyDict
        [("success"%string, PyBool false);
         ("table_duplicates"%string,
            PyList (PyStr <$> filter (λ x, x ∈ ({["t"%string]} : gset string))
                                ["t"; "u"]%string));
         ("blob_duplicates"%string,
            PyList (PyStr <$> filter (λ x, x ∈ (∅ : gset string)) []))]))).
Proof.
  intros σ.
  assert (table_names σ !! 0%nat = Some {["t"%string]}) as HT.
  { vm_compute. reflexivity. }
  assert (blob_names σ !! 0%nat = Some ∅) as HB by reflexivity.
  split; [exact HT|]. split; [exact HB|].
  apply (add_names_all_or_nothing 0 ["t"; "u"]%string [] σ {["t"%string]} ∅ HT HB).
Defined.

Example add_names_twice :
  let r1 := add_names 0 ["t"]%string [] entered_server in
  let r2 := add_names 0 ["t"]%string [] r1.1 in
  r1.2 = Ok (PyDict [("success"%string, PyBool true)]) ∧
  r2.2 = Ok (PyDict [("success"%string, PyBool false);
                     ("table_duplicates"%string, PyList [PyStr "t"]);
                     ("blob_duplicates"%string, PyList [])]) ∧
  r2.1 = r1.1.
Proof. vm_compute. done. Qed.

(** ** Reference counting *)

Section loops.
Context {A St : Type}.
Implicit Types (body : A → St → St * result ()).

Lemma for_each_app body l1 l2 s :
  for_each body (l1 ++ l2) s =
    match for_each body l1 s with
    | (s', Ok _) => for_each body l2 s'
    | (s', Raise e) => (s', Raise e)
    end.
Proof.
  revert s. induction l1 as [|x l1 IH]; intros s; simpl; [done|].
  destruct (body x s) as [s' [[]|e]]; [apply IH | done].
Qed.
End loops.

Lemma for_each_bind {A B St} (body : B → St → St * result ()) (f : A → list B)
    (l : list A) (s : St) :
  for_each (λ x, for_each body (f x)) l s = for_each body (l ≫= f) s.
Proof.
  revert s. induction l as [|x l IH]; intros s; simpl; [done|].
  rewrite for_each_app. destruct (for_each body (f x) s) as [s' [[]|e]]; auto.
Qed.

Lemma filter_ext_in {A} (P Q : A → Prop)
    `{!∀ x, Decision (P x), !∀ x, Decision (Q x)} (l : list A) :
  (∀ x, x ∈ l → P x ↔ Q x) → filter P l = filter Q l.
Proof.
  induction l as [|x l IH]; intros Hext; [done|].
  rewrite !filter_cons, IH by (intros y Hy; apply Hext; by right).
  apply decide_ext. apply Hext. by left.
Qed.

Lemma omap_ext_in {A B} (f g : A → option B) (l : list A) :
  (∀ x, x ∈ l → f x = g x) → omap f l = omap g l.
Proof.
  intros Hext. apply list_omap_ext, Forall_Forall2_diag, Forall_forall.
  exact Hext.
Qed.

Section counters.
Implicit Types (rc : list Z) (l : list nat).

Lemma occurrences_nil j : occurrences j [] = 0.
Proof. done. Qed.

Lemma occurrences_cons j x l :
  occurrences j (x :: l) = (if decide (x = j) then 1 else 0) + occurrences j l.
Proof.
  unfold occurrences. rewrite filter_cons. case_decide; simpl; lia.
Qed.

Lemma occurrences_app j l1 l2 :
  occurrences j (l1 ++ l2) = occurrences j l1 + occurrences j l2.
Proof. unfold occurrences. rewrite filter_app, length_app. lia. Qed.

Lemma occurrences_nonneg j l : 0 ≤ occurrences j l.
Proof. unfold occurrences. lia. Qed.

Lemma occurrences_Permutation j l1 l2 :
  l1 ≡ₚ l2 → occurrences j l1 = occurrences j l2.
Proof. intros H. unfold occurrences. by rewrite H. Qed.

Lemma occurrences_NoDup j l :
  NoDup l → occurrences j l = if decide (j ∈ l) then 1 else 0.
Proof.
  induction 1 as [|x l Hx Hnd IH]; [done|].
  rewrite occurrences_cons, IH.
  destruct (decide (x = j)) as [->|Hne].
  - rewrite decide_False by done. rewrite decide_True by (by left). done.
  - destruct (decide (j ∈ l)) as [Hin|Hin].
    + rewrite decide_True by (by right). done.
    + rewrite decide_False; [done|].
      intros [->|?]%elem_of_cons; done.
Qed.

Lemma declared_nonneg j ts : 0 ≤ declared j ts.
Proof. apply occurrences_nonneg. Qed.

Lemma declared_app j ts1 ts2 :
  declared j (ts1 ++ ts2) = declared j ts1 + declared j ts2.
Proof. unfold declared. rewrite bind_app. apply occurrences_app. Qed.

Lemma declared_Permutation j ts1 ts2 :
  ts1 ≡ₚ ts2 → declared j ts1 = declared j ts2.
Proof. intros H. apply occurrences_Permutation. by rewrite H. Qed.

Lemma lookup_insert_add rc (i j : nat) (n d : Z) :
  rc !! i = Some n →
  <[i:=n + d]> rc !! j =
    (λ m, m + (if decide (i = j) then d else 0)) <$> rc !! j.
Proof.
  intros Hi. destruct (decide (i = j)) as [->|Hne].
  - rewrite list_lookup_insert_eq by eauto using lookup_lt_Some.
    by rewrite Hi.
  - rewrite list_lookup_insert_ne by done.
    destruct (rc !! j); simpl; [f_equal; lia | done].
Qed.

(** The loop of [__enter__] over a list of upstream stages. *)
Lemma for_each_incr_ref_count l rc :
  (∀ x, x ∈ l → (x < length rc)%nat) →
  ∃ rc', for_each incr_ref_count l rc = (rc', Ok ()) ∧
         length rc' = length rc ∧
         ∀ j, rc' !! j = (λ n, n + occurrences j l) <$> rc !! j.
Proof.
  revert rc. induction l as [|x l IH]; intros rc Hin; simpl.
  - exists rc. split_and!; [done..|]. intros j. rewrite occurrences_nil.
    destruct (rc !! j); simpl; [f_equal; lia | done].
  - destruct (lookup_lt_is_Some_2 rc x) as [n Hn]; [apply Hin; by left|].
    unfold incr_ref_count at 1, getitem. rewrite Hn.
    destruct (IH (<[x:=n + 1]> rc)) as (rc' & Hrun & Hlen & Hrc).
    { intros y Hy. rewrite length_insert. apply Hin. by right. }
    exists rc'. rewrite Hrun. split_and!; [done | by rewrite Hlen, length_insert |].
    intros j. rewrite Hrc, (lookup_insert_add _ _ _ _ _ Hn), occurrences_cons.
    destruct (rc !! j); simpl; [f_equal; lia | done].
Qed.

(** The loop of [did_finish_task] over the upstream stages of a task: the
    counters. *)
Lemma for_each_decr_ref_count l (s : finish_state) :
  (∀ x, x ∈ l → (x < length (fs_ref_count s))%nat) →
  ∃ s', for_each decr_ref_count l s = (s', Ok ()) ∧
        length (fs_ref_count s') = length (fs_ref_count s) ∧
        ∀ j, fs_ref_count s' !! j =
             (λ n, n - occurrences j l) <$> fs_ref_count s !! j.
Proof.
  revert s. induction l as [|x l IH]; intros s Hin; simpl.
  - exists s. split_and!; [done..|]. intros j. rewrite occurrences_nil.
    destruct (fs_ref_count s !! j); simpl; [f_equal; lia | done].
  - destruct (lookup_lt_is_Some_2 (fs_ref_count s) x) as [n Hn];
      [apply Hin; by left|].
    unfold decr_ref_count at 1, getitem. rewrite Hn.
    set (rc1 := <[x:=n - 1]> (fs_ref_count s)).
    assert (∀ lg rel,
      ∃ s', for_each decr_ref_count l
              {| fs_ref_count := rc1; fs_logger := lg;
                 stages_to_release := rel |} = (s', Ok ()) ∧
            length (fs_ref_count s') = length (fs_ref_count s) ∧
            ∀ j, fs_ref_count s' !! j =
                 (λ n, n - occurrences j (x :: l)) <$> fs_ref_count s !! j)
      as Hnext.
    { intros lg rel.
      destruct (IH {| fs_ref_count := rc1; fs_logger := lg;
                      stages_to_release := rel |})
        as (s' & Hrun & Hlen & Hrc).
      { intros y Hy. simpl. unfold rc1. rewrite length_insert.
        apply Hin. by right. }
      exists s'. simpl in *. split_and!; [done | |].
      - unfold rc1 in Hlen. by rewrite length_insert in Hlen.
      - intros j. rewrite Hrc. unfold rc1.
        replace (n - 1) with (n + -1) by lia.
        rewrite (lookup_insert_add _ _ _ _ _ Hn), occurrences_cons.
        destruct (fs_ref_count s !! j); simpl; [|done].
        f_equal. case_decide; lia. }
    repeat case_decide; apply Hnext.
Qed.

(** ... and, when no stage is listed twice, what is collected for release
    and what is logged. *)
Lemma for_each_decr_ref_count_NoDup l (s s' : finish_state) :
  NoDup l →
  for_each decr_ref_count l s = (s', Ok ()) →
  stages_to_release s' =
    stages_to_release s ++ filter (λ x, fs_ref_count s !! x = Some 1) l ∧
  fs_logger s' = fs_logger s ++ negative_logs (fs_ref_count s) l.
Proof.
  intros Hnd. revert s s'.
  induction Hnd as [|x l Hx Hnd IH]; intros s s'; simpl.
  - intros [= <-]. by rewrite !app_nil_r.
  - unfold decr_ref_count at 1, getitem.
    destruct (fs_ref_count s !! x) as [n|] eqn:Hn; [|done].
    set (rc1 := <[x:=n - 1]> (fs_ref_count s)).
    assert (filter (λ y, rc1 !! y = Some 1) l =
            filter (λ y, fs_ref_count s !! y = Some 1) l) as Hfilter.
    { apply filter_ext_in. intros y Hy. unfold rc1.
      rewrite list_lookup_insert_ne; [done|]. by intros ->. }
    assert (negative_logs rc1 l = negative_logs (fs_ref_count s) l) as Hlogs.
    { unfold negative_logs. apply omap_ext_in. intros y Hy. unfold rc1.
      rewrite list_lookup_insert_ne; [done|]. by intros ->. }
    unfold negative_logs at 2. rewrite filter_cons. simpl omap. rewrite Hn.
    fold (negative_logs (fs_ref_count s) l).
    assert (∀ lg rel s',
      for_each decr_ref_count l
        {| fs_ref_count := rc1; fs_logger := lg; stages_to_release := rel |}
        = (s', Ok ()) →
      stages_to_release s' =
        rel ++ filter (λ y, fs_ref_count s !! y = Some 1) l ∧
      fs_logger s' = lg ++ negative_logs (fs_ref_count s) l) as Hnext.
    { intros lg rel s1 Hrun. apply IH in Hrun as [Hrel Hlog]. simpl in *.
      by rewrite Hfilter in Hrel; rewrite Hlogs in Hlog. }
    destruct (decide (n - 1 = 0)) as [H0|H0].
    { assert (n = 1) as -> by lia.
      rewrite decide_True by done. rewrite decide_False by lia.
      intros [-> ->]%Hnext. by rewrite <- !app_assoc. }
    rewrite (decide_False (P:=Some n = Some 1)) by (intros [= ->]; lia).
    destruct (decide (n - 1 < 0)) as [Hneg|Hneg].
    + intros [-> ->]%Hnext. by rewrite <- !app_assoc.
    + intros [-> ->]%Hnext. done.
Qed.
End counters.

Lemma of_value_value (final_state : FinalTaskState.t) :
  FinalTaskState.of_value (FinalTaskState.value final_state) = Ok final_state.
Proof. by destruct final_state. Qed.

Lemma with_lock_manager_id σ lm :
  lock_manager σ = Some lm → with_lock_manager σ (Some lm) = σ.
Proof. destruct σ. simpl. by intros ->. Qed.

(** The loop over [stages_to_release], run to its end. *)
Lemma release_loop tid v rel σ lm :
  lock_manager σ = Some lm →
  run_alone (length rel + 1) (T_did_finish_task tid v (FinishRelease rel)) σ =
    (with_lock_manager σ (Some {| released := released lm ++ rel |}),
     T_returned (Ok PyNone)).
Proof.
  revert σ lm. induction rel as [|x rel IH]; intros σ lm Hlm; simpl.
  - rewrite app_nil_r. destruct lm as [r]. simpl.
    by rewrite with_lock_manager_id.
  - rewrite Hlm. simpl.
    rewrite (IH _ {| released := released lm ++ [x] |}) by done.
    simpl. by rewrite <- app_assoc.
Qed.

(** C5: a call [did_finish_task(task_id, final_state)] for a task of the
    flow.  Its block under [ref_count_lock] decrements the counter of each
    upstream stage of the task by exactly one and that of no other stage,
    collects exactly the upstream stages whose counter has become 0, logs
    (only) the counters that have become negative, and does not call the
    lock manager; the call then releases the collected stages, in order,
    without touching the counters, and returns without raising. *)
Theorem did_finish_task_releases
    (tid : nat) (final_state : FinalTaskState.t) (σ : RunContextServer)
    (lm : LockManager) (task : Task) :
  lock_manager σ = Some lm →
  tasks σ !! tid = Some task →
  NoDup (upstream_stages task) →
  (∀ s, s ∈ upstream_stages task → (s < length (ref_count σ))%nat) →
  let v := FinalTaskState.value final_state in
  let to_release :=
    filter (λ s, ref_count σ !! s = Some 1) (upstream_stages task) in
  ∃ σ1,
    did_finish_task tid v FinishLocked σ = (σ1, inl (FinishRelease to_release)) ∧
    (∀ j, ref_count σ1 !! j =
          (λ n, n - (if decide (j ∈ upstream_stages task) then 1 else 0))
            <$> ref_count σ !! j) ∧
    (∀ s, s ∈ to_release ↔
          s ∈ upstream_stages task ∧ ref_count σ1 !! s = Some 0) ∧
    logger σ1 = logger σ ++ negative_logs (ref_count σ) (upstream_stages task) ∧
    lock_manager σ1 = Some lm ∧
    run_alone (length to_release + 2) (T_did_finish_task tid v FinishLocked) σ =
      (with_lock_manager σ1 (Some {| released := released lm ++ to_release |}),
       T_returned (Ok PyNone)).
Proof.
  intros Hlm Ht Hnd Hin v to_release.
  set (s0 := {| fs_ref_count := ref_count σ; fs_logger := logger σ;
                stages_to_release := [] |}).
  destruct (for_each_decr_ref_count (upstream_stages task) s0 Hin)
    as (s' & Hrun & Hlen & Hrc).
  destruct (for_each_decr_ref_count_NoDup _ _ _ Hnd Hrun) as [Hrel Hlog].
  simpl in Hrel, Hlog, Hrc.
  assert (did_finish_task tid v FinishLocked σ =
          (with_logger (with_ref_count σ (fs_ref_count s')) (fs_logger s'),
           inl (FinishRelease to_release))) as Hstep.
  { unfold did_finish_task. rewrite Hlm. unfold v.
    rewrite of_value_value. unfold getitem. rewrite Ht.
    fold s0. rewrite Hrun. by rewrite Hrel. }
  assert (∀ j, fs_ref_count s' !! j =
               (λ n, n - (if decide (j ∈ upstream_stages task) then 1 else 0))
                 <$> ref_count σ !! j) as Hrc'.
  { intros j. rewrite Hrc. by rewrite occurrences_NoDup. }
  eexists. split_and!; [exact Hstep | exact Hrc' | | exact Hlog | exact Hlm |].
  - intros s. unfold to_release. rewrite list_elem_of_filter. simpl.
    rewrite Hrc'. split.
    + intros [H1 Hs]. split; [done|]. rewrite H1. simpl.
      by rewrite decide_True.
    + intros [Hs H0]. split; [|done].
      destruct (ref_count σ !! s) as [n|]; simpl in *; [|done].
      rewrite decide_True in H0 by done. f_equal. simplify_eq. lia.
  - replace (length to_release + 2)%nat with (S (length to_release + 1)) by lia.
    cbn [run_alone thread_step]. rewrite Hstep. cbn [resume].
    by rewrite (release_loop tid v to_release _ lm).
Qed.

Lemma did_finish_task_releases_witness :
  let σ := (run_alone 2 (T_did_finish_task 1 1 FinishLocked) entered_server).1 in
  lock_manager σ = Some {| released := [] |} ∧
  tasks σ !! 2%nat = Some task_2 ∧
  ref_count σ = [1; 0] ∧
  ∃ σ1,
    did_finish_task 2 (FinalTaskState.value FinalTaskState.COMPLETED)
      FinishLocked σ =
      (σ1, inl (FinishRelease
                  (filter (λ s, ref_count σ !! s = Some 1)
                     (upstream_stages task_2)))) ∧
    (∀ j, ref_count σ1 !! j =
          (λ n, n - (if decide (j ∈ upstream_stages task_2) then 1 else 0))
            <$> ref_count σ !! j) ∧
    (∀ s, s ∈ filter (λ s, ref_count σ !! s = Some 1) (upstream_stages task_2) ↔
          s ∈ upstream_stages task_2 ∧ ref_count σ1 !! s = Some 0) ∧
    logger σ1 =
      logger σ ++ negative_logs (ref_count σ) (upstream_stages task_2) ∧
    lock_manager σ1 = Some {| released := [] |} ∧
    run_alone
      (length (filter (λ s, ref_count σ !! s = Some 1) (upstream_stages task_2))
       + 2)
      (T_did_finish_task 2 (FinalTaskState.value FinalTaskState.COMPLETED)
         FinishLocked) σ =
      (with_lock_manager σ1
         (Some {| released :=
                    released {| released := [] |} ++
                    filter (λ s, ref_count σ !! s = Some 1)
                      (upstream_stages task_2) |}),
       T_returned (Ok PyNone)).
Proof.
  intros σ. split; [reflexivity|]. split; [reflexivity|].
  split; [reflexivity|].
  apply (did_finish_task_releases 2 FinalTaskState.COMPLETED σ
           {| released := [] |} task_2).
  - reflexivity.
  - reflexivity.
  - simpl. apply NoDup_singleton.
  - intros s Hs. apply list_elem_of_singleton in Hs as ->. simpl. lia.
Defined.

Example eager_lock_release :
  let σ1 := (run_alone 3 (T_did_finish_task 1 1 FinishLocked) entered_server).1 in
  let σ2 := (run_alone 3 (T_did_finish_task 2 1 FinishLocked) σ1).1 in
  ref_count σ1 = [1; 0] ∧ lock_manager σ1 = Some {| released := [] |} ∧
  ref_count σ2 = [0; 0] ∧ lock_manager σ2 = Some {| released := [0%nat] |}.
Proof. by vm_compute. Qed.

(** ** The counters along a run *)

Section tasks_of.
Implicit Types (ts : list Task) (ids : list nat).

Lemma tasks_of_app ts ids1 ids2 :
  tasks_of ts (ids1 ++ ids2) = tasks_of ts ids1 ++ tasks_of ts ids2.
Proof. apply bind_app. Qed.

Lemma tasks_of_seq_suffix ts1 ts2 :
  tasks_of (ts1 ++ ts2) (seq (length ts1) (length ts2)) = ts2.
Proof.
  revert ts1. induction ts2 as [|t ts2 IH]; intros ts1; [done|].
  unfold tasks_of in *. cbn [length seq]. rewrite bind_cons.
  rewrite list_lookup_middle by done. cbn [option_list app]. f_equal.
  specialize (IH (ts1 ++ [t])). rewrite <- app_assoc in IH. simpl in IH.
  rewrite length_app in IH. simpl in IH.
  replace (length ts1 + 1)%nat with (S (length ts1)) in IH by lia.
  exact IH.
Qed.

Lemma tasks_of_seq ts : tasks_of ts (seq 0 (length ts)) = ts.
Proof. apply (tasks_of_seq_suffix [] ts). Qed.

Lemma tasks_of_seq_beyond ts a b :
  (length ts ≤ a)%nat → tasks_of ts (seq a b) = [].
Proof.
  revert a. induction b as [|b IH]; intros a Ha; [done|].
  unfold tasks_of in *. cbn [seq]. rewrite bind_cons.
  rewrite lookup_ge_None_2 by done. cbn [option_list app]. apply IH. lia.
Qed.

Lemma tasks_of_NoDup ts ids : NoDup ids → tasks_of ts ids ⊆+ ts.
Proof.
  intros Hnd.
  assert (ids ⊆+ seq 0 (length ts + S (max_list ids))) as Hsub.
  { apply NoDup_submseteq; [done|]. intros x Hx.
    apply max_list_elem_of_le in Hx. apply elem_of_seq. lia. }
  assert (tasks_of ts (seq 0 (length ts + S (max_list ids))) = ts) as Hall.
  { rewrite seq_app, tasks_of_app, tasks_of_seq.
    rewrite tasks_of_seq_beyond by (simpl; lia). apply app_nil_r. }
  rewrite <- Hall at 2. unfold tasks_of. by apply bind_submseteq.
Qed.

Lemma tasks_of_Permutation ts ids :
  ids ≡ₚ seq 0 (length ts) → tasks_of ts ids ≡ₚ ts.
Proof.
  intros H. rewrite <- (tasks_of_seq ts) at 2. unfold tasks_of. by rewrite H.
Qed.
End tasks_of.

(** Only the locked block of [did_finish_task] writes the counters, and no
    step replaces the task list or drops the lock manager. *)
Lemma thread_step_frame t σ σ' t' :
  thread_step t σ = Some (σ', t') →
  tasks σ' = tasks σ ∧
  (is_Some (lock_manager σ) → is_Some (lock_manager σ')) ∧
  (ref_count σ' = ref_count σ ∨
   ∃ tid v, t = T_did_finish_task tid v FinishLocked).
Proof.
  destruct t; simpl; intros Hs; simplify_eq.
  - frame_cases ltac:(auto).
  - frame_cases ltac:(auto).
  - frame_cases ltac:(auto).
  - frame_cases ltac:(auto).
  - frame_cases ltac:(auto).
  - frame_cases ltac:(auto).
  - unfold did_finish_task, resume in *.
    repeat case_match; simplify_eq/=; split_and!; eauto;
      try (intros _; by eexists); by intros [? ?].
  - frame_cases ltac:(auto).
  - frame_cases ltac:(auto).
  - frame_cases ltac:(auto).
  - frame_cases ltac:(auto).
  - frame_cases ltac:(auto).
Qed.

Lemma did_finish_task_locked_ref_count tid v σ task :
  is_Some (lock_manager σ) →
  tasks σ !! tid = Some task →
  (∀ s, s ∈ upstream_stages task → (s < length (ref_count σ))%nat) →
  length (ref_count (did_finish_task tid v FinishLocked σ).1) =
    length (ref_count σ) ∧
  ∀ j, ref_count (did_finish_task tid v FinishLocked σ).1 !! j =
       (λ n, n - (match FinalTaskState.of_value v with
                  | Ok _ => occurrences j (upstream_stages task)
                  | Raise _ => 0
                  end)) <$> ref_count σ !! j.
Proof.
  intros [lm Hlm] Ht Hin. unfold did_finish_task. rewrite Hlm.
  destruct (FinalTaskState.of_value v) as [fs|e]; simpl.
  - unfold getitem. rewrite Ht.
    destruct (for_each_decr_ref_count (upstream_stages task)
                {| fs_ref_count := ref_count σ; fs_logger := logger σ;
                   stages_to_release := [] |} Hin)
      as (s' & Hrun & Hlen & Hrc).
    rewrite Hrun. simpl. done.
  - split; [done|]. intros j.
    destruct (ref_count σ !! j); simpl; [f_equal; lia | done].
Qed.

Section counted.
Variables (ts : list Task) (rc : list Z).
Hypothesis in_range :
  ∀ t s, t ∈ ts → s ∈ upstream_stages t → (s < length rc)%nat.

Lemma declared_tasks_of_snoc j done_ tid :
  declared j (tasks_of ts (done_ ++ [tid])) =
    declared j (tasks_of ts done_) +
    match ts !! tid with
    | Some task => occurrences j (upstream_stages task)
    | None => 0
    end.
Proof.
  rewrite tasks_of_app, declared_app. f_equal.
  unfold tasks_of. rewrite bind_singleton.
  destruct (ts !! tid) as [task|]; simpl; [|done].
  unfold declared. rewrite bind_singleton. done.
Qed.

Lemma act_counted a s s' done_ :
  counted ts rc s done_ →
  act a s = Some s' →
  counted ts rc s' (done_ ++ option_list (locked_finish a s)).
Proof.
  intros (Hts & Hlm & Hlen & Hrc) Hact. unfold counted.
  destruct s as [σ thr]. destruct a as [t|i]; cbn [act server threads] in *.
  { destruct (arriving t); [|done]. injection Hact as <-. simpl.
    rewrite app_nil_r. by split_and!. }
  destruct (thr !! i) as [t|] eqn:Hi; [|done].
  destruct (thread_step t σ) as [[σ' t']|] eqn:Hs; [|done].
  injection Hact as <-. cbn [server].
  destruct (thread_step_frame _ _ _ _ Hs) as (Hts' & Hlm' & Hfr).
  assert ((∃ tid v, t = T_did_finish_task tid v FinishLocked) ∨
          ¬ (∃ tid v, t = T_did_finish_task tid v FinishLocked))
    as [(tid & v & ->)|Hother].
  { destruct t; try (right; intros (? & ? & ?); done).
    destruct pc; [left; eauto | right; intros (? & ? & ?); done]. }
  - cbn [thread_step] in Hs. unfold resume in Hs.
    cbn [locked_finish threads]. rewrite Hi.
    destruct (tasks σ !! tid) as [task|] eqn:Htid;
      pose proof Htid as Htid'; rewrite Hts in Htid'.
    + assert (∀ s, s ∈ upstream_stages task → (s < length (ref_count σ))%nat)
        as Hin.
      { intros s Hs'. rewrite Hlen. eapply in_range; [|done].
        by eapply list_elem_of_lookup_2. }
      clear Hfr.
      destruct (did_finish_task_locked_ref_count tid v σ task Hlm Htid Hin)
        as [Hlen' Hrc'].
      destruct (did_finish_task tid v FinishLocked σ) as [σ1 x] eqn:Hd.
      assert (σ1 = σ') as -> by (destruct x; by simplify_eq).
      simpl in *. split_and!; [congruence | by apply Hlm' | congruence |].
      intros j. rewrite Hrc', Hrc.
      destruct (FinalTaskState.of_value v); simpl.
      * rewrite declared_tasks_of_snoc, Htid'.
        destruct (rc !! j); simpl; [f_equal; lia | done].
      * rewrite app_nil_r. destruct (rc !! j); simpl; [f_equal; lia | done].
    + assert (σ' = σ) as ->.
      { unfold did_finish_task, getitem in Hs. rewrite Htid in Hs.
        repeat case_match; by simplify_eq. }
      split_and!; [done..|]. intros j. rewrite Hrc.
      destruct (FinalTaskState.of_value v); simpl; [|by rewrite app_nil_r].
      rewrite declared_tasks_of_snoc, Htid'.
      destruct (rc !! j); simpl; [f_equal; lia | done].
  - destruct Hfr as [Hfr|Hfr]; [|done].
    assert (locked_finish (Step i) {| server := σ; threads := thr |} = None)
      as ->.
    { simpl. rewrite Hi. destruct t; try done.
      destruct pc; [|done]. exfalso. apply Hother. eauto. }
    simpl. rewrite app_nil_r.
    split_and!; [congruence | by apply Hlm' | congruence |].
    intros j. by rewrite Hfr.
Qed.

Lemma play_log_counted sched s done_ p :
  counted ts rc s done_ →
  p ∈ play_log sched s done_ →
  counted ts rc p.1 p.2.
Proof.
  revert s done_. induction sched as [|a sched IH]; intros s done_ Hc Hp; simpl in Hp.
  { by apply elem_of_nil in Hp. }
  destruct (act a s) as [s'|] eqn:Hact; [|by apply elem_of_nil in Hp].
  pose proof (act_counted _ _ _ _ Hc Hact) as Hc'.
  apply elem_of_cons in Hp as [->|Hp]; [done|]. by eapply IH.
Qed.

Lemma counted_nonneg s done_ j n :
  (∀ j n, rc !! j = Some n → n = declared j ts) →
  counted ts rc s done_ →
  NoDup done_ →
  ref_count (server s) !! j = Some n →
  0 ≤ n ∧ (done_ ≡ₚ seq 0 (length ts) → n = 0).
Proof.
  intros Hinit (_ & _ & _ & Hrc) Hnd Hn. rewrite Hrc in Hn.
  destruct (rc !! j) as [n1|] eqn:Hj; simplify_eq/=.
  rewrite (Hinit _ _ Hj). split.
  - destruct (submseteq_Permutation _ _ (tasks_of_NoDup ts done_ Hnd))
      as [k Hk].
    rewrite (declared_Permutation j _ _ Hk), declared_app.
    pose proof (declared_nonneg j k). lia.
  - intros Hall.
    rewrite (declared_Permutation j _ _ (tasks_of_Permutation ts done_ Hall)).
    lia.
Qed.
End counted.

(** [__enter__] leaves in each counter the number of times the tasks of the
    stages declare the stage upstream. *)
Lemma initialize_reference_counters_declared σ0 :
  (∀ t s, t ∈ stages σ0 ≫= all_tasks → s ∈ upstream_stages t →
          (s < length (ref_count σ0))%nat) →
  ∃ σ1, initialize_reference_counters σ0 = (σ1, Ok ()) ∧
        σ1 = with_ref_count σ0 (ref_count σ1) ∧
        length (ref_count σ1) = length (ref_count σ0) ∧
        ∀ j, ref_count σ1 !! j =
             (λ n, n + declared j (stages σ0 ≫= all_tasks)) <$> ref_count σ0 !! j.
Proof.
  intros Hin. unfold initialize_reference_counters.
  rewrite (for_each_bind
             (λ task, for_each incr_ref_count (upstream_stages task)) all_tasks).
  rewrite (for_each_bind incr_ref_count upstream_stages).
  destruct (for_each_incr_ref_count
              ((stages σ0 ≫= all_tasks) ≫= upstream_stages) (ref_count σ0))
    as (rc' & Hrun & Hlen & Hrc).
  { intros s (t & Hs & Ht)%list_elem_of_bind. eauto. }
  rewrite Hrun. eexists. split; [done|]. simpl. done.
Qed.

(** C6: the server is entered with every counter 0 and every task of the
    flow in exactly one stage; [__enter__] then leaves in the counter of each
    stage the number of tasks that declare it upstream.  At every point of
    every run from there at which no task has finished twice (the locked
    block of [did_finish_task] has run at most once per task id), every
    counter is at least 0; and at a point at which every task has finished
    exactly once, every counter is 0. *)
Theorem ref_count_never_negative (σ0 : RunContextServer) (sched : list action) :
  (∀ j n, ref_count σ0 !! j = Some n → n = 0) →
  stages σ0 ≫= all_tasks ≡ₚ tasks σ0 →
  (∀ t s, t ∈ tasks σ0 → s ∈ upstream_stages t →
          (s < length (ref_count σ0))%nat) →
  is_Some (lock_manager σ0) →
  ∃ σ1,
    initialize_reference_counters σ0 = (σ1, Ok ()) ∧
    (∀ j n, ref_count σ1 !! j = Some n → n = declared j (tasks σ0)) ∧
    ∀ s done_,
      (s, done_) ∈ ({| server := σ1; threads := [] |}, []) ::
                   play_log sched {| server := σ1; threads := [] |} [] →
      NoDup done_ →
      ∀ j n, ref_count (server s) !! j = Some n →
             0 ≤ n ∧ (done_ ≡ₚ seq 0 (length (tasks σ0)) → n = 0).
Proof.
  intros Hzero Hperm Hin Hlm.
  destruct (initialize_reference_counters_declared σ0)
    as (σ1 & Hinit & Hσ1 & Hlen & Hrc).
  { intros t s Ht. apply Hin. by rewrite <- Hperm. }
  assert (∀ j n, ref_count σ1 !! j = Some n → n = declared j (tasks σ0))
    as Hdecl.
  { intros j n. rewrite Hrc. destruct (ref_count σ0 !! j) as [n0|] eqn:Hj;
      simpl; [|done].
    intros [= <-]. rewrite (Hzero _ _ Hj).
    rewrite (declared_Permutation j _ _ Hperm). lia. }
  exists σ1. split_and!; [done | done |].
  assert (counted (tasks σ0) (ref_count σ1)
            {| server := σ1; threads := [] |} []) as Hc0.
  { unfold counted. simpl. split_and!.
    - by rewrite Hσ1.
    - by rewrite Hσ1.
    - done.
    - intros j. destruct (ref_count σ1 !! j); simpl; [|done].
      f_equal. unfold tasks_of, declared. simpl. rewrite occurrences_nil. lia. }
  assert (∀ t s, t ∈ tasks σ0 → s ∈ upstream_stages t →
                 (s < length (ref_count σ1))%nat) as Hin'.
  { intros t s Ht Hs. rewrite Hlen. eauto. }
  intros s done_ Hp Hnd j n Hn.
  assert (counted (tasks σ0) (ref_count σ1) s done_) as Hc.
  { apply elem_of_cons in Hp as [[= -> ->]|Hp]; [done|].
    by apply (play_log_counted _ _ Hin' sched _ _ (s, done_) Hc0). }
  by eapply (counted_nonneg (tasks σ0) (ref_count σ1) s done_ j n).
Qed.

Lemma ref_count_never_negative_witness :
  (∀ j n, ref_count fresh_server !! j = Some n → n = 0) ∧
  stages fresh_server ≫= all_tasks ≡ₚ tasks fresh_server ∧
  (∀ t s, t ∈ tasks fresh_server → s ∈ upstream_stages t →
          (s < length (ref_count fresh_server))%nat) ∧
  is_Some (lock_manager fresh_server) ∧
  ∃ σ1,
    initialize_reference_counters fresh_server = (σ1, Ok ()) ∧
    (∀ j n, ref_count σ1 !! j = Some n → n = declared j (tasks fresh_server)) ∧
    ∀ s done_,
      (s, done_) ∈ ({| server := σ1; threads := [] |}, []) ::
                   play_log finish_schedule
                     {| server := σ1; threads := [] |} [] →
      NoDup done_ →
      ∀ j n, ref_count (server s) !! j = Some n →
             0 ≤ n ∧ (done_ ≡ₚ seq 0 (length (tasks fresh_server)) → n = 0).
Proof.
  assert (∀ j n, ref_count fresh_server !! j = Some n → n = 0) as H1.
  { intros [|[|j]] n; simpl; intros [= <-]; reflexivity. }
  assert (stages fresh_server ≫= all_tasks ≡ₚ tasks fresh_server) as H2.
  { reflexivity. }
  assert (∀ t s, t ∈ tasks fresh_server → s ∈ upstream_stages t →
                 (s < length (ref_count fresh_server))%nat) as H3.
  { intros t s Ht Hs. simpl.
    change (tasks fresh_server) with [task_0; task_1; task_2] in Ht.
    repeat (apply elem_of_cons in Ht as [->|Ht]); simpl in Hs;
      try (apply list_elem_of_singleton in Hs as ->; lia);
      try (by apply elem_of_nil in Hs); by apply elem_of_nil in Ht. }
  assert (is_Some (lock_manager fresh_server)) as H4 by (by eexists).
  split; [exact H1|]. split; [exact H2|]. split; [exact H3|].
  split; [exact H4|].
  exact (ref_count_never_negative fresh_server finish_schedule H1 H2 H3 H4).
Defined.

Example finish_schedule_counts :
  (λ p, (ref_count (server p.1), p.2)) <$>
    last (play_log finish_schedule
            {| server := entered_server; threads := [] |} []) =
  Some ([0; 0], [1; 2; 0]%nat).
Proof. reflexivity. Qed.

(** ** The materialisation wrapper *)

Section wrapper.
Import MaterialisationWrapper.
Implicit Types (memo : gmap nat (gmap string entry)).

Lemma memo_getitem_fst memo sch :
  (memo_getitem memo sch).1 = default ∅ (memo !! sch).
Proof. unfold memo_getitem. by destruct (memo !! sch). Qed.

Lemma memo_getitem_snd memo sch :
  (memo_getitem memo sch).2 !! sch = Some (default ∅ (memo !! sch)).
Proof.
  unfold memo_getitem. destruct (memo !! sch) eqn:H; simpl; [done|].
  by rewrite lookup_insert_eq.
Qed.

(** [store_in_memo] right after the call has put its [Condition] under
    the key. *)
Lemma store_in_memo_Condition v sch key memo d :
  memo !! sch = Some d → d !! key = Some Condition →
  store_in_memo v sch key memo =
    (<[sch:=<[key:=Result v]> d]> memo, [Call_notify_all], Ok ()).
Proof.
  intros Hs Hk. unfold store_in_memo, memo_getitem. by rewrite Hs, Hk.
Qed.

End wrapper.

Section wrapper_call.
Import MaterialisationWrapper.
Variables (self : MaterialisationWrapper.t) (store : PipeDAGStore).
Variables (polls : list entry) (a k : pyval) (task : MaterialisingTask).
Variables (memo : gmap nat (gmap string entry)).
Variables (bound : BoundArguments) (sch : nat) (j key : string).
Hypothesis bind_ok : fn_signature_bind self a k = Ok bound.
Hypothesis schema_ok : schema task = Some sch.
Hypothesis ready_ok : ensure_schema_is_ready store sch = Ok ().
Hypothesis json_ok : json_encode store (arguments bound) = Ok j.
Hypothesis key_ok : compute_task_cache_key store task j = Ok key.

Lemma claimed_lookup :
  claimed memo sch key !! sch =
    Some (<[key:=Condition]> (default ∅ (memo !! sch))) ∧
  <[key:=Condition]> (default ∅ (memo !! sch)) !! key = Some Condition.
Proof. unfold claimed. by rewrite !lookup_insert_eq. Qed.

Lemma memo_getitem_claimed (e : gmap string entry) :
  <[sch:=e]> (memo_getitem memo sch).2 = <[sch:=e]> memo.
Proof.
  unfold memo_getitem. destruct (memo !! sch); simpl; [done|].
  by rewrite insert_insert_eq.
Qed.

(** The call, up to the memo lookup. *)
Lemma call_memo_hit e :
  memo_result memo sch key = e → e ≠ _nil →
  __call__ self store polls a k (Some task) memo =
    ((memo_getitem memo sch).2, [Call_ensure_schema_is_ready sch],
     wait_for_result e polls).
Proof.
  intros He Hne. unfold __call__, memo_result in *.
  rewrite bind_ok, schema_ok, ready_ok, json_ok, key_ok.
  pose proof (memo_getitem_fst memo sch) as H1.
  destruct (memo_getitem memo sch) as [d memo1]. simpl in *. subst d.
  rewrite He. by destruct e.
Qed.

Lemma call_memo_miss :
  memo_result memo sch key = _nil →
  __call__ self store polls a k (Some task) memo =
    let task' := set_cache_key task key in
    if negb (lazy task) then
      match use_cache store task' sch key (claimed memo sch key) with
      | (memo', evs', Ok cached_output) =>
          (memo', [Call_ensure_schema_is_ready sch] ++ evs',
           Returned cached_output)
      | (memo', evs', Raise e) =>
          if is_CacheError e then
            let '(memo'', evs'', o) :=
              evaluate self store task' bound sch key memo' in
            (memo'', [Call_ensure_schema_is_ready sch] ++ evs' ++ evs'', o)
          else (memo', [Call_ensure_schema_is_ready sch] ++ evs', Raised e)
      end
    else
      let '(memo', evs', o) :=
        evaluate self store task' bound sch key (claimed memo sch key) in
      (memo', [Call_ensure_schema_is_ready sch] ++ evs', o).
Proof.
  intros He. unfold __call__, memo_result in *.
  rewrite bind_ok, schema_ok, ready_ok, json_ok, key_ok.
  pose proof (memo_getitem_fst memo sch) as H1.
  pose proof (memo_getitem_claimed) as H2.
  destruct (memo_getitem memo sch) as [d memo1]. simpl in *. subst d.
  rewrite He. unfold claimed. rewrite H2. done.
Qed.
End wrapper_call.

(** * Further properties of the run-state server *)

(** ** The arrays of the server are indexed by id *)

#[local] Instance task_id_le_total : Total task_id_le.
Proof. intros a b. unfold task_id_le. lia. Qed.

#[local] Instance stage_id_le_total : Total stage_id_le.
Proof. intros a b. unfold stage_id_le. lia. Qed.

Lemma Sorted_le_seq (a n : nat) : Sorted Nat.le (seq a n).
Proof.
  revert a. induction n as [|n IH]; intros a; simpl; constructor; [apply IH|].
  destruct n; simpl; constructor. lia.
Qed.

Lemma sorted_dense_ids {A} (f : A → nat) (R : relation A)
    `{!RelDecision R, !Total R} (l : list A) :
  (∀ x y, R x y → (f x ≤ f y)%nat) →
  f <$> l ≡ₚ seq 0 (length l) →
  ∀ i x, merge_sort R l !! i = Some x → f x = i.
Proof.
  intros HR Hperm i x Hi.
  assert (f <$> merge_sort R l = seq 0 (length l)) as Heq.
  { apply (Sorted_unique Nat.le).
    - eapply Sorted_fmap; [exact HR|]. by apply Sorted_merge_sort.
    - apply Sorted_le_seq.
    - by rewrite merge_sort_Permutation. }
  assert ((f <$> merge_sort R l) !! i = Some (f x)) as Hfi.
  { by rewrite list_lookup_fmap, Hi. }
  rewrite Heq in Hfi. apply lookup_seq in Hfi as [-> _]. done.
Qed.

(** X1: when the ids of the tasks (of the stages) of the flow are the numbers
    0 .. n-1 in any order, the server built by [__init__] holds under each
    index the task (the stage) with that id, so that [self.tasks[task_id]]
    and [self.stages[stage_id]] find it; and every stage then starts with a
    counter 0, in state UNINITIALIZED, with no table and no blob name. *)
Theorem init_indexed_by_id
    (flow_stages : list Stage) (flow_tasks : list Task) (lm : LockManager) :
  task_id <$> flow_tasks ≡ₚ seq 0 (length flow_tasks) →
  stage_id <$> flow_stages ≡ₚ seq 0 (length flow_stages) →
  let σ := RunContextServer_init flow_stages flow_tasks lm in
  tasks σ ≡ₚ flow_tasks ∧
  stages σ ≡ₚ flow_stages ∧
  (∀ i t, tasks σ !! i = Some t → task_id t = i) ∧
  (∀ i st, stages σ !! i = Some st → stage_id st = i) ∧
  (∀ st, st ∈ flow_stages →
     ref_count σ !! stage_id st = Some 0 ∧
     stage_state σ !! stage_id st = Some StageState.UNINITIALIZED ∧
     table_names σ !! stage_id st = Some ∅ ∧
     blob_names σ !! stage_id st = Some ∅).
Proof.
  intros Ht Hs σ. split_and!.
  - apply merge_sort_Permutation.
  - apply merge_sort_Permutation.
  - intros i t. by apply (sorted_dense_ids task_id task_id_le).
  - intros i st. by apply (sorted_dense_ids stage_id stage_id_le).
  - intros st Hst.
    assert (stage_id st < length flow_stages)%nat as Hlt.
    { assert (stage_id st ∈ seq 0 (length flow_stages)) as Hin.
      { rewrite <- Hs. by apply list_elem_of_fmap_2. }
      apply elem_of_seq in Hin. lia. }
    simpl. by rewrite !lookup_replicate_2.
Qed.

Lemma init_indexed_by_id_witness :
  task_id <$> [task_2; task_0; task_1] ≡ₚ seq 0 3 ∧
  stage_id <$> [stage_B; stage_A] ≡ₚ seq 0 2 ∧
  (∀ i t, tasks fresh_server !! i = Some t → task_id t = i).
Proof.
  assert (task_id <$> [task_2; task_0; task_1] ≡ₚ seq 0 3) as H1.
  { simpl. apply (Permutation_cons_append [0; 1]%nat 2%nat). }
  assert (stage_id <$> [stage_B; stage_A] ≡ₚ seq 0 2) as H2.
  { simpl. apply Permutation_swap. }
  split; [exact H1|]. split; [exact H2|].
  apply (init_indexed_by_id [stage_B; stage_A] [task_2; task_0; task_1]
           {| released := [] |} H1 H2).
Defined.

(** ** Entering a transition with no peer *)

Lemma run_alone_enter_init_waiting i σ fuel :
  stage_state σ !! i = Some StageState.INITIALIZING →
  run_alone fuel (T_enter_init_stage i WaitLoop) σ =
    (σ, T_enter_init_stage i WaitLoop).
Proof.
  intros Hs. induction fuel as [|fuel IH]; [done|].
  cbn [run_alone thread_step]. unfold enter_init_stage.
  unfold _enter_stage_state_transition, getitem. rewrite Hs. simpl. exact IH.
Qed.

Lemma run_alone_enter_commit_waiting i σ fuel :
  stage_state σ !! i = Some StageState.COMMITTING →
  run_alone fuel (T_enter_commit_stage i WaitLoop) σ =
    (σ, T_enter_commit_stage i WaitLoop).
Proof.
  intros Hs. induction fuel as [|fuel IH]; [done|].
  cbn [run_alone thread_step]. unfold enter_commit_stage.
  unfold _enter_stage_state_transition, getitem. rewrite Hs. simpl. exact IH.
Qed.

Ltac step_alone Hs Hst :=
  cbn [run_alone thread_step];
  unfold enter_init_stage, enter_commit_stage, _enter_stage_state_transition,
    getitem, resume;
  rewrite ?Hs, ?Hst; simpl.

(** X2: a call of [enter_init_stage] or [enter_commit_stage] that no other
    request interleaves with returns within its three blocks unless it finds
    the stage in the transitional state of its own transition; in that case
    it polls for ever, changing nothing: only a peer's [exit_*] can end the
    wait. *)
Theorem enter_stage_alone (i : nat) (σ : RunContextServer) (s : StageState.t) :
  stage_state σ !! i = Some s →
  is_Some (stages σ !! i) →
  (s ≠ StageState.INITIALIZING →
     ∃ σ' r, run_alone 3 (T_enter_init_stage i FirstCheck) σ =
               (σ', T_returned r)) ∧
  (s = StageState.INITIALIZING →
     ∀ fuel, run_alone (S fuel) (T_enter_init_stage i FirstCheck) σ =
               (σ, T_enter_init_stage i WaitLoop)) ∧
  (s ≠ StageState.COMMITTING →
     ∃ σ' r, run_alone 3 (T_enter_commit_stage i FirstCheck) σ =
               (σ', T_returned r)) ∧
  (s = StageState.COMMITTING →
     ∀ fuel, run_alone (S fuel) (T_enter_commit_stage i FirstCheck) σ =
               (σ, T_enter_commit_stage i WaitLoop)).
Proof.
  intros Hs [st Hst]. split_and!.
  - intros Hne. destruct s; try done; do 3 step_alone Hs Hst; eauto.
  - intros -> fuel. cbn [run_alone thread_step].
    unfold enter_init_stage at 1, _enter_stage_state_transition, getitem.
    rewrite Hs. simpl. by apply run_alone_enter_init_waiting.
  - intros Hne. destruct s; try done; do 3 step_alone Hs Hst; eauto.
  - intros -> fuel. cbn [run_alone thread_step].
    unfold enter_commit_stage at 1, _enter_stage_state_transition, getitem.
    rewrite Hs. simpl. by apply run_alone_enter_commit_waiting.
Qed.

Lemma enter_stage_alone_witness :
  stage_state run_2.(server) !! 0%nat = Some StageState.INITIALIZING ∧
  is_Some (stages run_2.(server) !! 0%nat) ∧
  (StageState.INITIALIZING = StageState.INITIALIZING →
   ∀ fuel, run_alone (S fuel) (T_enter_init_stage 0 FirstCheck) run_2.(server) =
             (run_2.(server), T_enter_init_stage 0 WaitLoop)).
Proof.
  split; [reflexivity|]. split; [by eexists|].
  apply (enter_stage_alone 0 run_2.(server) StageState.INITIALIZING);
    [reflexivity | by eexists].
Defined.

(** ** One owner per transition *)

Lemma follows_rank a l b : follows a l → b ∈ l → (rank a ≤ rank b)%nat.
Proof.
  induction 1 as [a|a l Hf IH|a c l He Hf IH]; intros Hin.
  - by apply elem_of_nil in Hin.
  - apply elem_of_cons in Hin as [->|Hin]; auto.
  - assert (rank a ≤ rank c)%nat as Hac.
    { destruct (edge_rank _ _ He) as [->|(_ & _ & ->)]; [destruct a; simpl|]; lia. }
    apply elem_of_cons in Hin as [->|Hin]; [done|]. specialize (IH Hin). lia.
Qed.

Lemma run_rank_le s0 tr i (n m : nat) a b :
  is_Some (stage_state (server s0) !! i) →
  run s0 tr → (n < m)%nat →
  states_of i (s0 :: tr) !! n = Some a →
  states_of i (s0 :: tr) !! m = Some b →
  (rank a ≤ rank b)%nat.
Proof.
  intros [a0 H0] Hr Hnm Hn Hm.
  destruct (run_follows i s0 tr a0 Hr H0) as [Hf _].
  assert (states_of i (s0 :: tr) = a0 :: states_of i tr) as Heq.
  { unfold states_of. simpl. by rewrite H0. }
  rewrite Heq in Hn, Hm.
  assert (follows a (drop (S n) (a0 :: states_of i tr))) as Hfa.
  { destruct n as [|n]; simpl in *.
    - simplify_eq. by rewrite drop_0.
    - by eapply follows_drop. }
  eapply follows_rank; [exact Hfa|].
  apply list_elem_of_lookup. exists (m - S n)%nat.
  rewrite lookup_drop. by replace (S n + (m - S n))%nat with m by lia.
Qed.

(** X3: along any run each forward move of the lifecycle of a stage is made
    at most once; and a call of [enter_init_stage] ([enter_commit_stage])
    returns true only by making the move from UNINITIALIZED to INITIALIZING
    (from READY to COMMITTING).  So at most one caller per stage is told to
    perform the initialisation, and at most one the commit. *)
Theorem one_owner_per_transition (s0 : system) (tr : list system) (i : nat) :
  is_Some (stage_state (server s0) !! i) →
  run s0 tr →
  (∀ a b (n m : nat),
     edge a b → b ≠ StageState.FAILED →
     states_of i (s0 :: tr) !! n = Some a →
     states_of i (s0 :: tr) !! S n = Some b →
     states_of i (s0 :: tr) !! m = Some a →
     states_of i (s0 :: tr) !! S m = Some b →
     n = m) ∧
  (∀ pc σ σ',
     enter_init_stage i pc σ = (σ', inr (Ok (PyBool true))) →
     stage_state σ !! i = Some StageState.UNINITIALIZED ∧
     stage_state σ' !! i = Some StageState.INITIALIZING) ∧
  (∀ pc σ σ',
     enter_commit_stage i pc σ = (σ', inr (Ok (PyBool true))) →
     stage_state σ !! i = Some StageState.READY ∧
     stage_state σ' !! i = Some StageState.COMMITTING).
Proof.
  intros H0 Hr. split_and!.
  - intros a b n m He Hb Hn HSn Hm HSm.
    destruct (edge_rank _ _ He) as [->|(_ & _ & Hrank)]; [done|].
    destruct (decide (n = m)) as [|Hne]; [done|]. exfalso.
    destruct (decide (n < m)%nat).
    + pose proof (run_rank_le s0 tr i (S n) m b a H0 Hr) as Hle.
      destruct (decide (S n = m)) as [<-|]; [|specialize (Hle ltac:(lia) HSn Hm); lia].
      rewrite HSn in Hm. simplify_eq. lia.
    + pose proof (run_rank_le s0 tr i (S m) n b a H0 Hr) as Hle.
      destruct (decide (S m = n)) as [<-|]; [|specialize (Hle ltac:(lia) HSm Hn); lia].
      rewrite HSm in Hn. simplify_eq. lia.
  - intros pc σ σ'. unfold enter_init_stage, _enter_stage_state_transition, getitem.
    destruct (stage_state σ !! i) as [s|] eqn:Hs; [|by destruct pc].
    assert (i < length (stage_state σ))%nat by eauto using lookup_lt_Some.
    destruct pc; repeat case_match; intros; simplify_eq/=.
    by rewrite list_lookup_insert_eq.
  - intros pc σ σ'. unfold enter_commit_stage, _enter_stage_state_transition, getitem.
    destruct (stage_state σ !! i) as [s|] eqn:Hs; [|by destruct pc].
    assert (i < length (stage_state σ))%nat by eauto using lookup_lt_Some.
    destruct pc; repeat case_match; intros; simplify_eq/=.
    by rewrite list_lookup_insert_eq.
Qed.

Lemma one_owner_per_transition_witness :
  is_Some (stage_state (server run_0) !! 0%nat) ∧
  run run_0 (play poisoning_schedule run_0) ∧
  states_of 0 (run_0 :: play poisoning_schedule run_0) !! 2%nat =
    Some StageState.UNINITIALIZED ∧
  states_of 0 (run_0 :: play poisoning_schedule run_0) !! 3%nat =
    Some StageState.INITIALIZING ∧
  (∀ a b (n m : nat),
     edge a b → b ≠ StageState.FAILED →
     states_of 0 (run_0 :: play poisoning_schedule run_0) !! n = Some a →
     states_of 0 (run_0 :: play poisoning_schedule run_0) !! S n = Some b →
     states_of 0 (run_0 :: play poisoning_schedule run_0) !! m = Some a →
     states_of 0 (run_0 :: play poisoning_schedule run_0) !! S m = Some b →
     n = m).
Proof.
  split; [by eexists|]. split; [apply play_run|].
  split; [reflexivity|]. split; [reflexivity|].
  apply (one_owner_per_transition run_0 (play poisoning_schedule run_0) 0);
    [by eexists | apply play_run].
Defined.

(** ** One computing caller per memo key *)

(** X4: along any run the entry of a memo key goes from NONE to WAITING at
    most once, and a call of [enter_task_memo] answers (false, None), "not
    memoized, compute it", only by making that move, in its locked block.
    So among the calls with the same memo key at most one is told to
    compute; every other one waits, gets the stored value, or fails. *)
Theorem one_miss_per_memo_key
    (s0 : system) (tr : list system) (k : nat * string) :
  run s0 tr →
  (∀ (n m : nat),
     entry_at k (s0 :: tr) n = Some (Sentinel MemoState.NONE) →
     entry_at k (s0 :: tr) (S n) = Some (Sentinel MemoState.WAITING) →
     entry_at k (s0 :: tr) m = Some (Sentinel MemoState.NONE) →
     entry_at k (s0 :: tr) (S m) = Some (Sentinel MemoState.WAITING) →
     n = m) ∧
  (∀ tid ks pc σ σ' task,
     tasks σ !! tid = Some task → get_memo_key task ks = k →
     enter_task_memo tid ks pc σ =
       (σ', inr (Ok (PyTuple [PyBool false; PyNone]))) →
     pc = MemoLocked ∧
     entry (task_memo σ) k = Sentinel MemoState.NONE ∧
     entry (task_memo σ') k = Sentinel MemoState.WAITING).
Proof.
  intros Hr. split.
  - intros n m Hn HSn Hm HSm.
    destruct (decide (n = m)) as [|Hne]; [done|]. exfalso.
    destruct (decide (n < m)%nat).
    + destruct (run_memo_le _ _ k (S n) m _ _ Hr ltac:(lia) HSn Hm)
        as [?|Hlt]; [done|simpl in Hlt; lia].
    + destruct (run_memo_le _ _ k (S m) n _ _ Hr ltac:(lia) HSm Hn)
        as [?|Hlt]; [done|simpl in Hlt; lia].
  - intros tid ks pc σ σ' task Ht <-. unfold enter_task_memo, getitem.
    destruct pc as [|k0 e0].
    + rewrite Ht.
      pose proof (task_memo_getitem_fst (task_memo σ) (get_memo_key task ks)) as H1.
      destruct (task_memo_getitem _ _) as [e m]. simpl in *.
      destruct e as [[]|v]; intros; simplify_eq/=.
      split_and!; [done | done |]. rewrite entry_insert. by rewrite decide_True.
    + destruct e0 as [[]|v]; try done.
      destruct (task_memo_getitem _ _). done.
Qed.

Lemma one_miss_per_memo_key_witness :
  let k := (1%nat, "a"%string) in
  let tr := play memo_schedule run_0 in
  run run_0 tr ∧
  entry_at k (run_0 :: tr) 1 = Some (Sentinel MemoState.NONE) ∧
  entry_at k (run_0 :: tr) 2 = Some (Sentinel MemoState.WAITING) ∧
  (∀ (n m : nat),
     entry_at k (run_0 :: tr) n = Some (Sentinel MemoState.NONE) →
     entry_at k (run_0 :: tr) (S n) = Some (Sentinel MemoState.WAITING) →
     entry_at k (run_0 :: tr) m = Some (Sentinel MemoState.NONE) →
     entry_at k (run_0 :: tr) (S m) = Some (Sentinel MemoState.WAITING) →
     n = m).
Proof.
  intros k tr. split; [apply play_run|]. split; [reflexivity|].
  split; [reflexivity|].
  apply (one_miss_per_memo_key run_0 tr k). apply play_run.
Defined.

(** ** Releasing names *)

Lemma remove_each_Ok (names : list (gset string)) i present l :
  names !! i = Some present →
  NoDup l → (∀ x, x ∈ l → x ∈ present) →
  remove_each names i l = (<[i:=present ∖ list_to_set l]> names, Ok ()).
Proof.
  intros Hi Hnd. revert names present Hi.
  induction Hnd as [|x l Hx Hnd IH]; intros names present Hi Hin; simpl.
  - rewrite difference_empty_L. by rewrite list_insert_id.
  - unfold getitem. rewrite Hi. rewrite decide_True by (apply Hin; by left).
    assert (i < length names)%nat as Hlt by eauto using lookup_lt_Some.
    rewrite (IH _ (present ∖ {[x]})).
    + rewrite list_insert_insert_eq. simpl.
      by rewrite difference_difference_l_L.
    + by rewrite list_lookup_insert_eq.
    + intros y Hy. apply elem_of_difference. split; [apply Hin; by right|].
      intros ->%elem_of_singleton. done.
Qed.

Lemma remove_each_KeyError (names : list (gset string)) i present l1 x l2 :
  names !! i = Some present →
  NoDup l1 → (∀ y, y ∈ l1 → y ∈ present) →
  x ∉ present ∨ x ∈ l1 →
  remove_each names i (l1 ++ x :: l2) =
    (<[i:=present ∖ list_to_set l1]> names, Raise KeyError).
Proof.
  intros Hi Hnd. revert names present Hi.
  induction Hnd as [|y l1 Hy Hnd IH]; intros names present Hi Hin Hx; simpl.
  - unfold getitem. rewrite Hi.
    destruct Hx as [Hx|Hx]; [|by apply elem_of_nil in Hx].
    rewrite decide_False by done.
    rewrite difference_empty_L. by rewrite list_insert_id.
  - unfold getitem. rewrite Hi. rewrite decide_True by (apply Hin; by left).
    assert (i < length names)%nat as Hlt by eauto using lookup_lt_Some.
    rewrite (IH _ (present ∖ {[y]})).
    + rewrite list_insert_insert_eq. simpl.
      by rewrite difference_difference_l_L.
    + by rewrite list_lookup_insert_eq.
    + intros z Hz. apply elem_of_difference. split; [apply Hin; by right|].
      intros ->%elem_of_singleton. done.
    + destruct Hx as [Hx|Hx].
      * left. by intros [? _]%elem_of_difference.
      * apply elem_of_cons in Hx as [->|Hx]; [left | by right].
        intros [_ Hne]%elem_of_difference. apply Hne. by apply elem_of_singleton.
Qed.

Lemma with_names_id σ : with_names σ (table_names σ) (blob_names σ) = σ.
Proof. by destruct σ. Qed.

(** X5: [remove_names] undoes [add_names]: when a call of [add_names] with
    lists that name nothing twice has succeeded, [remove_names] with the
    same lists succeeds and leaves the server exactly as it was before the
    names were added. *)
Theorem remove_names_undoes_add_names
    (i : nat) (tables blobs : list string) (σ : RunContextServer)
    (T B : gset string) :
  table_names σ !! i = Some T →
  blob_names σ !! i = Some B →
  NoDup tables → NoDup blobs →
  (∀ x, x ∈ tables → x ∉ T) → (∀ x, x ∈ blobs → x ∉ B) →
  (add_names i tables blobs σ).2 = Ok (PyDict [("success"%string, PyBool true)]) ∧
  remove_names i tables blobs (add_names i tables blobs σ).1 = (σ, Ok PyNone).
Proof.
  intros HT HB HndT HndB HfT HfB.
  assert (i < length (table_names σ))%nat as HltT by eauto using lookup_lt_Some.
  assert (i < length (blob_names σ))%nat as HltB by eauto using lookup_lt_Some.
  unfold add_names.
  rewrite (collect_duplicates_Ok _ _ T), (collect_duplicates_Ok _ _ B) by done.
  assert (filter (λ x, x ∈ T) tables = []) as ->.
  { apply filter_nil_iff. intros x Hx. by apply HfT. }
  assert (filter (λ x, x ∈ B) blobs = []) as ->.
  { apply filter_nil_iff. intros x Hx. by apply HfB. }
  rewrite bool_decide_eq_false_2 by (intros [H|H]; by apply H).
  rewrite (add_each_Ok _ _ T), (add_each_Ok _ _ B) by done.
  split; [reflexivity|]. unfold remove_names. simpl.
  rewrite (remove_each_Ok _ i (T ∪ list_to_set tables));
    [|by rewrite list_lookup_insert_eq|done|
     by (intros x Hx; apply elem_of_union_r; apply elem_of_list_to_set)].
  rewrite (remove_each_Ok _ i (B ∪ list_to_set blobs));
    [|by rewrite list_lookup_insert_eq|done|
     by (intros x Hx; apply elem_of_union_r; apply elem_of_list_to_set)].
  rewrite !list_insert_insert_eq.
  assert ((T ∪ list_to_set tables) ∖ list_to_set tables = T) as ->.
  { apply set_eq. intros x. rewrite elem_of_difference, elem_of_union,
      elem_of_list_to_set. specialize (HfT x). tauto. }
  assert ((B ∪ list_to_set blobs) ∖ list_to_set blobs = B) as ->.
  { apply set_eq. intros x. rewrite elem_of_difference, elem_of_union,
      elem_of_list_to_set. specialize (HfB x). tauto. }
  rewrite (list_insert_id (table_names σ) i T) by done.
  rewrite (list_insert_id (blob_names σ) i B) by done.
  f_equal. by destruct σ.
Qed.

Lemma remove_names_undoes_add_names_witness :
  table_names entered_server !! 0%nat = Some ∅ ∧
  blob_names entered_server !! 0%nat = Some ∅ ∧
  remove_names 0 ["t"; "u"]%string ["b"]%string
    (add_names 0 ["t"; "u"]%string ["b"]%string entered_server).1 =
    (entered_server, Ok PyNone).
Proof.
  split; [reflexivity|]. split; [reflexivity|].
  apply (remove_names_undoes_add_names 0 ["t"; "u"]%string ["b"]%string
           entered_server ∅ ∅); try reflexivity.
  - apply NoDup_cons. split; [|apply NoDup_singleton].
    intros H%list_elem_of_singleton. discriminate H.
  - apply NoDup_singleton.
  - intros x _. apply not_elem_of_empty.
  - intros x _. apply not_elem_of_empty.
Defined.

(** X6: unlike [add_names], [remove_names] is not all-or-nothing.  At the
    first table name that is not registered any more (because it never was,
    or because the list has already named it) the call raises KeyError; the
    names before it stay removed and no blob name is touched. *)
Theorem remove_names_stops_at_missing_name
    (i : nat) (l1 : list string) (x : string) (l2 blobs : list string)
    (σ : RunContextServer) (T : gset string) :
  table_names σ !! i = Some T →
  NoDup l1 → (∀ y, y ∈ l1 → y ∈ T) →
  x ∉ T ∨ x ∈ l1 →
  remove_names i (l1 ++ x :: l2) blobs σ =
    (with_names σ (<[i:=T ∖ list_to_set l1]> (table_names σ)) (blob_names σ),
     Raise KeyError).
Proof.
  intros HT Hnd Hin Hx. unfold remove_names.
  by rewrite (remove_each_KeyError _ i T l1 x l2 HT Hnd Hin Hx).
Qed.

Lemma remove_names_stops_at_missing_name_witness :
  let σ := (add_names 0 ["t"; "t"]%string [] entered_server).1 in
  (add_names 0 ["t"; "t"]%string [] entered_server).2 =
    Ok (PyDict [("success"%string, PyBool true)]) ∧
  table_names σ !! 0%nat = Some {["t"%string]} ∧
  remove_names 0 (["t"%string] ++ "t"%string :: []) [] σ =
    (with_names σ
       (<[0%nat:={["t"%string]} ∖ list_to_set ["t"%string]]> (table_names σ))
       (blob_names σ),
     Raise KeyError).
Proof.
  intros σ. split; [reflexivity|].
  assert (table_names σ !! 0%nat = Some {["t"%string]}) as HT.
  { vm_compute. reflexivity. }
  split; [exact HT|].
  apply (remove_names_stops_at_missing_name 0 ["t"%string] "t"%string [] []
           σ {["t"%string]} HT).
  - apply NoDup_singleton.
  - intros y Hy. apply list_elem_of_singleton in Hy as ->.
    by apply elem_of_singleton.
  - right. by apply list_elem_of_singleton.
Defined.

(** ** Finishing a task: rejected and repeated calls *)

(** X7: [did_finish_task] checks, in this order, that the lock manager is
    still there (else AssertionError), that the final state is one of the
    values 0 .. 3 of [FinalTaskState] (else ValueError) and that the task id
    is an index of the task list (else IndexError); a call rejected by one
    of the checks changes nothing in the server. *)
Theorem did_finish_task_rejected (tid : nat) (v : Z) (σ : RunContextServer) :
  (lock_manager σ = None →
     did_finish_task tid v FinishLocked σ = (σ, inr (Raise AssertionError))) ∧
  (is_Some (lock_manager σ) → ¬ (0 ≤ v ≤ 3) →
     did_finish_task tid v FinishLocked σ = (σ, inr (Raise ValueError))) ∧
  (is_Some (lock_manager σ) → 0 ≤ v ≤ 3 → tasks σ !! tid = None →
     did_finish_task tid v FinishLocked σ = (σ, inr (Raise IndexError))).
Proof.
  unfold did_finish_task. split_and!.
  - by intros ->.
  - intros [lm ->] Hv. unfold FinalTaskState.of_value.
    repeat case_decide; try lia. done.
  - intros [lm ->] Hv Ht. unfold FinalTaskState.of_value, getitem. rewrite Ht.
    repeat case_decide; try lia; done.
Qed.

Lemma did_finish_task_rejected_witness :
  lock_manager entered_server = Some {| released := [] |} ∧
  tasks entered_server !! 7%nat = None ∧
  did_finish_task 7 1 FinishLocked entered_server =
    (entered_server, inr (Raise IndexError)).
Proof.
  split; [reflexivity|]. split; [reflexivity|].
  apply (did_finish_task_rejected 7 1 entered_server);
    [by eexists|lia|reflexivity].
Defined.

Lemma filter_none {A} (P : A → Prop) `{!∀ x, Decision (P x)} (l : list A) :
  (∀ x, x ∈ l → ¬ P x) → filter P l = [].
Proof.
  induction l as [|x l IH]; intros Hall; [done|].
  rewrite filter_cons, decide_False by (apply Hall; by left).
  apply IH. intros y Hy. apply Hall. by right.
Qed.

Lemma negative_logs_all (rc : list Z) (l : list nat) :
  (∀ s, s ∈ l → ∃ n, rc !! s = Some n ∧ n ≤ 0) →
  length (negative_logs rc l) = length l ∧
  ∀ s n, s ∈ l → rc !! s = Some n →
         NegativeRefCount (n - 1) s ∈ negative_logs rc l.
Proof.
  induction l as [|x l IH]; intros Hall.
  - split; [done|]. intros s n Hs. by apply elem_of_nil in Hs.
  - destruct (Hall x) as (n & Hn & Hle); [by left|].
    destruct IH as [IHlen IHin]; [intros s Hs; apply Hall; by right|].
    unfold negative_logs in *. simpl. rewrite Hn.
    rewrite decide_True by lia. simpl. split; [by f_equal|].
    intros s m Hs Hm. apply elem_of_cons in Hs as [->|Hs].
    + simplify_eq. by left.
    + right. by apply IHin.
Qed.

(** X8: a [did_finish_task] that finds the counters of all upstream stages of
    its task at 0 or below (the task, or more tasks than were counted, have
    already finished) releases no lock: it takes each counter one further
    below 0, writes one error to the log per upstream stage, and returns
    normally. *)
Theorem did_finish_task_below_zero
    (tid : nat) (final_state : FinalTaskState.t) (σ : RunContextServer)
    (lm : LockManager) (task : Task) :
  lock_manager σ = Some lm →
  tasks σ !! tid = Some task →
  NoDup (upstream_stages task) →
  (∀ s, s ∈ upstream_stages task → ∃ n, ref_count σ !! s = Some n ∧ n ≤ 0) →
  ∃ σ1,
    run_alone 2
      (T_did_finish_task tid (FinalTaskState.value final_state) FinishLocked) σ
      = (σ1, T_returned (Ok PyNone)) ∧
    lock_manager σ1 = Some lm ∧
    (∀ s n, s ∈ upstream_stages task → ref_count σ !! s = Some n →
            ref_count σ1 !! s = Some (n - 1) ∧
            NegativeRefCount (n - 1) s ∈ logger σ1) ∧
    length (logger σ1) =
      (length (logger σ) + length (upstream_stages task))%nat.
Proof.
  intros Hlm Ht Hnd Hall.
  set (s0 := {| fs_ref_count := ref_count σ; fs_logger := logger σ;
                stages_to_release := [] |}).
  assert (∀ s, s ∈ upstream_stages task → (s < length (ref_count σ))%nat)
    as Hin.
  { intros s Hs. destruct (Hall s Hs) as (n & Hn & _).
    eauto using lookup_lt_Some. }
  destruct (for_each_decr_ref_count (upstream_stages task) s0 Hin)
    as (s' & Hrun & Hlen & Hrc).
  destruct (for_each_decr_ref_count_NoDup _ _ _ Hnd Hrun) as [Hrel Hlog].
  simpl in Hrel, Hlog, Hrc.
  assert (filter (λ x, ref_count σ !! x = Some 1) (upstream_stages task) = [])
    as Hnone.
  { apply filter_none. intros x Hx Hx1.
    destruct (Hall x Hx) as (n & Hn & Hle). rewrite Hn in Hx1.
    simplify_eq. lia. }
  rewrite Hnone in Hrel. simpl in Hrel.
  destruct (negative_logs_all (ref_count σ) (upstream_stages task) Hall)
    as [Hneglen Hnegin].
  exists (with_logger (with_ref_count σ (fs_ref_count s')) (fs_logger s')).
  split_and!.
  - cbn [run_alone thread_step]. unfold did_finish_task at 1.
    rewrite Hlm, of_value_value. unfold getitem. rewrite Ht.
    fold s0. rewrite Hrun, Hrel. done.
  - done.
  - intros s n Hs Hn. simpl. split.
    + rewrite Hrc, Hn, occurrences_NoDup by done. simpl.
      by rewrite decide_True.
    + rewrite Hlog. apply elem_of_app. right. by apply Hnegin.
  - simpl. by rewrite Hlog, length_app, Hneglen.
Qed.

Lemma did_finish_task_below_zero_witness :
  let σ := (run_alone 3 (T_did_finish_task 2 1 FinishLocked)
              (run_alone 3 (T_did_finish_task 1 1 FinishLocked)
                 entered_server).1).1 in
  ref_count σ = [0; 0] ∧
  lock_manager σ = Some {| released := [0%nat] |} ∧
  tasks σ !! 2%nat = Some task_2 ∧
  ∃ σ1,
    run_alone 2
      (T_did_finish_task 2 (FinalTaskState.value FinalTaskState.COMPLETED)
         FinishLocked) σ = (σ1, T_returned (Ok PyNone)) ∧
    lock_manager σ1 = Some {| released := [0%nat] |} ∧
    (∀ s n, s ∈ upstream_stages task_2 → ref_count σ !! s = Some n →
            ref_count σ1 !! s = Some (n - 1) ∧
            NegativeRefCount (n - 1) s ∈ logger σ1) ∧
    length (logger σ1) =
      (length (logger σ) + length (upstream_stages task_2))%nat.
Proof.
  intros σ. split; [reflexivity|]. split; [reflexivity|].
  split; [reflexivity|].
  apply (did_finish_task_below_zero 2 FinalTaskState.COMPLETED σ
           {| released := [0%nat] |} task_2).
  - reflexivity.
  - reflexivity.
  - simpl. apply NoDup_singleton.
  - intros s Hs. apply list_elem_of_singleton in Hs as ->.
    exists 0. split; [reflexivity | lia].
Defined.

(** ** Validating a stage lock *)

Lemma validate_loop_logged name n s rest :
  s ≠ LockState.UNCERTAIN →
  validate_loop name true (replicate n LockState.UNCERTAIN ++ s :: rest) =
    (known_outcome name s, []).
Proof.
  intros Hs. induction n as [|n IH]; simpl.
  - by destruct s.
  - by rewrite IH.
Qed.

Lemma validate_loop_logged_waiting name n :
  validate_loop name true (replicate n LockState.UNCERTAIN) =
    (StillUncertain, []).
Proof. induction n as [|n IH]; simpl; [done|]. by rewrite IH. Qed.

(** X9: [validate_stage_lock] is decided by the first state the lock manager
    reports that is not UNCERTAIN: it returns when that state is LOCKED and
    raises LockError when it is UNLOCKED or INVALID, whatever is reported
    afterwards; while only UNCERTAIN is reported it keeps polling.  The
    message that it is waiting is logged once if the first report is
    UNCERTAIN, however long the wait, and not at all otherwise. *)
Theorem validate_stage_lock_first_known
    (i : nat) (σ : RunContextServer) (stage : Stage)
    (n : nat) (s : LockState.t) (rest : list LockState.t) :
  is_Some (lock_manager σ) →
  stages σ !! i = Some stage →
  s ≠ LockState.UNCERTAIN →
  let infos := if decide (n = 0%nat) then []
               else [waiting_message (stage_name stage)] in
  validate_stage_lock i (replicate n LockState.UNCERTAIN ++ s :: rest) σ =
    (known_outcome (stage_name stage) s, infos) ∧
  validate_stage_lock i (replicate n LockState.UNCERTAIN) σ =
    (StillUncertain, infos).
Proof.
  intros [lm Hlm] Hst Hs infos. unfold validate_stage_lock, getitem.
  rewrite Hlm, Hst. destruct n as [|n]; simpl.
  - split; [by destruct s | done].
  - rewrite validate_loop_logged by done.
    rewrite validate_loop_logged_waiting. done.
Qed.

Lemma validate_stage_lock_first_known_witness :
  is_Some (lock_manager entered_server) ∧
  stages entered_server !! 1%nat = Some stage_B ∧
  validate_stage_lock 1
    (replicate 2 LockState.UNCERTAIN ++
       LockState.INVALID :: [LockState.LOCKED]) entered_server =
    (LockError "Lock for stage 'B' is invalid.",
     ["Waiting for stage 'B' lock state to become known again..."%string]).
Proof.
  split; [by eexists|]. split; [reflexivity|].
  apply (validate_stage_lock_first_known 1 entered_server stage_B 2
           LockState.INVALID [LockState.LOCKED]);
    [by eexists | reflexivity | discriminate].
Defined.

(** * Contexts *)

Section base_context.
Import BaseContext.

Lemma enter_has_token self : entered_has_token (__enter__ self).
Proof.
  unfold entered_has_token, __enter__. destruct (_token self); simpl; eauto.
Qed.

Lemma exit_has_token self :
  entered_has_token self →
  (__exit__ self).2 = Ok () ∧ entered_has_token (__exit__ self).1.
Proof.
  unfold entered_has_token, __exit__. intros Hinv.
  case_decide as Hc.
  - destruct Hinv as [old ->]; [lia|]. simpl. split; [done|]. lia.
  - simpl. split; [done|]. intros H. apply Hinv. lia.
Qed.

Lemma calls_has_token l self :
  entered_has_token self →
  (calls l self).2 = Ok () ∧ entered_has_token (calls l self).1.
Proof.
  revert self. induction l as [|[] l IH]; intros self Hinv; simpl.
  - done.
  - apply IH, enter_has_token.
  - destruct (exit_has_token self Hinv) as [Hok Hinv'].
    destruct (__exit__ self) as [self' r]. simpl in *. subst r. by apply IH.
Qed.

(** X10: on a context that starts out not entered, no sequence of
    [__enter__] and [__exit__] calls, balanced or not, makes [__exit__]
    raise its RuntimeError: whenever the enter counter is at least 1 the
    context holds the token it needs to reset the context variable. *)
Theorem exit_never_raises (l : list call) (me : nat) (var : option nat) :
  (calls l (fresh me var)).2 = Ok () ∧
  entered_has_token (calls l (fresh me var)).1.
Proof. apply calls_has_token. unfold entered_has_token, fresh. simpl. lia. Qed.

Lemma calls_app l1 l2 self :
  calls (l1 ++ l2) self =
    match calls l1 self with
    | (self', Ok _) => calls l2 self'
    | (self', Raise e) => (self', Raise e)
    end.
Proof.
  revert self. induction l1 as [|[] l1 IH]; intros self; simpl; [done|apply IH|].
  destruct (__exit__ self) as [self' [[]|e]]; [apply IH | done].
Qed.

Lemma calls_enters (n : nat) self :
  _token self = None → _enter_counter self = 0 →
  calls (replicate (S n) Enter) self =
    ({| id := id self; _enter_counter := Z.of_nat (S n);
        _token := Some (_context_var self); _context_var := Some (id self);
        opened := S (opened self); closed := closed self |}, Ok ()).
Proof.
  intros Ht Hc. induction n as [|n IH].
  - simpl. unfold __enter__. rewrite Ht, Hc. simpl. done.
  - replace (S (S n)) with (S n + 1)%nat by lia.
    rewrite replicate_add, calls_app, IH. simpl. unfold __enter__. simpl.
    rewrite decide_False by lia. do 2 f_equal. lia.
Qed.

Lemma calls_inner_exits (j : nat) self :
  Z.of_nat j < _enter_counter self →
  calls (replicate j Exit) self =
    ({| id := id self; _enter_counter := _enter_counter self - Z.of_nat j;
        _token := _token self; _context_var := _context_var self;
        opened := opened self; closed := closed self |}, Ok ()).
Proof.
  revert self. induction j as [|j IH]; intros self Hlt; simpl.
  - destruct self. simpl. do 2 f_equal. lia.
  - unfold __exit__ at 1. rewrite decide_False by lia.
    rewrite IH by (simpl; lia). simpl. do 2 f_equal. lia.
Qed.

(** X11: [n] nested entries of a context that was not entered, followed by
    exits.  [open] is called once, by the first entry.  After fewer than [n]
    exits the context is still the current one ([get] returns it) and
    [close] has not been called; the [n]-th exit puts the context variable
    back to the value it had before the first entry, drops the token, and
    calls [close], once. *)
Theorem nested_enter_exit (n j : nat) (self : t) :
  _token self = None →
  _enter_counter self = 0 →
  (j ≤ n)%nat →
  calls (replicate (S n) Enter ++ replicate j Exit) self =
    ({| id := id self; _enter_counter := Z.of_nat (S n) - Z.of_nat j;
        _token := Some (_context_var self); _context_var := Some (id self);
        opened := S (opened self); closed := closed self |}, Ok ()) ∧
  calls (replicate (S n) Enter ++ replicate (S n) Exit) self =
    ({| id := id self; _enter_counter := 0;
        _token := None; _context_var := _context_var self;
        opened := S (opened self); closed := S (closed self) |}, Ok ()).
Proof.
  intros Ht Hc Hj. split.
  - rewrite calls_app, calls_enters by done.
    rewrite calls_inner_exits by (simpl; lia). done.
  - replace (S n) with (n + 1)%nat at 2 by lia.
    rewrite replicate_add, app_assoc, calls_app.
    rewrite calls_app, calls_enters by done.
    rewrite calls_inner_exits by (simpl; lia). simpl.
    unfold __exit__. simpl. rewrite decide_True by lia. simpl.
    do 2 f_equal. lia.
Qed.

Lemma nested_enter_exit_witness :
  _token (fresh 7 (Some 3%nat)) = None ∧
  _enter_counter (fresh 7 (Some 3%nat)) = 0 ∧
  calls (replicate 3 Enter ++ replicate 3 Exit) (fresh 7 (Some 3%nat)) =
    ({| id := 7; _enter_counter := 0; _token := None;
        _context_var := Some 3%nat; opened := 1; closed := 1 |}, Ok ()).
Proof.
  split; [reflexivity|]. split; [reflexivity|].
  apply (nested_enter_exit 2 0 (fresh 7 (Some 3%nat)));
    [reflexivity | reflexivity | lia].
Defined.
End base_context.

(** * Further properties of the materialisation wrapper *)

Section wrapper_memo.
Import MaterialisationWrapper.
Implicit Types (memo : gmap nat (gmap string entry)).

Lemma memo_result_insert memo sch key d e sch' key' :
  memo !! sch = Some d →
  memo_result (<[sch:=<[key:=e]> d]> memo) sch' key' =
    if decide (sch = sch' ∧ key = key') then e else memo_result memo sch' key'.
Proof.
  intros Hd. unfold memo_result.
  destruct (decide (sch = sch')) as [<-|Hs].
  - rewrite lookup_insert_eq, Hd. simpl.
    destruct (decide (key = key')) as [<-|Hk].
    + rewrite lookup_insert_eq. by rewrite decide_True.
    + rewrite lookup_insert_ne by done. rewrite decide_False by (by intros [_ ?]).
      done.
  - rewrite lookup_insert_ne by done. by rewrite decide_False by (by intros [? _]).
Qed.

Lemma memo_result_claimed memo sch key sch' key' :
  memo_result (claimed memo sch key) sch' key' =
    if decide (sch = sch' ∧ key = key') then Condition
    else memo_result memo sch' key'.
Proof.
  unfold claimed, memo_result.
  destruct (decide (sch = sch')) as [<-|Hs].
  - rewrite lookup_insert_eq. simpl.
    destruct (decide (key = key')) as [<-|Hk].
    + rewrite lookup_insert_eq. by rewrite decide_True.
    + rewrite lookup_insert_ne by done. rewrite decide_False by (by intros [_ ?]).
      done.
  - rewrite lookup_insert_ne by done. by rewrite decide_False by (by intros [? _]).
Qed.

(** What comes out of the two ways to produce a result, started on the memo
    in which the call has put its [Condition]. *)
Lemma evaluate_claimed self store task bound sch key memo :
  let r := evaluate self store task bound sch key (claimed memo sch key) in
  match r.2 with
  | Returned v =>
      ∀ sch' key', memo_result r.1.1 sch' key' =
        if decide (sch = sch' ∧ key = key') then Result v
        else memo_result memo sch' key'
  | Raised e => r.1.1 = claimed memo sch key
  | _ => False
  end.
Proof.
  destruct (claimed_lookup memo sch key) as [H1 H2].
  unfold evaluate.
  destruct (dematerialise_task_inputs _ _ _ _) as [[a' k']|e]; simpl; [|done].
  destruct (fn self a' k') as [res|e]; simpl; [|done].
  destruct (materialise_task store task res) as [mr|e]; simpl; [|done].
  rewrite (store_in_memo_Condition mr sch key _ _ H1 H2). simpl.
  intros sch' key'. rewrite (memo_result_insert _ _ _ _ _ _ _ H1).
  case_decide; [done|]. rewrite memo_result_claimed. by rewrite decide_False.
Qed.

Lemma use_cache_claimed store task sch key memo :
  let r := use_cache store task sch key (claimed memo sch key) in
  match r.2 with
  | Ok v =>
      ∀ sch' key', memo_result r.1.1 sch' key' =
        if decide (sch = sch' ∧ key = key') then Result v
        else memo_result memo sch' key'
  | Raise e => r.1.1 = claimed memo sch key
  end.
Proof.
  destruct (claimed_lookup memo sch key) as [H1 H2].
  unfold use_cache.
  destruct (retrieve_cached_output store task) as [c|e]; simpl; [|done].
  destruct (copy_cached_output_to_working_schema store c task) as [[]|e];
    simpl; [|done].
  rewrite (store_in_memo_Condition c sch key _ _ H1 H2). simpl.
  intros sch' key'. rewrite (memo_result_insert _ _ _ _ _ _ _ H1).
  case_decide; [done|]. rewrite memo_result_claimed. by rewrite decide_False.
Qed.

(** A call that misses the memo: where its result is afterwards. *)
Lemma call_miss_memo
    self store polls a k task memo bound sch j key :
  fn_signature_bind self a k = Ok bound →
  schema task = Some sch →
  ensure_schema_is_ready store sch = Ok () →
  json_encode store (arguments bound) = Ok j →
  compute_task_cache_key store task j = Ok key →
  memo_result memo sch key = _nil →
  let r := __call__ self store polls a k (Some task) memo in
  match r.2 with
  | Returned v =>
      ∀ sch' key', memo_result r.1.1 sch' key' =
        if decide (sch = sch' ∧ key = key') then Result v
        else memo_result memo sch' key'
  | Raised e => r.1.1 = claimed memo sch key
  | _ => False
  end.
Proof.
  intros Hb Hs He Hj Hk Hm r. unfold r.
  rewrite (call_memo_miss _ _ _ _ _ _ _ _ _ _ _ Hb Hs He Hj Hk Hm).
  pose proof (evaluate_claimed self store (set_cache_key task key) bound
                sch key memo) as Hev.
  pose proof (use_cache_claimed store (set_cache_key task key) sch key memo)
    as Huc.
  cbv zeta in *.
  destruct (lazy task); simpl.
  - destruct (evaluate _ _ _ _ _ _ _) as [[m1 e1] o1]. simpl in *. done.
  - destruct (use_cache _ _ _ _ _) as [[m1 e1] [c|e]]; simpl in *; [done|].
    subst m1. destruct (is_CacheError e); simpl; [|done].
    destruct (evaluate _ _ _ _ _ _ _) as [[m2 e2] o2]. simpl in *. done.
Qed.
End wrapper_memo.

Section wrapper_extras.
Import MaterialisationWrapper.

(** X12: a call of the wrapper that finds no memo entry for its cache key and
    returns a value leaves that value in the memo under the key and changes
    no other entry; and every later call with the same arguments for the
    task is answered from the memo: it returns that value (a copy) without
    asking the store for a cached output, dematerialising inputs or
    running the user function. *)
Theorem second_call_is_memoized
    (self : MaterialisationWrapper.t) (store : PipeDAGStore)
    (polls polls' : list entry) (a k : pyval) (task : MaterialisingTask)
    (memo : gmap nat (gmap string entry))
    (bound : BoundArguments) (sch : nat) (j key : string) (v : pyval) :
  fn_signature_bind self a k = Ok bound →
  schema task = Some sch →
  ensure_schema_is_ready store sch = Ok () →
  json_encode store (arguments bound) = Ok j →
  compute_task_cache_key store task j = Ok key →
  memo_result memo sch key = _nil →
  let r := __call__ self store polls a k (Some task) memo in
  r.2 = Returned v →
  memo_result r.1.1 sch key = Result v ∧
  (∀ sch' key', (sch', key') ≠ (sch, key) →
     memo_result r.1.1 sch' key' = memo_result memo sch' key') ∧
  (__call__ self store polls' a k (Some task) r.1.1).2 = Memoized (Result v) ∧
  (__call__ self store polls' a k (Some task) r.1.1).1.2 =
    [Call_ensure_schema_is_ready sch].
Proof.
  intros Hb Hs He Hj Hk Hm r Hr.
  pose proof (call_miss_memo self store polls a k task memo bound sch j key
                Hb Hs He Hj Hk Hm) as Hmemo.
  cbv zeta in Hmemo. fold r in Hmemo. rewrite Hr in Hmemo.
  assert (memo_result r.1.1 sch key = Result v) as Hres.
  { rewrite Hmemo. by rewrite decide_True. }
  split; [exact Hres|]. split.
  - intros sch' key' Hne. rewrite Hmemo. rewrite decide_False; [done|].
    intros [-> ->]. done.
  - rewrite (call_memo_hit self store polls' a k task r.1.1 bound sch j key
               Hb Hs He Hj Hk (Result v) Hres) by done.
    split; [by destruct polls' | done].
Qed.

Lemma second_call_is_memoized_witness :
  let r := __call__ return_0 empty_store [] (PyTuple []) (PyDict [])
             (Some eager_task) ∅ in
  memo_result (∅ : gmap nat (gmap string entry)) 0 "out" = _nil ∧
  r.2 = Returned (PyInt 0) ∧
  (__call__ return_0 empty_store [] (PyTuple []) (PyDict [])
     (Some eager_task) r.1.1).2 = Memoized (Result (PyInt 0)).
Proof.
  intros r. split; [reflexivity|]. split; [reflexivity|].
  apply (second_call_is_memoized return_0 empty_store [] []
           (PyTuple []) (PyDict []) eager_task ∅
           {| arguments := PyDict []; args := PyTuple []; kwargs := PyDict [] |}
           0%nat "[]"%string "out"%string (PyInt 0));
    reflexivity.
Defined.



(** X14: [task_state_handler] never drops a result.  Whatever the task and
    its new state, an entry of the memo that is not a [Condition] reads the
    same afterwards; and when the new state is not a failure, or the task
    has no cache key or no schema yet, nothing is notified and every entry
    reads the same. *)
Theorem task_state_handler_keeps_results
    (task : MaterialisingTask) (is_failed : bool)
    (memo : gmap nat (gmap string entry)) :
  let h := task_state_handler task is_failed memo in
  (∀ sch key, memo_result memo sch key ≠ Condition →
     memo_result h.1 sch key = memo_result memo sch key) ∧
  (is_failed = false ∨ cache_key task = None ∨ schema task = None →
     h.2 = [] ∧
     ∀ sch key, memo_result h.1 sch key = memo_result memo sch key).
Proof.
  unfold task_state_handler.
  destruct (cache_key task) as [key|], (schema task) as [sch|];
    try (split; [done | intros; split; done]).
  destruct is_failed; [|split; [done | intros; split; done]].
  assert (∀ sch' key', memo_result (memo_getitem memo sch).2 sch' key' =
                       memo_result memo sch' key') as Hget.
  { intros sch' key'. unfold memo_getitem, memo_result.
    destruct (memo !! sch) eqn:Hd; [done|]. simpl.
    destruct (decide (sch = sch')) as [<-|Hne].
    - by rewrite lookup_insert_eq, Hd.
    - by rewrite lookup_insert_ne. }
  pose proof (memo_getitem_fst memo sch) as H1.
  pose proof (memo_getitem_snd memo sch) as H2.
  destruct (memo_getitem memo sch) as [d memo1]. simpl in *. subst d.
  split.
  - intros sch' key' Hne.
    destruct (default _nil (default ∅ (memo !! sch) !! key)) eqn:Hk;
      simpl; try apply Hget.
    rewrite (memo_result_insert _ _ _ _ _ _ _ H2). case_decide as Hd.
    + destruct Hd as [<- <-]. exfalso. apply Hne. unfold memo_result. done.
    + apply Hget.
  - intros [?|[?|?]]; done.
Qed.

Lemma task_state_handler_keeps_results_witness :
  let memo : gmap nat (gmap string entry) :=
    {[ 0%nat := {[ "out"%string := Result (PyInt 0) ]} ]} in
  let task := set_cache_key eager_task "out" in
  memo_result memo 0 "out" = Result (PyInt 0) ∧
  memo_result (task_state_handler task true memo).1 0 "out" =
    memo_result memo 0 "out".
Proof.
  intros memo task. split; [reflexivity|].
  apply (proj1 (task_state_handler_keeps_results task true memo)).
  intros H. vm_compute in H. discriminate H.
Defined.

(** X15: of the errors raised inside the [try] of a call for a task that is
    not lazy, only CacheError leads to a recomputation.  Any other error of
    the retrieval, or of the copy into the working schema, ends the call:
    the error is raised, the user function is not run and the [Condition]
    stays in the memo.  A CacheError raised by the copy, after a successful
    retrieval, is caught like one raised by the retrieval: the call goes on
    to evaluate the function. *)
Theorem only_CacheError_recomputes
    (self : MaterialisationWrapper.t) (store : PipeDAGStore)
    (polls : list entry) (a k : pyval) (task : MaterialisingTask)
    (memo : gmap nat (gmap string entry))
    (bound : BoundArguments) (sch : nat) (j key : string) :
  lazy task = false →
  fn_signature_bind self a k = Ok bound →
  schema task = Some sch →
  ensure_schema_is_ready store sch = Ok () →
  json_encode store (arguments bound) = Ok j →
  compute_task_cache_key store task j = Ok key →
  memo_result memo sch key = _nil →
  let r := __call__ self store polls a k (Some task) memo in
  let task' := set_cache_key task key in
  (∀ e, retrieve_cached_output store task' = Raise e → e ≠ CacheError →
     r = (claimed memo sch key,
          [Call_ensure_schema_is_ready sch; Call_retrieve_cached_output],
          Raised e)) ∧
  (∀ c e, retrieve_cached_output store task' = Ok c →
     copy_cached_output_to_working_schema store c task' = Raise e →
     e ≠ CacheError →
     r = (claimed memo sch key,
          [Call_ensure_schema_is_ready sch; Call_retrieve_cached_output;
           Call_copy_cached_output_to_working_schema c],
          Raised e)) ∧
  (∀ c, retrieve_cached_output store task' = Ok c →
     copy_cached_output_to_working_schema store c task' = Raise CacheError →
     r = (let '(memo', evs', o) :=
            evaluate self store task' bound sch key (claimed memo sch key) in
          (memo',
           [Call_ensure_schema_is_ready sch; Call_retrieve_cached_output;
            Call_copy_cached_output_to_working_schema c] ++ evs', o))).
Proof.
  intros Hlazy Hb Hs He Hj Hk Hm r task'. unfold r.
  rewrite (call_memo_miss _ _ _ _ _ _ _ _ _ _ _ Hb Hs He Hj Hk Hm).
  cbv zeta. rewrite Hlazy. simpl. fold task'. unfold use_cache. split_and!.
  - intros e -> Hne. simpl. by destruct e.
  - intros c e -> -> Hne. simpl. by destruct e.
  - intros c -> ->. simpl.
    by destruct (evaluate _ _ _ _ _ _ _) as [[m1 e1] o1].
Qed.

Lemma only_CacheError_recomputes_witness :
  let broken := {| ensure_schema_is_ready := λ _, Ok ();
                   json_encode := λ _, Ok "[]"%string;
                   compute_task_cache_key := λ task _, Ok (name task);
                   retrieve_cached_output := λ _, Raise KeyError;
                   copy_cached_output_to_working_schema := λ _ _, Ok ();
                   dematerialise_task_inputs := λ _ args kwargs, Ok (args, kwargs);
                   materialise_task := λ _ result_, Ok result_ |} in
  lazy eager_task = false ∧
  (KeyError ≠ CacheError →
   __call__ return_0 broken [] (PyTuple []) (PyDict []) (Some eager_task) ∅ =
     (claimed ∅ 0 "out",
      [Call_ensure_schema_is_ready 0; Call_retrieve_cached_output],
      Raised KeyError)).
Proof.
  intros broken. split; [reflexivity|].
  apply (only_CacheError_recomputes return_0 broken []
           (PyTuple []) (PyDict []) eager_task ∅
           {| arguments := PyDict []; args := PyTuple []; kwargs := PyDict [] |}
           0%nat "[]"%string "out"%string);
    reflexivity.
Defined.

Lemma wait_for_result_first (n : nat) (m : entry) (rest : list entry) :
  is_Condition m = false →
  wait_for_result Condition (replicate n Condition ++ m :: rest) = Memoized m ∧
  wait_for_result Condition (replicate n Condition) = Blocked.
Proof.
  intros Hm. induction n as [|n IH]; simpl; [|done].
  split; [|done]. by destruct m, rest.
Qed.

(** X16: a call of the wrapper that finds the [Condition] of a running call
    under its cache key makes no call to the store beyond
    [ensure_schema_is_ready] and does not run the user function; it returns
    (a copy of) the first entry it reads, at its wake-ups, that is not a
    [Condition], and waits as long as it reads one.  That entry is the
    result of the running call, or, when that call has failed and
    [task_state_handler] has reset the entry, the placeholder [_nil]
    itself: the waiting call does not compute then. *)
Theorem waiting_call_returns_first_entry
    (self : MaterialisationWrapper.t) (store : PipeDAGStore)
    (a k : pyval) (task : MaterialisingTask)
    (memo : gmap nat (gmap string entry))
    (bound : BoundArguments) (sch : nat) (j key : string)
    (n : nat) (m : entry) (rest : list entry) :
  fn_signature_bind self a k = Ok bound →
  schema task = Some sch →
  ensure_schema_is_ready store sch = Ok () →
  json_encode store (arguments bound) = Ok j →
  compute_task_cache_key store task j = Ok key →
  memo_result memo sch key = Condition →
  is_Condition m = false →
  __call__ self store (replicate n Condition ++ m :: rest) a k (Some task) memo
    = ((memo_getitem memo sch).2, [Call_ensure_schema_is_ready sch],
       Memoized m) ∧
  __call__ self store (replicate n Condition) a k (Some task) memo
    = ((memo_getitem memo sch).2, [Call_ensure_schema_is_ready sch], Blocked).
Proof.
  intros Hb Hs He Hj Hk Hc Hm.
  destruct (wait_for_result_first n m rest Hm) as [H1 H2].
  rewrite !(call_memo_hit self store _ a k task memo bound sch j key
              Hb Hs He Hj Hk Condition Hc) by done.
  by rewrite H1, H2.
Qed.

Lemma waiting_call_returns_first_entry_witness :
  let memo := claimed ∅ 0 "out" in
  memo_result memo 0 "out" = Condition ∧
  __call__ return_0 empty_store (replicate 2 Condition ++ _nil :: [])
    (PyTuple []) (PyDict []) (Some eager_task) memo =
    ((memo_getitem memo 0).2, [Call_ensure_schema_is_ready 0], Memoized _nil).
Proof.
  intros memo. split; [reflexivity|].
  apply (waiting_call_returns_first_entry return_0 empty_store
           (PyTuple []) (PyDict []) eager_task memo
           {| arguments := PyDict []; args := PyTuple []; kwargs := PyDict [] |}
           0%nat "[]"%string "out"%string 2 _nil []);
    reflexivity.
Defined.
End wrapper_extras.

(** * The materialisation wrapper: lazy tasks and the cache *)

Section wrapper_claims.
Import MaterialisationWrapper.
Implicit Types (memo : gmap nat (gmap string entry)).






End wrapper_claims.





Example eager_task_cache_miss :
  let r := MaterialisationWrapper.__call__ return_0 empty_store []
             (PyTuple []) (PyDict []) (Some eager_task) ∅ in
  r.2 = MaterialisationWrapper.Returned (PyInt 0) ∧
  r.1.2 = [Call_ensure_schema_is_ready 0; Call_retrieve_cached_output;
           Call_dematerialise_task_inputs; Call_fn (PyTuple []) (PyDict []);
           Call_materialise_task (PyInt 0); Call_notify_all].
Proof. vm_compute. by split. Qed.

(** ** The client proxy: [RunContext.init_stage], [RunContext.commit_stage], [task_memo] *)

Lemma run_alone_returned fuel r σ :
  run_alone fuel (T_returned r) σ = (σ, T_returned r).
Proof. by destruct fuel. Qed.

Lemma run_alone_mono k fuel t σ σ' r :
  (k ≤ fuel)%nat →
  run_alone k t σ = (σ', T_returned r) →
  run_alone fuel t σ = (σ', T_returned r).
Proof.
  revert fuel t σ. induction k as [|k IH]; intros fuel t σ Hle Hk.
  - simpl in Hk. injection Hk as -> ->. apply run_alone_returned.
  - destruct fuel as [|fuel]; [lia|]. simpl in *.
    destruct (thread_step t σ) as [[σ1 t1]|] eqn:Hst; [|done].
    apply IH; [lia|done].
Qed.

Lemma request_returns k fuel t σ σ' r :
  (k ≤ fuel)%nat →
  run_alone k t σ = (σ', T_returned r) →
  RunContext._request fuel t σ =
    (σ', Some match r with
              | Ok v => Return v
              | Raise e => Throw (RemoteProcessError e)
              end).
Proof.
  intros Hle Hk. unfold RunContext._request.
  rewrite (run_alone_mono k fuel t σ σ' r Hle Hk). by destruct r.
Qed.

Lemma with_stage_state_id σ : with_stage_state σ (stage_state σ) = σ.
Proof. by destruct σ. Qed.

Lemma with_task_memo_id σ : with_task_memo σ (task_memo σ) = σ.
Proof. by destruct σ. Qed.

Lemma task_memo_getitem_present m k v :
  m !! k = Some v → task_memo_getitem m k = (v, m).
Proof. intros H. unfold task_memo_getitem. by rewrite H. Qed.

(** The answers of the two [enter_*] requests, by the state found. *)
Lemma request_enter_init fuel i σ s :
  (3 ≤ fuel)%nat →
  stage_state σ !! i = Some s →
  is_Some (stages σ !! i) →
  s ≠ StageState.INITIALIZING →
  RunContext._request fuel (T_enter_init_stage i FirstCheck) σ =
    match s with
    | StageState.UNINITIALIZED =>
        (with_stage_state σ (<[i:=StageState.INITIALIZING]> (stage_state σ)),
         Some (Return (PyBool true)))
    | StageState.READY => (σ, Some (Return (PyBool false)))
    | StageState.FAILED => (σ, Some (Throw (RemoteProcessError StageError)))
    | _ => (σ, Some (Return PyNone))
    end.
Proof.
  intros Hf Hs [st Hst] Hne.
  destruct s; try done;
    (unfold RunContext._request;
     erewrite (run_alone_mono 3); [|lia|do 3 step_alone Hs Hst; reflexivity];
     reflexivity).
Qed.

Lemma request_enter_commit fuel i σ s :
  (3 ≤ fuel)%nat →
  stage_state σ !! i = Some s →
  is_Some (stages σ !! i) →
  s ≠ StageState.COMMITTING →
  RunContext._request fuel (T_enter_commit_stage i FirstCheck) σ =
    match s with
    | StageState.READY =>
        (with_stage_state σ (<[i:=StageState.COMMITTING]> (stage_state σ)),
         Some (Return (PyBool true)))
    | StageState.COMMITTED => (σ, Some (Return (PyBool false)))
    | StageState.FAILED => (σ, Some (Throw (RemoteProcessError StageError)))
    | _ => (σ, Some (Return PyNone))
    end.
Proof.
  intros Hf Hs [st Hst] Hne.
  destruct s; try done;
    (unfold RunContext._request;
     erewrite (run_alone_mono 3); [|lia|do 3 step_alone Hs Hst; reflexivity];
     reflexivity).
Qed.

Lemma request_enter_init_owner fuel i σ :
  (1 ≤ fuel)%nat →
  stage_state σ !! i = Some StageState.UNINITIALIZED →
  RunContext._request fuel (T_enter_init_stage i FirstCheck) σ =
    (with_stage_state σ (<[i:=StageState.INITIALIZING]> (stage_state σ)),
     Some (Return (PyBool true))).
Proof.
  intros Hf Hs. unfold RunContext._request.
  erewrite (run_alone_mono 1); [|lia|step_alone Hs Hs; reflexivity].
  reflexivity.
Qed.

Lemma request_enter_commit_owner fuel i σ :
  (1 ≤ fuel)%nat →
  stage_state σ !! i = Some StageState.READY →
  RunContext._request fuel (T_enter_commit_stage i FirstCheck) σ =
    (with_stage_state σ (<[i:=StageState.COMMITTING]> (stage_state σ)),
     Some (Return (PyBool true))).
Proof.
  intros Hf Hs. unfold RunContext._request.
  erewrite (run_alone_mono 1); [|lia|step_alone Hs Hs; reflexivity].
  reflexivity.
Qed.

Lemma request_exit_init fuel i σ (success : bool) :
  (1 ≤ fuel)%nat →
  stage_state σ !! i = Some StageState.INITIALIZING →
  RunContext._request fuel (T_exit_init_stage i success) σ =
    (with_stage_state σ
       (<[i:=if success then StageState.READY else StageState.FAILED]>
          (stage_state σ)),
     Some (Return PyNone)).
Proof.
  intros Hf Hs. pose proof (lookup_lt_Some _ _ _ Hs) as Hlt.
  rewrite (request_returns 1 fuel _ σ
    (with_stage_state σ
       (<[i:=if success then StageState.READY else StageState.FAILED]>
          (stage_state σ))) (Ok PyNone)); [done|lia|].
  cbn [run_alone thread_step]. unfold exit_init_stage, finish,
    _exit_stage_state_transition, getitem, setitem.
  destruct success; simpl.
  - by rewrite Hs.
  - by rewrite decide_True.
Qed.

Lemma request_exit_commit fuel i σ (success : bool) :
  (1 ≤ fuel)%nat →
  stage_state σ !! i = Some StageState.COMMITTING →
  RunContext._request fuel (T_exit_commit_stage i success) σ =
    (with_stage_state σ
       (<[i:=if success then StageState.COMMITTED else StageState.FAILED]>
          (stage_state σ)),
     Some (Return PyNone)).
Proof.
  intros Hf Hs. pose proof (lookup_lt_Some _ _ _ Hs) as Hlt.
  rewrite (request_returns 1 fuel _ σ
    (with_stage_state σ
       (<[i:=if success then StageState.COMMITTED else StageState.FAILED]>
          (stage_state σ))) (Ok PyNone)); [done|lia|].
  cbn [run_alone thread_step]. unfold exit_commit_stage, finish,
    _exit_stage_state_transition, getitem, setitem.
  destruct success; simpl.
  - by rewrite Hs.
  - by rewrite decide_True.
Qed.

(** X17: the caller of [RunContext.init_stage] that finds the stage
    UNINITIALIZED runs its block with True, the stage being INITIALIZING
    meanwhile.  If the block returns, the stage becomes READY; if it raises
    [e], the stage becomes FAILED and the caller gets a StageError raised
    from [e]. *)
Theorem init_stage_owner {A : Type} (fuel i : nat)
    (block : bool → RunContextServer → RunContextServer * client_result A)
    (σ σ2 : RunContextServer) (r : client_result A) :
  (1 ≤ fuel)%nat →
  stage_state σ !! i = Some StageState.UNINITIALIZED →
  block true
    (with_stage_state σ (<[i:=StageState.INITIALIZING]> (stage_state σ))) =
    (σ2, r) →
  stage_state σ2 !! i = Some StageState.INITIALIZING →
  RunContext.init_stage fuel i block σ =
    match r with
    | Return a =>
        (with_stage_state σ2 (<[i:=StageState.READY]> (stage_state σ2)),
         Some (Return a))
    | Throw e =>
        (with_stage_state σ2 (<[i:=StageState.FAILED]> (stage_state σ2)),
         Some (Throw (StageError_from e)))
    end.
Proof.
  intros Hf Hs Hb Hs2. unfold RunContext.init_stage, RunContext.stage_scope.
  rewrite (request_enter_init_owner fuel i σ Hf Hs). simpl. rewrite Hb.
  destruct r; by rewrite (request_exit_init fuel i σ2 _ Hf Hs2).
Qed.

Lemma init_stage_owner_witness :
  let σa :=
    with_stage_state entered_server
      (<[0%nat:=StageState.INITIALIZING]> (stage_state entered_server)) in
  stage_state entered_server !! 0%nat = Some StageState.UNINITIALIZED ∧
  RunContext.init_stage 1 0 block_raises entered_server =
    (with_stage_state σa (<[0%nat:=StageState.FAILED]> (stage_state σa)),
     Some (Throw (StageError_from (Plain ValueError)))).
Proof.
  split; [reflexivity|].
  apply (init_stage_owner 1 0 block_raises entered_server _
           (Throw (Plain ValueError)));
    [lia|reflexivity|reflexivity|reflexivity].
Defined.

(** X18: a caller of [RunContext.init_stage] that does not find the stage
    UNINITIALIZED never becomes its initialiser.  On a stage that is READY,
    COMMITTING or COMMITTED the block runs with False and no exit request
    follows; on a FAILED stage the request fails and the block does not
    run; on a stage that is INITIALIZING the call does not return as long
    as no other request is served. *)
Theorem init_stage_not_owner {A : Type} (fuel i : nat)
    (block : bool → RunContextServer → RunContextServer * client_result A)
    (σ : RunContextServer) (s : StageState.t) :
  (3 ≤ fuel)%nat →
  stage_state σ !! i = Some s →
  is_Some (stages σ !! i) →
  s ≠ StageState.UNINITIALIZED →
  RunContext.init_stage fuel i block σ =
    match s with
    | StageState.INITIALIZING => (σ, None)
    | StageState.FAILED => (σ, Some (Throw (RemoteProcessError StageError)))
    | _ => ((block false σ).1, Some (block false σ).2)
    end.
Proof.
  intros Hf Hs Hst Hne. unfold RunContext.init_stage, RunContext.stage_scope.
  destruct (decide (s = StageState.INITIALIZING)) as [->|Hni].
  - unfold RunContext._request. destruct fuel as [|fuel]; [lia|].
    cbn [run_alone thread_step].
    unfold enter_init_stage at 1, _enter_stage_state_transition, getitem.
    rewrite Hs. simpl.
    by rewrite (run_alone_enter_init_waiting i σ fuel Hs).
  - rewrite (request_enter_init fuel i σ s Hf Hs Hst Hni).
    destruct s; try done; simpl; by destruct (block false σ).
Qed.

Lemma init_stage_not_owner_witness :
  let σ :=
    with_stage_state entered_server
      [StageState.READY; StageState.UNINITIALIZED] in
  stage_state σ !! 0%nat = Some StageState.READY ∧
  RunContext.init_stage 3 0 block_returns σ = (σ, Some (Return false)).
Proof.
  split; [reflexivity|].
  apply (init_stage_not_owner 3 0 block_returns
           (with_stage_state entered_server
              [StageState.READY; StageState.UNINITIALIZED])
           StageState.READY);
    [lia|reflexivity|by eexists|discriminate].
Defined.

(** X19: [RunContext.commit_stage] by the state it finds.  READY: the block
    runs with True and the stage ends COMMITTED, or FAILED with a StageError
    if the block raised.  COMMITTED, and also UNINITIALIZED and INITIALIZING: the
    block runs with False and nothing is changed.  FAILED: the request
    fails, the block does not run.  COMMITTING: the call does not return as
    long as no other request is served. *)
Theorem commit_stage_outcome {A : Type} (fuel i : nat)
    (block : bool → RunContextServer → RunContextServer * client_result A)
    (σ : RunContextServer) (s : StageState.t) :
  (3 ≤ fuel)%nat →
  stage_state σ !! i = Some s →
  is_Some (stages σ !! i) →
  (s = StageState.READY →
   stage_state
     (block true
        (with_stage_state σ (<[i:=StageState.COMMITTING]> (stage_state σ)))).1
     !! i = Some StageState.COMMITTING) →
  RunContext.commit_stage fuel i block σ =
    match s with
    | StageState.READY =>
        let '(σ2, r) :=
          block true
            (with_stage_state σ
               (<[i:=StageState.COMMITTING]> (stage_state σ))) in
        match r with
        | Return a =>
            (with_stage_state σ2
               (<[i:=StageState.COMMITTED]> (stage_state σ2)),
             Some (Return a))
        | Throw e =>
            (with_stage_state σ2 (<[i:=StageState.FAILED]> (stage_state σ2)),
             Some (Throw (StageError_from e)))
        end
    | StageState.COMMITTING => (σ, None)
    | StageState.FAILED => (σ, Some (Throw (RemoteProcessError StageError)))
    | _ => ((block false σ).1, Some (block false σ).2)
    end.
Proof.
  intros Hf Hs Hst Hb. unfold RunContext.commit_stage, RunContext.stage_scope.
  destruct (decide (s = StageState.COMMITTING)) as [->|Hni].
  - unfold RunContext._request. destruct fuel as [|fuel]; [lia|].
    cbn [run_alone thread_step].
    unfold enter_commit_stage at 1, _enter_stage_state_transition, getitem.
    rewrite Hs. simpl.
    by rewrite (run_alone_enter_commit_waiting i σ fuel Hs).
  - rewrite (request_enter_commit fuel i σ s Hf Hs Hst Hni).
    destruct s; try done; simpl; try by destruct (block false σ).
    specialize (Hb eq_refl).
    destruct (block true _) as [σ2 r]; simpl in Hb.
    destruct r; by rewrite (request_exit_commit fuel i σ2 _ ltac:(lia) Hb).
Qed.

Lemma commit_stage_outcome_witness :
  stage_state entered_server !! 0%nat = Some StageState.UNINITIALIZED ∧
  RunContext.commit_stage 3 0 block_returns entered_server =
    (entered_server, Some (Return false)).
Proof.
  split; [reflexivity|].
  apply (commit_stage_outcome 3 0 block_returns entered_server
           StageState.UNINITIALIZED);
    [lia|reflexivity|by eexists|discriminate].
Defined.

(** X20: [RunContext.init_stage] followed by [RunContext.commit_stage] on an
    UNINITIALIZED stage, with blocks that return and leave the stage states
    and the stage list alone: both blocks
    run with True and the stage ends COMMITTED, every other stage as it
    was.  Run once more, both context managers hand False to their block
    and change nothing. *)
Theorem init_then_commit {A B : Type} (fuel i : nat)
    (init_block : bool → RunContextServer → RunContextServer * client_result A)
    (commit_block : bool → RunContextServer → RunContextServer * client_result B)
    (σ : RunContextServer) :
  (3 ≤ fuel)%nat →
  stage_state σ !! i = Some StageState.UNINITIALIZED →
  is_Some (stages σ !! i) →
  leaves_stages_alone init_block →
  leaves_stages_alone commit_block →
  (∀ σ', stages (init_block true σ').1 = stages σ') →
  (∀ σ', stages (commit_block true σ').1 = stages σ') →
  (∀ σ', ∃ a, (init_block true σ').2 = Return a) →
  (∀ σ', ∃ b, (commit_block true σ').2 = Return b) →
  ∃ σ1 σ2 a b,
    RunContext.init_stage fuel i init_block σ = (σ1, Some (Return a)) ∧
    stage_state σ1 = <[i:=StageState.READY]> (stage_state σ) ∧
    RunContext.commit_stage fuel i commit_block σ1 = (σ2, Some (Return b)) ∧
    stage_state σ2 = <[i:=StageState.COMMITTED]> (stage_state σ) ∧
    RunContext.init_stage fuel i init_block σ2 =
      ((init_block false σ2).1, Some (init_block false σ2).2) ∧
    RunContext.commit_stage fuel i commit_block σ2 =
      ((commit_block false σ2).1, Some (commit_block false σ2).2).
Proof.
  intros Hf Hs [st Hst] Hq1 Hq2 Hst1 Hst2 Hr1 Hr2.
  pose proof (lookup_lt_Some _ _ _ Hs) as Hlt.
  set (σa := with_stage_state σ (<[i:=StageState.INITIALIZING]> (stage_state σ))).
  destruct (init_block true σa) as [σb r1] eqn:Hb1.
  assert (stage_state σb = stage_state σa) as Hsb.
  { pose proof (Hq1 true σa) as H. by rewrite Hb1 in H. }
  assert (stages σb = stages σ) as Hstb.
  { pose proof (Hst1 σa) as H. by rewrite Hb1 in H. }
  destruct (Hr1 σa) as [a Ha]. rewrite Hb1 in Ha. simpl in Ha. subst r1.
  assert (stage_state σb !! i = Some StageState.INITIALIZING) as Hsbi.
  { rewrite Hsb. simpl. by rewrite list_lookup_insert_eq. }
  set (σ1 := with_stage_state σb (<[i:=StageState.READY]> (stage_state σb))).
  assert (stage_state σ1 = <[i:=StageState.READY]> (stage_state σ)) as Hs1.
  { simpl. rewrite Hsb. simpl. by rewrite list_insert_insert_eq. }
  assert (stage_state σ1 !! i = Some StageState.READY) as Hs1i.
  { rewrite Hs1. by rewrite list_lookup_insert_eq. }
  set (σc := with_stage_state σ1 (<[i:=StageState.COMMITTING]> (stage_state σ1))).
  destruct (commit_block true σc) as [σd r2] eqn:Hb2.
  assert (stage_state σd = stage_state σc) as Hsd.
  { pose proof (Hq2 true σc) as H. by rewrite Hb2 in H. }
  assert (stages σd = stages σ) as Hstd.
  { pose proof (Hst2 σc) as H. rewrite Hb2 in H. simpl in H. by rewrite H. }
  destruct (Hr2 σc) as [b Hb]. rewrite Hb2 in Hb. simpl in Hb. subst r2.
  assert (stage_state σd !! i = Some StageState.COMMITTING) as Hsdi.
  { rewrite Hsd. simpl. rewrite list_lookup_insert_eq; [done|].
    rewrite length_insert. rewrite Hsb. simpl. by rewrite length_insert. }
  set (σ2 := with_stage_state σd (<[i:=StageState.COMMITTED]> (stage_state σd))).
  assert (stage_state σ2 = <[i:=StageState.COMMITTED]> (stage_state σ)) as Hs2.
  { simpl. rewrite Hsd. simpl. rewrite Hsb. simpl.
    by rewrite !list_insert_insert_eq. }
  assert (stage_state σ2 !! i = Some StageState.COMMITTED) as Hs2i.
  { rewrite Hs2. by rewrite list_lookup_insert_eq. }
  exists σ1, σ2, a, b. split_and!.
  - unfold RunContext.init_stage, RunContext.stage_scope.
    rewrite (request_enter_init_owner fuel i σ ltac:(lia) Hs). simpl.
    fold σa. rewrite Hb1.
    by rewrite (request_exit_init fuel i σb true ltac:(lia) Hsbi).
  - done.
  - unfold RunContext.commit_stage, RunContext.stage_scope.
    rewrite (request_enter_commit_owner fuel i σ1 ltac:(lia) Hs1i).
    cbn [truthy negb]. fold σc. rewrite Hb2.
    by rewrite (request_exit_commit fuel i σd true ltac:(lia) Hsdi).
  - done.
  - unfold RunContext.init_stage, RunContext.stage_scope.
    rewrite (request_enter_init fuel i σ2 StageState.COMMITTED Hf Hs2i);
      [|simpl; rewrite Hstd; by eexists|done].
    cbn [truthy negb]. by destruct (init_block false σ2).
  - unfold RunContext.commit_stage, RunContext.stage_scope.
    rewrite (request_enter_commit fuel i σ2 StageState.COMMITTED Hf Hs2i);
      [|simpl; rewrite Hstd; by eexists|done].
    cbn [truthy negb]. by destruct (commit_block false σ2).
Qed.

Lemma init_then_commit_witness :
  stage_state entered_server !! 0%nat = Some StageState.UNINITIALIZED ∧
  ∃ σ1 σ2 a b,
    RunContext.init_stage 3 0 block_returns entered_server =
      (σ1, Some (Return a)) ∧
    stage_state σ1 =
      <[0%nat:=StageState.READY]> (stage_state entered_server) ∧
    RunContext.commit_stage 3 0 block_returns σ1 = (σ2, Some (Return b)) ∧
    stage_state σ2 =
      <[0%nat:=StageState.COMMITTED]> (stage_state entered_server) ∧
    RunContext.init_stage 3 0 block_returns σ2 =
      ((block_returns false σ2).1, Some (block_returns false σ2).2) ∧
    RunContext.commit_stage 3 0 block_returns σ2 =
      ((block_returns false σ2).1, Some (block_returns false σ2).2).
Proof.
  split; [reflexivity|].
  apply (init_then_commit 3 0 block_returns block_returns entered_server);
    [lia | reflexivity | by eexists
    | intros c σ; reflexivity | intros c σ; reflexivity
    | intros σ; reflexivity | intros σ; reflexivity
    | intros σ; by eexists | intros σ; by eexists].
Defined.


(** *** [task_memo] *)

Lemma request_enter_task_memo_miss fuel tid ks σ task :
  (1 ≤ fuel)%nat →
  tasks σ !! tid = Some task →
  entry (task_memo σ) (get_memo_key task ks) = Sentinel MemoState.NONE →
  RunContext._request fuel (T_enter_task_memo tid ks MemoLocked) σ =
    (with_task_memo σ
       (<[get_memo_key task ks:=Sentinel MemoState.WAITING]> (task_memo σ)),
     Some (Return (PyTuple [PyBool false; PyNone]))).
Proof.
  intros Hf Ht He.
  rewrite (request_returns 1 fuel _ σ
    (with_task_memo σ
       (<[get_memo_key task ks:=Sentinel MemoState.WAITING]> (task_memo σ)))
    (Ok (PyTuple [PyBool false; PyNone]))); [done|lia|].
  cbn [run_alone thread_step]. unfold enter_task_memo, getitem, resume.
  rewrite Ht. unfold entry in He. unfold task_memo_getitem.
  destruct (task_memo σ !! get_memo_key task ks) as [e|] eqn:Hk;
    simpl in He; [subst e; done|].
  by rewrite insert_insert_eq.
Qed.

Lemma request_enter_task_memo_hit fuel tid ks σ task v :
  (2 ≤ fuel)%nat →
  tasks σ !! tid = Some task →
  task_memo σ !! get_memo_key task ks = Some (Stored v) →
  RunContext._request fuel (T_enter_task_memo tid ks MemoLocked) σ =
    (σ, Some (Return (PyTuple [PyBool true; v]))).
Proof.
  intros Hf Ht Hk.
  rewrite (request_returns 2 fuel _ σ σ (Ok (PyTuple [PyBool true; v])));
    [done|lia|].
  cbn [run_alone thread_step]. unfold enter_task_memo at 1, getitem, resume.
  rewrite Ht, (task_memo_getitem_present _ _ _ Hk), with_task_memo_id.
  reflexivity.
Qed.

Lemma request_enter_task_memo_failed fuel tid ks σ task :
  (2 ≤ fuel)%nat →
  tasks σ !! tid = Some task →
  task_memo σ !! get_memo_key task ks = Some (Sentinel MemoState.FAILED) →
  RunContext._request fuel (T_enter_task_memo tid ks MemoLocked) σ =
    (σ, Some (Throw (RemoteProcessError
       (Exception_ "The same task already failed earlier (memo).")))).
Proof.
  intros Hf Ht Hk.
  rewrite (request_returns 2 fuel _ σ σ
    (Raise (Exception_ "The same task already failed earlier (memo).")));
    [done|lia|].
  cbn [run_alone thread_step]. unfold enter_task_memo at 1, getitem, resume.
  rewrite Ht, (task_memo_getitem_present _ _ _ Hk), with_task_memo_id.
  reflexivity.
Qed.

Lemma run_alone_memo_waiting fuel tid ks σ k :
  task_memo σ !! k = Some (Sentinel MemoState.WAITING) →
  run_alone fuel
    (T_enter_task_memo tid ks (MemoPoll k (Sentinel MemoState.WAITING))) σ =
    (σ, T_enter_task_memo tid ks (MemoPoll k (Sentinel MemoState.WAITING))).
Proof.
  intros Hk. induction fuel as [|fuel IH]; [done|].
  cbn [run_alone thread_step]. unfold enter_task_memo, resume.
  by rewrite (task_memo_getitem_present _ _ _ Hk), with_task_memo_id.
Qed.

Lemma request_enter_task_memo_waiting fuel tid ks σ task :
  tasks σ !! tid = Some task →
  task_memo σ !! get_memo_key task ks = Some (Sentinel MemoState.WAITING) →
  RunContext._request fuel (T_enter_task_memo tid ks MemoLocked) σ = (σ, None).
Proof.
  intros Ht Hk. unfold RunContext._request.
  destruct fuel as [|fuel]; [done|].
  cbn [run_alone thread_step]. unfold enter_task_memo at 1, getitem, resume.
  rewrite Ht, (task_memo_getitem_present _ _ _ Hk), with_task_memo_id.
  by rewrite (run_alone_memo_waiting fuel tid ks σ _ Hk).
Qed.

Lemma request_exit_task_memo_failure fuel tid ks σ task :
  (1 ≤ fuel)%nat →
  tasks σ !! tid = Some task →
  RunContext._request fuel (T_exit_task_memo tid ks false) σ =
    (with_task_memo σ
       (<[get_memo_key task ks:=Sentinel MemoState.FAILED]> (task_memo σ)),
     Some (Return PyNone)).
Proof.
  intros Hf Ht.
  rewrite (request_returns 1 fuel _ σ
    (with_task_memo σ
       (<[get_memo_key task ks:=Sentinel MemoState.FAILED]> (task_memo σ)))
    (Ok PyNone)); [done|lia|].
  cbn [run_alone thread_step]. unfold exit_task_memo, getitem, finish.
  by rewrite Ht.
Qed.

Lemma request_exit_task_memo_success fuel tid ks σ task e :
  (1 ≤ fuel)%nat →
  tasks σ !! tid = Some task →
  task_memo σ !! get_memo_key task ks = Some e →
  RunContext._request fuel (T_exit_task_memo tid ks true) σ =
    (σ, Some (if is_MemoState e
              then Throw (RemoteProcessError
                            (Exception_ "set_task_memo not called"))
              else Return PyNone)).
Proof.
  intros Hf Ht Hk.
  rewrite (request_returns 1 fuel _ σ σ
    (if is_MemoState e then Raise (Exception_ "set_task_memo not called")
     else Ok PyNone)); [by destruct (is_MemoState e)|lia|].
  cbn [run_alone thread_step]. unfold exit_task_memo, getitem, finish.
  rewrite Ht. simpl. rewrite (task_memo_getitem_present _ _ _ Hk).
  rewrite with_task_memo_id. by destruct (is_MemoState e).
Qed.

(** X21: the first [task_memo] for a key hands [(False, None)] to its
    block; if the block stores a value and returns, the context manager
    returns too, and every later [task_memo] for the key hands
    [(True, value)] to its block without waiting. *)
Theorem task_memo_miss_then_hit {A : Type}
    (fuel tid : nat) (ks : list (string * string)) (task : Task)
    (block : pyval → RunContextServer → RunContextServer * client_result A)
    (σ σ2 : RunContextServer) (a : A) (v : pyval) :
  let key := get_memo_key task ks in
  (2 ≤ fuel)%nat →
  tasks σ !! tid = Some task →
  entry (task_memo σ) key = Sentinel MemoState.NONE →
  block (PyTuple [PyBool false; PyNone])
    (with_task_memo σ (<[key:=Sentinel MemoState.WAITING]> (task_memo σ))) =
    (σ2, Return a) →
  tasks σ2 !! tid = Some task →
  task_memo σ2 !! key = Some (Stored v) →
  RunContext.task_memo fuel tid ks block σ = (σ2, Some (Return a)) ∧
  ∀ (block' : pyval → RunContextServer → RunContextServer * client_result A)
    σ3 (b : A),
    block' (PyTuple [PyBool true; v]) σ2 = (σ3, Return b) →
    tasks σ3 !! tid = Some task →
    task_memo σ3 !! key = Some (Stored v) →
    RunContext.task_memo fuel tid ks block' σ2 = (σ3, Some (Return b)).
Proof.
  intros key Hf Ht He Hb Ht2 Hk2. split.
  - unfold RunContext.task_memo.
    rewrite (request_enter_task_memo_miss fuel tid ks σ task ltac:(lia) Ht He).
    cbn [unpack2]. fold key. rewrite Hb.
    by rewrite (request_exit_task_memo_success fuel tid ks σ2 task _
                  ltac:(lia) Ht2 Hk2).
  - intros block' σ3 b Hb' Ht3 Hk3. unfold RunContext.task_memo.
    rewrite (request_enter_task_memo_hit fuel tid ks σ2 task v Hf Ht2 Hk2).
    cbn [unpack2]. rewrite Hb'.
    by rewrite (request_exit_task_memo_success fuel tid ks σ3 task _
                  ltac:(lia) Ht3 Hk3).
Qed.

Lemma task_memo_miss_then_hit_witness :
  let ks := [("input"%string, "v"%string)] in
  let key := get_memo_key task_0 ks in
  let block := memo_block_stores 0 ks (PyInt 7) in
  let σ1 :=
    with_task_memo entered_server
      (<[key:=Sentinel MemoState.WAITING]> (task_memo entered_server)) in
  let σ2 := (block (PyTuple [PyBool false; PyNone]) σ1).1 in
  entry (task_memo entered_server) key = Sentinel MemoState.NONE ∧
  task_memo σ2 !! key = Some (Stored (PyInt 7)) ∧
  RunContext.task_memo 2 0 ks block entered_server =
    (σ2, Some (Return (PyTuple [PyBool false; PyNone]))) ∧
  ∀ (block' : pyval → RunContextServer → RunContextServer * client_result pyval)
    σ3 b,
    block' (PyTuple [PyBool true; PyInt 7]) σ2 = (σ3, Return b) →
    tasks σ3 !! 0%nat = Some task_0 →
    task_memo σ3 !! key = Some (Stored (PyInt 7)) →
    RunContext.task_memo 2 0 ks block' σ2 = (σ3, Some (Return b)).
Proof.
  intros ks key block σ1 σ2.
  split; [reflexivity|]. split; [reflexivity|].
  apply (task_memo_miss_then_hit 2 0 ks task_0 block entered_server σ2
           (PyTuple [PyBool false; PyNone]) (PyInt 7));
    [lia|reflexivity|reflexivity|reflexivity|reflexivity|reflexivity].
Defined.

(** X22: a block that returns without a value having been stored makes
    [task_memo] fail with "set_task_memo not called", and the entry is left
    WAITING: every later [task_memo] for the key waits, and nothing the
    waiting request does by itself ends the wait. *)
Theorem task_memo_without_store {A : Type}
    (fuel tid : nat) (ks : list (string * string)) (task : Task)
    (block : pyval → RunContextServer → RunContextServer * client_result A)
    (σ σ2 : RunContextServer) (a : A) :
  let key := get_memo_key task ks in
  (1 ≤ fuel)%nat →
  tasks σ !! tid = Some task →
  entry (task_memo σ) key = Sentinel MemoState.NONE →
  block (PyTuple [PyBool false; PyNone])
    (with_task_memo σ (<[key:=Sentinel MemoState.WAITING]> (task_memo σ))) =
    (σ2, Return a) →
  tasks σ2 !! tid = Some task →
  task_memo σ2 !! key = Some (Sentinel MemoState.WAITING) →
  RunContext.task_memo fuel tid ks block σ =
    (σ2, Some (Throw (RemoteProcessError
                        (Exception_ "set_task_memo not called")))) ∧
  ∀ fuel'
    (block' : pyval → RunContextServer → RunContextServer * client_result A),
    RunContext.task_memo fuel' tid ks block' σ2 = (σ2, None).
Proof.
  intros key Hf Ht He Hb Ht2 Hk2. split.
  - unfold RunContext.task_memo.
    rewrite (request_enter_task_memo_miss fuel tid ks σ task Hf Ht He).
    cbn [unpack2]. fold key. rewrite Hb.
    by rewrite (request_exit_task_memo_success fuel tid ks σ2 task _
                  Hf Ht2 Hk2).
  - intros fuel' block'. unfold RunContext.task_memo.
    by rewrite (request_enter_task_memo_waiting fuel' tid ks σ2 task Ht2 Hk2).
Qed.

Lemma task_memo_without_store_witness :
  let ks := [("input"%string, "v"%string)] in
  let key := get_memo_key task_0 ks in
  let σ2 :=
    with_task_memo entered_server
      (<[key:=Sentinel MemoState.WAITING]> (task_memo entered_server)) in
  entry (task_memo entered_server) key = Sentinel MemoState.NONE ∧
  RunContext.task_memo 1 0 ks memo_block_returns entered_server =
    (σ2, Some (Throw (RemoteProcessError
                        (Exception_ "set_task_memo not called")))) ∧
  ∀ fuel' block',
    RunContext.task_memo (A:=pyval) fuel' 0 ks block' σ2 = (σ2, None).
Proof.
  intros ks key σ2. split; [reflexivity|].
  apply (task_memo_without_store 1 0 ks task_0 memo_block_returns
           entered_server σ2 (PyTuple [PyBool false; PyNone]));
    [lia|reflexivity|reflexivity|reflexivity|reflexivity|reflexivity].
Defined.

(** X23: when the block of [task_memo] raises, the entry of the key is set
    to FAILED, whatever it held (a stored result included), and the
    exception of the block is raised again unchanged.  From then on every
    [task_memo] for the key fails at once, without running its block and
    without changing the server. *)
Theorem task_memo_block_raises {A : Type}
    (fuel tid : nat) (ks : list (string * string)) (task : Task)
    (block : pyval → RunContextServer → RunContextServer * client_result A)
    (σ σ1 σ2 : RunContextServer) (success memo_ : pyval)
    (e : client_exn) :
  let key := get_memo_key task ks in
  let σ3 :=
    with_task_memo σ2 (<[key:=Sentinel MemoState.FAILED]> (task_memo σ2)) in
  (2 ≤ fuel)%nat →
  RunContext._request fuel (T_enter_task_memo tid ks MemoLocked) σ =
    (σ1, Some (Return (PyTuple [success; memo_]))) →
  block (PyTuple [success; memo_]) σ1 = (σ2, Throw e) →
  tasks σ2 !! tid = Some task →
  RunContext.task_memo fuel tid ks block σ = (σ3, Some (Throw e)) ∧
  ∀ block' : pyval → RunContextServer → RunContextServer * client_result A,
    RunContext.task_memo fuel tid ks block' σ3 =
      (σ3, Some (Throw (RemoteProcessError
         (Exception_ "The same task already failed earlier (memo).")))).
Proof.
  intros key σ3 Hf Hreq Hb Ht2. split.
  - unfold RunContext.task_memo. rewrite Hreq. cbn [unpack2]. rewrite Hb.
    by rewrite (request_exit_task_memo_failure fuel tid ks σ2 task
                  ltac:(lia) Ht2).
  - intros block'. unfold RunContext.task_memo.
    rewrite (request_enter_task_memo_failed fuel tid ks σ3 task Hf); [done| |].
    + exact Ht2.
    + subst σ3. simpl. by rewrite lookup_insert_eq.
Qed.

Lemma task_memo_block_raises_witness :
  let ks := [("input"%string, "v"%string)] in
  let key := get_memo_key task_0 ks in
  let σ := with_task_memo entered_server {[ key := Stored (PyInt 7) ]} in
  let σ3 := with_task_memo σ {[ key := Sentinel MemoState.FAILED ]} in
  RunContext._request 2 (T_enter_task_memo 0 ks MemoLocked) σ =
    (σ, Some (Return (PyTuple [PyBool true; PyInt 7]))) ∧
  RunContext.task_memo 2 0 ks memo_block_raises σ =
    (σ3, Some (Throw (Plain ValueError))) ∧
  ∀ block',
    RunContext.task_memo (A:=pyval) 2 0 ks block' σ3 =
      (σ3, Some (Throw (RemoteProcessError
         (Exception_ "The same task already failed earlier (memo).")))).
Proof.
  intros ks key σ σ3. split; [reflexivity|].
  apply (task_memo_block_raises 2 0 ks task_0 memo_block_raises σ σ σ
           (PyBool true) (PyInt 7) (Plain ValueError));
    [lia|reflexivity|reflexivity|reflexivity].
Defined.

